(** * CodeWeaver dependency analyzer

    A shallow embedding of [dependency_analyzer.py] and the properties of
    the analysis result it computes.

    - [Py]       the Python built-ins the analyzer relies on: exceptions,
                 [str] methods, insertion-ordered [dict], [round];
    - [PathLib]  [pathlib] on a POSIX file system;
    - [NX]       [networkx.DiGraph] and the contract of [simple_cycles];
    - [Extract]  import and export extraction over the matches that [ast]
                 and [re] report for a file;
    - the data classes and [DependencyAnalyzer], method by method, under
      the names of the source;
    - the vocabulary of the statements, then the properties.

    Conventions.  Text is the UTF-8 encoding of a Python [str], a sequence
    of bytes ([string]).  A Python [dict]
    keeps insertion order and is an association list whose keys are
    pairwise distinct.  A Python [float] is the rational it is worth, and
    every operation rounds as binary64 does.  A method that can let an
    exception escape returns a [result]. *)

From Stdlib Require Import List String Ascii Bool Arith ZArith QArith Qpower
  Lia Lqa Permutation.
Import ListNotations.

Close Scope Q_scope.
Local Open Scope nat_scope.
Local Open Scope string_scope.
Local Open Scope list_scope.


(* ------------------------------------------------------------------ *)
(** ** Python built-ins *)

Module Py.

(** Exceptions that escape a method.  Only [ValueError] is ever raised
    by the modelled code. *)
Inductive exn : Type := ValueError (msg : string).

Inductive result (A : Type) : Type :=
| Ret (a : A)
| Raise (e : exn).

Arguments Ret {A} a.
Arguments Raise {A} e.

Definition bind {A B} (m : result A) (k : A -> result B) : result B :=
  match m with
  | Ret a => k a
  | Raise e => Raise e
  end.

(** [for x in xs: acc = body(acc, x)] where the body may raise. *)
Fixpoint for_each {A S} (xs : list A) (body : S -> A -> result S) (s : S)
  : result S :=
  match xs with
  | [] => Ret s
  | x :: rest => bind (body s x) (for_each rest body)
  end.

(** *** [str] *)

(** [s.startswith(p)] *)
Definition startswith (p s : string) : bool := String.prefix p s.

(** [needle in hay] on [str]. *)
Fixpoint contains (needle hay : string) : bool :=
  String.prefix needle hay
  || match hay with
     | EmptyString => false
     | String _ rest => contains needle rest
     end.

(** White space.  [str.isspace] holds of the code points 9 to 13, 28 to 32,
    U+0085, U+00A0, U+1680, U+2000 to U+200A, U+2028, U+2029, U+202F,
    U+205F and U+3000.  In UTF-8 the first group is one byte each, the
    next two are [C2 85] and [C2 A0], the others three bytes. *)

(** [c.isspace()] for a one-byte character. *)
Definition isspace (c : ascii) : bool :=
  let n := nat_of_ascii c in
  (Nat.leb 9 n && Nat.leb n 13) || (Nat.leb 28 n && Nat.leb n 32).

(** The two bytes [c d] encode U+0085 or U+00A0. *)
Definition isspace2 (c d : ascii) : bool :=
  Nat.eqb (nat_of_ascii c) 194
  && (Nat.eqb (nat_of_ascii d) 133 || Nat.eqb (nat_of_ascii d) 160).

(** The three bytes [c d e] encode one of the other white-space
    characters. *)
Definition isspace3 (c d e : ascii) : bool :=
  let c := nat_of_ascii c in
  let d := nat_of_ascii d in
  let e := nat_of_ascii e in
  (Nat.eqb c 225 && Nat.eqb d 154 && Nat.eqb e 128)
  || (Nat.eqb c 226 && Nat.eqb d 128
      && ((Nat.leb 128 e && Nat.leb e 138)
          || Nat.eqb e 168 || Nat.eqb e 169 || Nat.eqb e 175))
  || (Nat.eqb c 226 && Nat.eqb d 129 && Nat.eqb e 159)
  || (Nat.eqb c 227 && Nat.eqb d 128 && Nat.eqb e 128).

(** Dropping the characters at the front of [s] that the three tests
    accept. *)
Fixpoint drop_while (w1 : ascii -> bool) (w2 : ascii -> ascii -> bool)
  (w3 : ascii -> ascii -> ascii -> bool) (s : string) : string :=
  match s with
  | EmptyString => EmptyString
  | String c rest =>
      if w1 c then drop_while w1 w2 w3 rest
      else
        match rest with
        | EmptyString => s
        | String d rest2 =>
            if w2 c d then drop_while w1 w2 w3 rest2
            else
              match rest2 with
              | EmptyString => s
              | String e rest3 =>
                  if w3 c d e then drop_while w1 w2 w3 rest3 else s
              end
        end
  end.

Fixpoint rev_onto (s acc : string) : string :=
  match s with
  | EmptyString => acc
  | String c rest => rev_onto rest (String c acc)
  end.

(** [s[::-1]], byte by byte. *)
Definition reversed (s : string) : string := rev_onto s EmptyString.

(** [s.lstrip()] *)
Definition lstrip (s : string) : string :=
  drop_while isspace isspace2 isspace3 s.

(** [s.rstrip()]: the same from the end, where the bytes of a character
    are met last byte first. *)
Definition rstrip (s : string) : string :=
  reversed
    (drop_while isspace (fun d c => isspace2 c d)
                (fun e d c => isspace3 c d e) (reversed s)).

(** [s.strip()] *)
Definition strip (s : string) : string := rstrip (lstrip s).

(** [sep.join(xs)] *)
Fixpoint join (sep : string) (xs : list string) : string :=
  match xs with
  | [] => ""
  | [x] => x
  | x :: rest => (x ++ sep ++ join sep rest)%string
  end.

(** [s.split(sep)] for a one-character separator. *)
Fixpoint split (sep : ascii) (s : string) : list string :=
  match s with
  | EmptyString => [""]
  | String c rest =>
      if Ascii.eqb c sep then "" :: split sep rest
      else match split sep rest with
           | [] => [String c ""]
           | w :: ws => String c w :: ws
           end
  end.

(** *** [dict]: insertion-ordered, unique keys *)

Definition dict (V : Type) : Type := list (string * V).

(** [d[k]] / [d.get(k)] *)
Fixpoint get {V} (k : string) (d : dict V) : option V :=
  match d with
  | [] => None
  | (k', v) :: rest => if String.eqb k' k then Some v else get k rest
  end.

(** [k in d] *)
Definition mem {V} (k : string) (d : dict V) : bool :=
  match get k d with Some _ => true | None => false end.

(** [d[k] = v]: an existing key keeps its position. *)
Fixpoint set {V} (k : string) (v : V) (d : dict V) : dict V :=
  match d with
  | [] => [(k, v)]
  | (k', v') :: rest =>
      if String.eqb k' k then (k, v) :: rest else (k', v') :: set k v rest
  end.

Definition keys {V} (d : dict V) : list string := map fst d.
Definition values {V} (d : dict V) : list V := map snd d.

(** [x in xs] on a list or set of strings. *)
Definition elem (x : string) (xs : list string) : bool :=
  existsb (String.eqb x) xs.

(** [list(set(xs))].  The iteration order of a set of strings is not
    specified by Python (it follows the randomised string hash); the order
    of first occurrence is used here. *)
Fixpoint list_set (xs : list string) : list string :=
  match xs with
  | [] => []
  | x :: rest => x :: filter (fun y => negb (String.eqb x y)) (list_set rest)
  end.

(** *** [float]

    A finite [float] is held as the rational number it is worth.  The
    arithmetic is that of binary64 with 53 significant bits, every
    operation returning the float nearest to the exact result, ties going
    to the even significand.  The range of the exponent is not modelled:
    the floats of the analyzer are quotients of list lengths, times 100,
    far from overflow and from the subnormal numbers. *)

(** The integer nearest to [q], ties going to the even one. *)
Definition round_half_even (q : Q) : Z :=
  let n := Qnum q in
  let d := Zpos (Qden q) in
  let fl := (n / d)%Z in
  match (2 * (n mod d) ?= d)%Z with
  | Lt => fl
  | Gt => (fl + 1)%Z
  | Eq => if Z.even fl then fl else (fl + 1)%Z
  end.

(** [2 ** e] *)
Definition pow2 (e : Z) : Q := (2 ^ e)%Q.

(** The exponent of the largest power of two that is at most [q], for a
    positive [q]. *)
Definition binade (q : Q) : Z :=
  let a := (Z.log2 (Qnum q) - Z.log2 (Zpos (Qden q)))%Z in
  if Qle_bool (pow2 a) q then a else (a - 1)%Z.

(** The float nearest to a positive [q]: a significand of 53 bits, scaled
    by a power of two. *)
Definition nearest_positive (q : Q) : Q :=
  let e := (binade q - 52)%Z in
  Qred (inject_Z (round_half_even (q / pow2 e)) * pow2 e).

(** The float nearest to [q]. *)
Definition nearest_float (q : Q) : Q :=
  match Qnum q with
  | Z0 => 0%Q
  | Zpos _ => nearest_positive q
  | Zneg _ => (- nearest_positive (- q))%Q
  end.

(** The exact worth of a count. *)
Definition Qnat (n : nat) : Q := inject_Z (Z.of_nat n).

(** [a / b] on [int]: the float nearest to the quotient.  The divisor is
    positive wherever the analyzer divides. *)
Definition truediv (a b : nat) : Q := nearest_float (Qnat a / Qnat b).

(** [x * y] on [float]. *)
Definition fmul (x y : Q) : Q := nearest_float (x * y).

(** [round(x, 2)]: the exact worth of [x] is rounded to the nearest
    hundredth, ties going to the even digit, and the float nearest to that
    decimal is returned. *)
Definition round2 (x : Q) : Q :=
  nearest_float (inject_Z (round_half_even (x * 100)) / 100).

End Py.

Import Py.

Declare Scope py_scope.
Notation "x <- m ;; k" := (bind m (fun x => k))
  (at level 61, m at next level, right associativity) : py_scope.
Local Open Scope py_scope.

(* ------------------------------------------------------------------ *)
(** ** pathlib *)

(** [PurePosixPath], lexically: whether the path is anchored at [/] and its
    components.  Parsing drops empty components and [.] but keeps [..].
    (CPython 3.8 to 3.12; the [//] root of POSIX is not distinguished.) *)
Module PathLib.

Record PurePath : Type := mkPath { anchor : bool; parts : list string }.

Definition keep_part (c : string) : bool :=
  negb (String.eqb c "") && negb (String.eqb c ".").

(** [Path(s)] *)
Definition Path (s : string) : PurePath :=
  {| anchor := startswith "/" s;
     parts := filter keep_part (split "/"%char s) |}.

(** [a / b] *)
Definition joinpath (a b : PurePath) : PurePath :=
  if anchor b then b
  else {| anchor := anchor a; parts := parts a ++ parts b |}.

(** [p.parent] *)
Definition parent (p : PurePath) : PurePath :=
  {| anchor := anchor p; parts := removelast (parts p) |}.

(** [p.name] *)
Definition name (p : PurePath) : string := last (parts p) "".

(** [str(p)] *)
Definition str (p : PurePath) : string :=
  if anchor p then ("/" ++ join "/" (parts p))%string
  else match parts p with
       | [] => "."
       | ps => join "/" ps
       end.

(** [name[name.rfind('.'):]] when [name] has a dot. *)
Fixpoint from_last_dot (s : string) : option string :=
  match s with
  | EmptyString => None
  | String c rest =>
      match from_last_dot rest with
      | Some x => Some x
      | None => if Ascii.eqb c "."%char then Some s else None
      end
  end.

(** [PurePath.suffix] of a component: from the last dot, unless that dot
    is the first or the last character. *)
Definition suffix_of (nm : string) : string :=
  match from_last_dot nm with
  | None => ""
  | Some suf =>
      let i := String.length nm - String.length suf in
      if Nat.ltb 0 i && Nat.ltb i (String.length nm - 1) then suf else ""
  end.

(** [p.suffix] *)
Definition suffix (p : PurePath) : string := suffix_of (name p).

(** The new last component computed by [with_suffix]. *)
Definition replace_suffix (nm ext : string) : string :=
  let old := suffix_of nm in
  if String.eqb old "" then (nm ++ ext)%string
  else (String.substring 0 (String.length nm - String.length old) nm ++ ext)%string.

(** [p.with_suffix(ext)], for a well-formed [ext] (a dot followed by
    text without [/]): raises [ValueError] on an empty name. *)
Definition with_suffix (p : PurePath) (ext : string) : result PurePath :=
  let nm := name p in
  if String.eqb nm "" then Raise (ValueError "has an empty name")
  else Ret {| anchor := anchor p;
              parts := removelast (parts p) ++ [replace_suffix nm ext] |}.

(** Normalising the components of an absolute path: [..] removes the
    component before it and is dropped at the root. *)
Fixpoint normalize (acc : list string) (ps : list string) : list string :=
  match ps with
  | [] => acc
  | p :: rest =>
      if String.eqb p ".." then normalize (removelast acc) rest
      else normalize (acc ++ [p]) rest
  end.

(** What [p.resolve()] returns for an absolute [p] none of whose
    components is a symbolic link or holds a NUL character:
    [os.path.realpath] then only normalises. *)
Definition lexical_resolve (p : PurePath) : PurePath :=
  {| anchor := anchor p; parts := normalize [] (parts p) |}.

(** The file system as [pathlib] sees it.  [os_resolve p] is
    [p.resolve()] for an absolute [p]: it follows the symbolic links that
    exist, and [None] stands for the exception it raises (a NUL character
    in the path, a loop of links). *)
Class OS : Type := { os_resolve : PurePath -> option PurePath }.

Fixpoint strip_prefix (pre l : list string) : option (list string) :=
  match pre, l with
  | [], _ => Some l
  | x :: pre', y :: l' =>
      if String.eqb x y then strip_prefix pre' l' else None
  | _ :: _, [] => None
  end.

(** [p.relative_to(base)]: [None] stands for the [ValueError] that the
    caller catches. *)
Definition relative_to (p base : PurePath) : option PurePath :=
  if Bool.eqb (anchor p) (anchor base) then
    match strip_prefix (parts base) (parts p) with
    | Some rest => Some {| anchor := false; parts := rest |}
    | None => None
    end
  else None.

End PathLib.

Import PathLib.

(* ------------------------------------------------------------------ *)
(** ** networkx *)

(** [networkx.DiGraph] without attributes: nodes and edges in insertion
    order, each stored once. *)
Module NX.

Record DiGraph : Type := mkGraph
  { g_nodes : list string; g_edges : list (string * string) }.

Definition empty : DiGraph := mkGraph [] [].

Definition edge_eqb (e1 e2 : string * string) : bool :=
  String.eqb (fst e1) (fst e2) && String.eqb (snd e1) (snd e2).

Definition has_edge (g : DiGraph) (u v : string) : bool :=
  existsb (edge_eqb (u, v)) (g_edges g).

(** [G.add_node(n)] *)
Definition add_node (n : string) (g : DiGraph) : DiGraph :=
  if elem n (g_nodes g) then g
  else mkGraph (g_nodes g ++ [n]) (g_edges g).

(** [G.add_edge(u, v)]: missing endpoints become nodes. *)
Definition add_edge (u v : string) (g : DiGraph) : DiGraph :=
  let g' := add_node v (add_node u g) in
  if has_edge g' u v then g'
  else mkGraph (g_nodes g') (g_edges g' ++ [(u, v)]).

(** [G.successors(v)] *)
Definition successors (g : DiGraph) (v : string) : list string :=
  map snd (filter (fun e => String.eqb (fst e) v) (g_edges g)).

Definition remove (x : string) (l : list string) : list string :=
  filter (fun y => negb (String.eqb x y)) l.

(** Paths [cur :: q] along edges whose later nodes [q] are pairwise
    distinct members of [avail].  [fuel] bounds the length of [q]; the
    length of [avail] is always enough. *)
Fixpoint simple_paths (g : DiGraph) (fuel : nat) (avail : list string)
  (cur : string) : list (list string) :=
  match fuel with
  | 0 => [[cur]]
  | S fuel' =>
      [cur] ::
      flat_map
        (fun w =>
           if elem w avail
           then map (cons cur) (simple_paths g fuel' (remove w avail) w)
           else [])
        (successors g cur)
  end.

(** The elementary circuits that start at [v] and otherwise stay in
    [later]. *)
Definition cycles_rooted (g : DiGraph) (v : string) (later : list string)
  : list (list string) :=
  filter (fun p => has_edge g (last p v) v)
         (simple_paths g (List.length later) later v).

Fixpoint cycles_from (g : DiGraph) (vs : list string) : list (list string) :=
  match vs with
  | [] => []
  | v :: later => cycles_rooted g v later ++ cycles_from g later
  end.

(** [list(networkx.simple_cycles(G))].

    The library is not part of the repository.  Its documented contract
    is: every elementary circuit of [G] (a closed path in which no node
    appears twice), each one once, two circuits being the same when one is
    a cyclic permutation of the other; the order of the circuits and the
    node each one starts at are not specified.  This enumeration realises
    that contract by listing every circuit from its first node in node
    insertion order. *)
Definition simple_cycles (g : DiGraph) : list (list string) :=
  cycles_from g (g_nodes g).

End NX.

Import NX.

(* ------------------------------------------------------------------ *)
(** ** Import and export extraction *)

Module Extract.

(** The regular expressions of the analyzer, by role.
    - [PyImport]:  an [import X] line, group X;
    - [PyFrom]:    a [from X import] line, group X;
    - [JsImportFrom]: [import ... from '<spec>'], group <spec>;
    - [JsRequire]: [require('<spec>')];
    - [JsDynamicImport]: [import('<spec>')];
    - [PyDef], [PyClass]: a [def NAME] / [class NAME] line;
    - [JsExportDecl]: [export (default)? function|class|const|let|var NAME];
    - [JsExportList]: [export { NAMES }], group NAMES. *)
Inductive pattern : Type :=
| PyImport | PyFrom
| JsImportFrom | JsRequire | JsDynamicImport
| PyDef | PyClass | JsExportDecl | JsExportList.

(** [self.import_patterns] *)
Definition import_patterns (lang : string) : list pattern :=
  if String.eqb lang "python" then [PyImport; PyFrom]
  else if String.eqb lang "javascript"
       then [JsImportFrom; JsRequire; JsDynamicImport]
  else if String.eqb lang "typescript" then [JsImportFrom; JsRequire]
  else [].

(** The import statements met by [ast.walk]. *)
Inductive import_stmt : Type :=
| Import (names : list string)          (* [import a, b]: the alias names *)
| ImportFrom (module : option string).  (* [from m import x]: [node.module] *)

Inductive parse_outcome : Type :=
| Parsed (stmts : list import_stmt)
| SyntaxError
| OtherError.

(** A file's text, seen through the two library functions applied to it:
    [ast.parse] followed by [ast.walk], and [re.findall(pattern, text,
    re.MULTILINE)]. *)
Record Source : Type := mkSource
  { ast_parse : parse_outcome; findall : pattern -> list string }.

(** The file system: the text behind a path, [None] when [open] or
    [read] raises. *)
Definition FileSystem : Type := string -> option Source.

Definition stmt_names (s : import_stmt) : list string :=
  match s with
  | Import names => names
  | ImportFrom (Some m) => if String.eqb m "" then [] else [m]
  | ImportFrom None => []
  end.

Definition _extract_python_imports (content : Source) : list string :=
  let imports :=
    match ast_parse content with
    | Parsed stmts => flat_map stmt_names stmts
    | SyntaxError =>
        flat_map (findall content) (import_patterns "python")
    | OtherError => []
    end in
  list_set imports.

Definition keep_js_import (imp : string) : bool :=
  if startswith "." imp then true
  else if negb (startswith "@" imp) && negb (contains "/" imp) then false
  else true.

Definition _extract_javascript_imports (content : Source) : list string :=
  let imports := flat_map (findall content) (import_patterns "javascript") in
  let cleaned_imports := filter keep_js_import (map strip imports) in
  list_set cleaned_imports.

Definition is_js_extension (extension : string) : bool :=
  elem extension [".js"; ".jsx"; ".ts"; ".tsx"].

Definition _extract_imports (fs : FileSystem) (file_path : PurePath)
  (extension : string) : list string :=
  match fs (str file_path) with
  | None => []
  | Some content =>
      if String.eqb extension ".py" then _extract_python_imports content
      else if is_js_extension extension
           then _extract_javascript_imports content
      else []
  end.

Definition _extract_exports (fs : FileSystem) (file_path : PurePath)
  (extension : string) : list string :=
  match fs (str file_path) with
  | None => []
  | Some content =>
      let export_patterns :=
        if String.eqb extension ".py" then [PyDef; PyClass]
        else [JsExportDecl; JsExportList] in
      list_set
        (flat_map
           (fun pat =>
              flat_map (fun m => map strip (split ","%char m))
                       (findall content pat))
           export_patterns)
  end.

End Extract.

Import Extract.

(* ------------------------------------------------------------------ *)
(** ** Data model *)

(** An entry of the known-file catalog ([all_files] values). *)
Record FileInfo : Type := mkFileInfo
  { path : string; relative_path : string; extension : string }.

Record DependencyNode : Type := mkNode
  { file_id : string;
    file_path : string;
    file_type : string;
    imports : list string;
    exports : list string;
    dependencies : list string;
    dependents : list string;
    is_entry_point : bool;
    is_leaf : bool }.

Record MissingDependency : Type := mkMissing
  { required_by : string;
    required_by_path : string;
    missing_import : string;
    suggested_file : option string;
    confidence : Q;
    reason : string }.

(** The dictionary returned by [_suggest_missing_file]. *)
Record Suggestion : Type := mkSuggestion
  { sg_file_id : string; sg_confidence : Q; sg_reason : string }.

Record MostDependent : Type := mkMostDependent
  { md_file_id : string; md_file_path : string; md_dependent_count : nat }.

Record Metrics : Type := mkMetrics
  { total_files : nat;
    entry_points : nat;
    leaf_nodes : nat;
    average_dependencies : Q;
    max_dependencies : nat;
    most_dependent_file : option MostDependent;
    coupling_score : Q }.

Record GraphNode : Type := mkGraphNode
  { gn_id : string;
    gn_label : string;
    gn_path : string;
    gn_type : string;
    gn_is_entry_point : bool;
    gn_is_leaf : bool;
    gn_dependency_count : nat;
    gn_dependent_count : nat }.

Record GraphData : Type := mkGraphData
  { gd_nodes : list GraphNode; gd_edges : list (string * string) }.

Record AnalysisResult : Type := mkResult
  { nodes : dict DependencyNode;
    missing_dependencies : list MissingDependency;
    circular_dependencies : list (list string);
    metrics : Metrics;
    graph : GraphData;
    completeness_score : Q }.

(** In-place mutation of the object stored under [k]. *)
Definition mutate {V} (k : string) (f : V -> V) (d : dict V) : dict V :=
  map (fun kv => if String.eqb (fst kv) k then (fst kv, f (snd kv)) else kv) d.

Definition append_dependency (dep : string) (n : DependencyNode) : DependencyNode :=
  mkNode (file_id n) (file_path n) (file_type n) (imports n) (exports n)
         (dependencies n ++ [dep]) (dependents n)
         (is_entry_point n) (is_leaf n).

Definition append_dependent (src : string) (n : DependencyNode) : DependencyNode :=
  mkNode (file_id n) (file_path n) (file_type n) (imports n) (exports n)
         (dependencies n) (dependents n ++ [src])
         (is_entry_point n) (is_leaf n).

Definition classify (n : DependencyNode) : DependencyNode :=
  mkNode (file_id n) (file_path n) (file_type n) (imports n) (exports n)
         (dependencies n) (dependents n)
         (Nat.eqb (List.length (dependents n)) 0)
         (Nat.eqb (List.length (dependencies n)) 0).

(** Truth value of a [str]. *)
Definition truthy (s : string) : bool := negb (String.eqb s "").

(* ------------------------------------------------------------------ *)
(** ** class DependencyAnalyzer *)

Section DependencyAnalyzer.

(** [self.all_files], [self.root_dir] as the components of an absolute
    directory (the caller passes [os.path.abspath] of it), and the file
    system the analyzer runs on. *)
Variable all_files : dict FileInfo.
Variable root_dir : list string.
Context {os : OS}.

Definition root_path : PurePath := mkPath true root_dir.

(** [any(f['relative_path'] == p for f in self.all_files.values())] *)
Definition in_catalog (p : string) : bool :=
  existsb (fun f => String.eqb (relative_path f) p) (values all_files).

Definition extensions_for (file_type : string) : list string :=
  if String.eqb file_type ".py" then [".py"]
  else [".js"; ".jsx"; ".ts"; ".tsx"].

(** First loop of [_resolve_import_path]: the import as a file. *)
Fixpoint try_direct (resolved : PurePath) (exts : list string)
  : result (option string) :=
  match exts with
  | [] => Ret None
  | ext :: rest =>
      candidate <- with_suffix resolved ext ;;
      match relative_to candidate root_path with
      | Some relative_to_root =>
          if in_catalog (str relative_to_root)
          then Ret (Some (str relative_to_root))
          else try_direct resolved rest
      | None => try_direct resolved rest
      end
  end.

(** Second loop: the import as a directory holding an index file. *)
Fixpoint try_index (resolved : PurePath) (exts : list string)
  : option string :=
  match exts with
  | [] => None
  | ext :: rest =>
      let candidate := joinpath resolved (Path ("index" ++ ext)%string) in
      match relative_to candidate root_path with
      | Some relative_to_root =>
          if in_catalog (str relative_to_root)
          then Some (str relative_to_root)
          else try_index resolved rest
      | None => try_index resolved rest
      end
  end.

Definition _resolve_import_path (import_path : string)
  (current_dir : PurePath) (file_type : string) : result (option string) :=
  if negb (startswith "." import_path) then Ret None
  else
    let extensions := extensions_for file_type in
    match os_resolve (joinpath (joinpath root_path current_dir)
                               (Path import_path)) with
    | None => Ret None
    | Some resolved =>
        direct <- try_direct resolved extensions ;;
        match direct with
        | Some p => Ret (Some p)
        | None => Ret (try_index resolved extensions)
        end
    end.

(** The comprehension [{all_files[fid]['relative_path']: fid for fid in
    selected_files if fid in all_files}]. *)
Definition file_path_to_id (selected_files : list string) : dict string :=
  fold_left
    (fun d fid =>
       match get fid all_files with
       | Some info => set (relative_path info) fid d
       | None => d
       end)
    selected_files [].

(** Body of the inner loop of [_resolve_dependencies]. *)
Definition link_import (path_to_id : dict string) (fid : string)
  (current_dir : PurePath) (ftype : string)
  (st : dict DependencyNode * DiGraph) (imp : string)
  : result (dict DependencyNode * DiGraph) :=
  resolved_path <- _resolve_import_path imp current_dir ftype ;;
  match resolved_path with
  | Some p =>
      match (if truthy p then get p path_to_id else None) with
      | Some dep_file_id =>
          if String.eqb dep_file_id fid then Ret st
          else
            let nodes1 := mutate fid (append_dependency dep_file_id) (fst st) in
            let nodes2 :=
              if mem dep_file_id nodes1
              then mutate dep_file_id (append_dependent fid) nodes1
              else nodes1 in
            Ret (nodes2, add_edge fid dep_file_id (snd st))
      | None => Ret st
      end
  | None => Ret st
  end.

Definition link_node (path_to_id : dict string)
  (st : dict DependencyNode * DiGraph) (item : string * DependencyNode)
  : result (dict DependencyNode * DiGraph) :=
  let current_dir := parent (Path (file_path (snd item))) in
  for_each (imports (snd item))
           (link_import path_to_id (fst item) current_dir
                        (file_type (snd item)))
           st.

(** [_resolve_dependencies]: the nodes and the graph after the call.  The
    loops read only [file_path], [file_type] and [imports], which the
    body never changes, so they run over the items as they were on
    entry. *)
Definition _resolve_dependencies (nodes0 : dict DependencyNode)
  (selected_files : list string) (g : DiGraph)
  : result (dict DependencyNode * DiGraph) :=
  st <- for_each nodes0 (link_node (file_path_to_id selected_files))
                 (nodes0, g) ;;
  Ret (map (fun kv => (fst kv, classify (snd kv))) (fst st), snd st).

Definition _suggest_missing_file (missing_path : string) : option Suggestion :=
  match find (fun kv => String.eqb (relative_path (snd kv)) missing_path)
             all_files with
  | Some (fid, _) => Some (mkSuggestion fid 1 "Exact path match found")
  | None =>
      let missing_name := name (Path missing_path) in
      let candidates :=
        flat_map
          (fun kv =>
             let file_name := name (Path (relative_path (snd kv))) in
             if String.eqb file_name missing_name then
               [mkSuggestion (fst kv) (8 # 10)
                  ("Filename matches: " ++ relative_path (snd kv))%string]
             else if contains missing_name file_name
                     || contains file_name missing_name then
               [mkSuggestion (fst kv) (5 # 10)
                  ("Similar filename: " ++ relative_path (snd kv))%string]
             else [])
          all_files in
      hd_error candidates
  end.

(** [selected_paths], a set, as the list of its members. *)
Definition selected_paths (selected_files : list string) : list string :=
  flat_map
    (fun fid =>
       match get fid all_files with
       | Some info => [relative_path info]
       | None => []
       end)
    selected_files.

(** Body of the inner loop of [_find_missing_dependencies]. *)
Definition check_import (sel_paths : list string) (fid : string)
  (node : DependencyNode) (missing : list MissingDependency) (imp : string)
  : result (list MissingDependency) :=
  resolved_path <-
    _resolve_import_path imp (parent (Path (file_path node))) (file_type node) ;;
  match resolved_path with
  | Some p =>
      if truthy p && negb (elem p sel_paths) then
        let suggestion := _suggest_missing_file p in
        Ret (missing ++
             [mkMissing fid (file_path node) imp
                (match suggestion with Some s => Some (sg_file_id s) | None => None end)
                (match suggestion with Some s => sg_confidence s | None => 0 end)
                (match suggestion with Some s => sg_reason s | None => "File not found" end)])
      else Ret missing
  | None => Ret missing
  end.

Definition _find_missing_dependencies (nodes1 : dict DependencyNode)
  (selected_files : list string) : result (list MissingDependency) :=
  let sel_paths := selected_paths selected_files in
  for_each nodes1
    (fun missing item =>
       for_each (imports (snd item))
                (check_import sel_paths (fst item) (snd item)) missing)
    [].

Definition _detect_circular_dependencies (g : DiGraph) : list (list string) :=
  simple_cycles g.

End DependencyAnalyzer.

(** [max(items, key=...)]: the first item with the largest key. *)
Definition max_by {A} (key : A -> nat) (first : A) (rest : list A) : A :=
  fold_left (fun best x => if Nat.ltb (key best) (key x) then x else best)
            rest first.

Definition _calculate_metrics (nodes1 : dict DependencyNode) : Metrics :=
  let total_files := List.length nodes1 in
  if Nat.eqb total_files 0 then mkMetrics 0 0 0 0 0 None 0
  else
    let entry_points :=
      List.length (filter is_entry_point (values nodes1)) in
    let leaf_nodes := List.length (filter is_leaf (values nodes1)) in
    let dep_counts :=
      map (fun n => List.length (dependencies n)) (values nodes1) in
    let avg_deps := truediv (list_sum dep_counts) total_files in
    let max_deps := list_max dep_counts in
    let most_dependent :=
      match nodes1 with
      | [] => None
      | first :: rest =>
          Some (max_by (fun kv => List.length (dependents (snd kv))) first rest)
      end in
    let total_possible_deps := total_files * (total_files - 1) in
    let actual_deps := list_sum dep_counts in
    let coupling_score :=
      if Nat.ltb 0 total_possible_deps
      then fmul (truediv actual_deps total_possible_deps) 100
      else 0%Q in
    mkMetrics total_files entry_points leaf_nodes
      (round2 avg_deps) max_deps
      (match most_dependent with
       | Some (fid, n) =>
           if truthy fid
           then Some (mkMostDependent fid (file_path n)
                                      (List.length (dependents n)))
           else None
       | None => None
       end)
      (round2 coupling_score).

Definition _generate_graph_data (nodes1 : dict DependencyNode) : GraphData :=
  mkGraphData
    (map (fun kv =>
            let n := snd kv in
            mkGraphNode (fst kv) (name (Path (file_path n))) (file_path n)
              (file_type n) (is_entry_point n) (is_leaf n)
              (List.length (dependencies n)) (List.length (dependents n)))
         nodes1)
    (flat_map (fun kv => map (fun dep_id => (fst kv, dep_id))
                             (dependencies (snd kv)))
              nodes1).

Definition _calculate_completeness_score (selected_count missing_count : nat)
  : Q :=
  if Nat.eqb selected_count 0 then 0%Q
  else
    let total := selected_count + missing_count in
    let score := fmul (truediv selected_count total) 100 in
    round2 score.

Section Analysis.

Variable all_files : dict FileInfo.
Variable root_dir : list string.
Variable fs : FileSystem.
Context {os : OS}.

(** First loop of [analyze_dependencies]: one node per selected id of the
    catalog. *)
Definition make_node (st : dict DependencyNode * DiGraph) (fid : string)
  : dict DependencyNode * DiGraph :=
  match get fid all_files with
  | None => st
  | Some file_info =>
      let file_path := Path (path file_info) in
      let imports := _extract_imports fs file_path (extension file_info) in
      let exports := _extract_exports fs file_path (extension file_info) in
      let node :=
        mkNode fid (relative_path file_info) (extension file_info)
               imports exports [] [] false false in
      (set fid node (fst st), add_node fid (snd st))
  end.

(** [DependencyAnalyzer(all_files, root_dir).analyze_dependencies(
    selected_files)] on a fresh analyzer, whose graph is empty. *)
Definition analyze_dependencies (selected_files : list string)
  : result AnalysisResult :=
  let st0 := fold_left make_node selected_files ([], NX.empty) in
  st1 <- _resolve_dependencies all_files root_dir (fst st0) selected_files
                               (snd st0) ;;
  missing_deps <-
    _find_missing_dependencies all_files root_dir (fst st1) selected_files ;;
  let cycles := _detect_circular_dependencies (snd st1) in
  Ret (mkResult (fst st1) missing_deps cycles
         (_calculate_metrics (fst st1))
         (_generate_graph_data (fst st1))
         (_calculate_completeness_score (List.length selected_files)
                                        (List.length missing_deps))).

End Analysis.

(* ------------------------------------------------------------------ *)
(** ** A small project used in the examples *)

Module Demo.

Definition js (specs : list string) : Source :=
  mkSource (Parsed [])
    (fun pat => match pat with JsImportFrom => specs | _ => [] end).

Definition file (rel : string) : string * FileInfo :=
  (rel, mkFileInfo ("/proj/" ++ rel)%string rel ".js").

Definition root : list string := ["proj"].

(** The file system of the examples: no symbolic links, so that
    [resolve()] only normalises. *)
#[global] Instance plain : OS :=
  {| os_resolve p := Some (lexical_resolve p) |}.

(** The same files reached through a symbolic link: [/proj] is a link to
    [/real]. *)
Definition linked : OS :=
  {| os_resolve p :=
       Some (mkPath true ("real" :: tl (parts (lexical_resolve p)))) |}.

(** A file system on which [resolve()] raises. *)
Definition failing : OS := {| os_resolve _ := None |}.

(** [pkg/a.js] imports [./b]; [pkg/b.js] imports [./c]; [pkg/c.js] is
    in the catalog but not selected. *)
Definition catalog : dict FileInfo :=
  [file "pkg/a.js"; file "pkg/b.js"; file "pkg/c.js"].

Definition disk : FileSystem :=
  fun p =>
    if String.eqb p "/proj/pkg/a.js" then Some (js ["./b"])
    else if String.eqb p "/proj/pkg/b.js" then Some (js ["./c"])
    else if String.eqb p "/proj/pkg/c.js" then Some (js [])
    else None.

(** [a.js] names [b.js] by the given specifiers; [b.js] imports nothing. *)
Definition pair_catalog : dict FileInfo := [file "a.js"; file "b.js"].

Definition pair_disk (specs : list string) : FileSystem :=
  fun p =>
    if String.eqb p "/proj/a.js" then Some (js specs)
    else if String.eqb p "/proj/b.js" then Some (js [])
    else None.

(** [x.js] alone, importing a module that is nowhere in the catalog. *)
Definition lone_catalog : dict FileInfo := [file "x.js"].

Definition lone_disk : FileSystem :=
  fun p =>
    if String.eqb p "/proj/x.js" then Some (js ["./nonexistent"]) else None.

(** [pkg/b.js] with the statement importing [./c] written twice. *)
Definition twice_disk : FileSystem :=
  fun p =>
    if String.eqb p "/proj/pkg/b.js" then Some (js ["./c"; "./c"])
    else if String.eqb p "/proj/pkg/c.js" then Some (js [])
    else None.

(** [a.js] imports [./b], [b.js] imports [./c], [c.js] imports [./a]. *)
Definition ring_catalog : dict FileInfo := [file "a.js"; file "b.js"; file "c.js"].

Definition ring_disk : FileSystem :=
  fun p =>
    if String.eqb p "/proj/a.js" then Some (js ["./b"])
    else if String.eqb p "/proj/b.js" then Some (js ["./c"])
    else if String.eqb p "/proj/c.js" then Some (js ["./a"])
    else None.

End Demo.

(* ------------------------------------------------------------------ *)
(** ** Vocabulary of the statements *)

Section Vocabulary.

Context {os : OS}.

(** The first element of a list on which a partial function is defined:
    how the loops of the resolver and of the suggester pick their answer. *)
Definition first_hit {A B} (l : list A) (f : A -> option B) (x : A) (b : B)
  : Prop :=
  exists l1 l2, l = l1 ++ x :: l2 /\ f x = Some b
                /\ forall y, In y l1 -> f y = None.

(** The catalog path reached by giving [resolved] the suffix [ext]: an
    existing suffix of the last component is replaced, otherwise [ext] is
    appended. *)
Definition direct_hit (all_files : dict FileInfo) (root_dir : list string)
  (resolved : PurePath) (ext : string) : option string :=
  let candidate :=
    mkPath (anchor resolved)
           (removelast (parts resolved)
            ++ [replace_suffix (name resolved) ext]) in
  match relative_to candidate (root_path root_dir) with
  | Some rel => if in_catalog all_files (str rel) then Some (str rel) else None
  | None => None
  end.

(** The catalog path reached by [index<ext>] inside [resolved]. *)
Definition index_hit (all_files : dict FileInfo) (root_dir : list string)
  (resolved : PurePath) (ext : string) : option string :=
  match relative_to (joinpath resolved (Path ("index" ++ ext)%string))
                    (root_path root_dir) with
  | Some rel => if in_catalog all_files (str rel) then Some (str rel) else None
  | None => None
  end.

(** The absolute path an import denotes when no symbolic link is involved:
    project root, importing directory and specifier joined, with [.] and
    [..] normalised. *)
Definition import_target (root_dir : list string) (current_dir : PurePath)
  (import_path : string) : PurePath :=
  lexical_resolve (joinpath (joinpath (root_path root_dir) current_dir)
                    (Path import_path)).

(** The resolver as the specification words it: each extension is
    appended to the candidate path. *)
Definition appended_hit (all_files : dict FileInfo) (root_dir : list string)
  (resolved : PurePath) (ext : string) : option string :=
  match relative_to (Path (str resolved ++ ext)%string) (root_path root_dir) with
  | Some rel => if in_catalog all_files (str rel) then Some (str rel) else None
  | None => None
  end.

Fixpoint first_some {A B} (f : A -> option B) (l : list A) : option B :=
  match l with
  | [] => None
  | x :: rest => match f x with Some b => Some b | None => first_some f rest end
  end.

Definition resolve_import_path_as_specified (all_files : dict FileInfo)
  (root_dir : list string) (import_path : string) (current_dir : PurePath)
  (file_type : string) : option string :=
  if negb (startswith "." import_path) then None
  else
    let resolved := import_target root_dir current_dir import_path in
    match first_some (appended_hit all_files root_dir resolved)
                     (extensions_for file_type) with
    | Some p => Some p
    | None => first_some (index_hit all_files root_dir resolved)
                         (extensions_for file_type)
    end.

(** File names that the suggester relates: equal, or one contained in the
    other. *)
Definition names_related (missing_name file_name : string) : bool :=
  String.eqb file_name missing_name
  || contains missing_name file_name
  || contains file_name missing_name.

(** [PurePath.stem] of a component. *)
Definition stem_of (nm : string) : string :=
  String.substring 0 (String.length nm - String.length (suffix_of nm)) nm.

(** The suggestion policy as the specification words it: the tiers are
    tried one after the other, each over the whole catalog. *)
Definition suggest_as_specified (all_files : dict FileInfo)
  (missing_path : string) : option Suggestion :=
  let missing_name := name (Path missing_path) in
  let file_name (kv : string * FileInfo) := name (Path (relative_path (snd kv))) in
  match find (fun kv => String.eqb (relative_path (snd kv)) missing_path)
             all_files with
  | Some kv => Some (mkSuggestion (fst kv) 1 "Exact path match found")
  | None =>
      match find (fun kv => String.eqb (file_name kv) missing_name) all_files with
      | Some kv =>
          Some (mkSuggestion (fst kv) (8 # 10)
                  ("Filename matches: " ++ relative_path (snd kv))%string)
      | None =>
          match find (fun kv =>
                        contains (stem_of missing_name) (stem_of (file_name kv))
                        || contains (stem_of (file_name kv)) (stem_of missing_name))
                     all_files with
          | Some kv =>
              Some (mkSuggestion (fst kv) (5 # 10)
                      ("Similar filename: " ++ relative_path (snd kv))%string)
          | None => None
          end
      end
  end.

(** *** The analysis, step by step *)

(** The nodes created by the first loop of [analyze_dependencies]. *)
Definition initial_nodes (all_files : dict FileInfo) (fs : FileSystem)
  (selected_files : list string) : dict DependencyNode :=
  fst (fold_left (make_node all_files fs) selected_files ([], NX.empty)).

(** The selected file an import of [node] leads to, if any: the
    condition under which [_resolve_dependencies] inserts an edge. *)
Definition import_edge (all_files : dict FileInfo) (root_dir : list string)
  (path_to_id : dict string) (fid : string) (node : DependencyNode)
  (imp : string) : list string :=
  match _resolve_import_path all_files root_dir imp
          (parent (Path (file_path node))) (file_type node) with
  | Ret (Some p) =>
      match (if truthy p then get p path_to_id else None) with
      | Some dep => if String.eqb dep fid then [] else [dep]
      | None => []
      end
  | _ => []
  end.

Definition targets (all_files : dict FileInfo) (root_dir : list string)
  (path_to_id : dict string) (item : string * DependencyNode) : list string :=
  flat_map (import_edge all_files root_dir path_to_id (fst item) (snd item))
           (imports (snd item)).

(** All edges inserted by [_resolve_dependencies], in insertion order. *)
Definition edges_of (all_files : dict FileInfo) (root_dir : list string)
  (path_to_id : dict string) (items : dict DependencyNode)
  : list (string * string) :=
  flat_map (fun item => map (pair (fst item))
                            (targets all_files root_dir path_to_id item))
           items.

(** Inserting the edge [u -> v]. *)
Definition connect (st : dict DependencyNode * DiGraph) (e : string * string)
  : dict DependencyNode * DiGraph :=
  (mutate (snd e) (append_dependent (fst e))
          (mutate (fst e) (append_dependency (snd e)) (fst st)),
   add_edge (fst e) (snd e) (snd st)).

(** What a list of edge insertions does to the node stored under [k]. *)
Definition after_edge (k : string) (n : DependencyNode) (e : string * string)
  : DependencyNode :=
  let n1 := if String.eqb k (fst e) then append_dependency (snd e) n else n in
  if String.eqb k (snd e) then append_dependent (fst e) n1 else n1.

Definition after_edges (es : list (string * string)) (k : string)
  (n : DependencyNode) : DependencyNode :=
  fold_left (after_edge k) es n.

(** The entry [_find_missing_dependencies] appends for one import. *)
Definition missing_entry (all_files : dict FileInfo) (root_dir : list string)
  (sel_paths : list string) (item : string * DependencyNode) (imp : string)
  : list MissingDependency :=
  match _resolve_import_path all_files root_dir imp
          (parent (Path (file_path (snd item)))) (file_type (snd item)) with
  | Ret (Some p) =>
      if truthy p && negb (elem p sel_paths) then
        let suggestion := _suggest_missing_file all_files p in
        [mkMissing (fst item) (file_path (snd item)) imp
           (match suggestion with Some s => Some (sg_file_id s) | None => None end)
           (match suggestion with Some s => sg_confidence s | None => 0 end)
           (match suggestion with Some s => sg_reason s | None => "File not found" end)]
      else []
  | _ => []
  end.

(** The entries of the missing list that belong to one import of one
    file. *)
Definition entries_for (fid imp : string) (l : list MissingDependency)
  : list MissingDependency :=
  filter (fun m => String.eqb (required_by m) fid
                   && String.eqb (missing_import m) imp) l.

(** No two catalog entries share a relative path. *)
Definition unique_paths (all_files : dict FileInfo) : Prop :=
  NoDup (map relative_path (values all_files)).

(** How often [x] occurs in [l]. *)
Definition occurrences (x : string) (l : list string) : nat :=
  List.length (filter (String.eqb x) l).

(** [imp], imported by [node], resolves to the catalog path [p]. *)
Definition resolves_to (all_files : dict FileInfo) (root_dir : list string)
  (node : DependencyNode) (p : string) (imp : string) : bool :=
  match _resolve_import_path all_files root_dir imp
          (parent (Path (file_path node))) (file_type node) with
  | Ret (Some q) => String.eqb q p
  | _ => false
  end.

(** The graph handed to the cycle detector: one node per analysed file,
    then the resolved edges. *)
Definition dependency_graph (all_files : dict FileInfo) (root_dir : list string)
  (fs : FileSystem) (selected_files : list string) : DiGraph :=
  fold_left (fun g e => add_edge (fst e) (snd e) g)
    (edges_of all_files root_dir (file_path_to_id all_files selected_files)
              (initial_nodes all_files fs selected_files))
    (snd (fold_left (make_node all_files fs) selected_files ([], NX.empty))).

(** The node [analyze_dependencies] creates for the catalog entry [info]
    stored under [fid]. *)
Definition fresh_node (fs : FileSystem) (fid : string) (info : FileInfo)
  : DependencyNode :=
  mkNode fid (relative_path info) (extension info)
         (_extract_imports fs (Path (path info)) (extension info))
         (_extract_exports fs (Path (path info)) (extension info))
         [] [] false false.

(** The sum of all dependency-list sizes of a result. *)
Definition total_dependencies (nodes1 : dict DependencyNode) : nat :=
  list_sum (map (fun n => List.length (dependencies n)) (values nodes1)).

(** *** Cycles *)

(** Each node of [p] is joined to the next one. *)
Fixpoint is_path (E : string -> string -> Prop) (p : list string) : Prop :=
  match p with
  | a :: t => match t with
              | b :: _ => E a b /\ is_path E t
              | [] => True
              end
  | [] => True
  end.

(** An elementary cycle, listed from one of its nodes: distinct nodes, each
    joined to the next and the last one to the first. *)
Definition elementary_cycle (E : string -> string -> Prop) (c : list string)
  : Prop :=
  c <> [] /\ NoDup c /\ is_path E (c ++ [hd "" c]).

(** The same cycle listed from another start. *)
Definition rotation (c c' : list string) : Prop :=
  exists l1 l2, c = l1 ++ l2 /\ c' = l2 ++ l1.

(** The edge relation of a graph. *)
Definition graph_edge (g : DiGraph) (u v : string) : Prop :=
  In (u, v) (g_edges g).

(** [u] depends on [v] in the result: [v] is listed in the dependencies of
    the node stored under [u]. *)
Definition depends_on (r : AnalysisResult) (u v : string) : Prop :=
  exists n, get u (nodes r) = Some n /\ In v (dependencies n).

(** The specifiers of a file's import statements as extraction collects
    them, one per statement, before duplicates are merged. *)
Definition import_statements (fs : FileSystem) (file_path : PurePath)
  (extension : string) : list string :=
  match fs (str file_path) with
  | None => []
  | Some content =>
      if String.eqb extension ".py" then
        match ast_parse content with
        | Parsed stmts => flat_map stmt_names stmts
        | SyntaxError => flat_map (findall content) (import_patterns "python")
        | OtherError => []
        end
      else if is_js_extension extension then
        filter keep_js_import
               (map strip (flat_map (findall content)
                                    (import_patterns "javascript")))
      else []
  end.

End Vocabulary.

(* ------------------------------------------------------------------ *)
(** ** Vocabulary of the further properties *)

Section FurtherVocabulary.

Context {os : OS}.

(** The selected ids the catalog knows. *)
Definition known_ids (all_files : dict FileInfo) (selected_files : list string)
  : list string :=
  filter (fun k => mem k all_files) selected_files.

(** The analysis result of a selection none of whose ids is in the
    catalog. *)
Definition empty_result (selected_count : nat) : AnalysisResult :=
  mkResult [] [] [] (mkMetrics 0 0 0 0 0 None 0) (mkGraphData [] [])
           (_calculate_completeness_score selected_count 0).

(** An import of [node] that leads to the root of the file system: a
    relative specifier for which [resolve()] returns a path with an empty
    name. *)
Definition climbs_to_root (root_dir : list string) (node : DependencyNode)
  (imp : string) : Prop :=
  startswith "." imp = true
  /\ exists resolved,
       os_resolve (joinpath (joinpath (root_path root_dir)
                                      (parent (Path (file_path node))))
                            (Path imp)) = Some resolved
       /\ name resolved = "".

(** [p] ends with an extension of the language family of a file of type
    [file_type]; ["."] is what [str] gives for the project root itself. *)
Definition in_family (file_type p : string) : Prop :=
  p = "."
  \/ exists stem ext,
       In ext (extensions_for file_type) /\ p = (stem ++ ext)%string.

(** The text starts with a character that the three tests accept. *)
Definition starts_with (w1 : ascii -> bool) (w2 : ascii -> ascii -> bool)
  (w3 : ascii -> ascii -> ascii -> bool) (s : string) : bool :=
  match s with
  | EmptyString => false
  | String c rest =>
      w1 c
      || match rest with
         | EmptyString => false
         | String d rest2 =>
             w2 c d
             || match rest2 with
                | EmptyString => false
                | String e _ => w3 c d e
                end
         end
  end.

(** [analyze_dependencies] called on an analyzer whose
    [self.dependency_graph] is [g0]: the result, and the graph the call
    leaves behind.  The node dictionary is local to the call; the graph is
    created once, by [__init__], and no method ever clears it.  On a fresh
    analyzer [g0] is the empty graph. *)
Definition analyze_dependencies_on (all_files : dict FileInfo)
  (root_dir : list string) (fs : FileSystem) (g0 : DiGraph)
  (selected_files : list string) : result (AnalysisResult * DiGraph) :=
  let st0 := fold_left (make_node all_files fs) selected_files ([], g0) in
  st1 <- _resolve_dependencies all_files root_dir (fst st0) selected_files
                               (snd st0) ;;
  missing_deps <-
    _find_missing_dependencies all_files root_dir (fst st1) selected_files ;;
  let cycles := _detect_circular_dependencies (snd st1) in
  Ret (mkResult (fst st1) missing_deps cycles
         (_calculate_metrics (fst st1))
         (_generate_graph_data (fst st1))
         (_calculate_completeness_score (List.length selected_files)
                                        (List.length missing_deps)),
       snd st1).

(** Two runs of a loop body end alike: both return, in related states, or
    both raise. *)
Definition alike {S} (R : S -> S -> Prop) (a b : result S) : Prop :=
  match a, b with
  | Ret x, Ret y => R x y
  | Raise _, Raise _ => True
  | _, _ => False
  end.

(** The same node dictionary, whatever the graph. *)
Definition same_nodes (st st' : dict DependencyNode * DiGraph) : Prop :=
  fst st = fst st'.

End FurtherVocabulary.

(** ** Sanity checks of the embedding on concrete inputs *)

Example path_parse : Path "pkg/./sub//a.js" = mkPath false ["pkg"; "sub"; "a.js"].
Proof. reflexivity. Qed.

Example path_suffix_examples :
  suffix_of "a.tar.gz" = ".gz" /\ suffix_of ".bashrc" = "" /\
  suffix_of "a." = "" /\ suffix_of "utils" = "".
Proof. repeat split. Qed.

Example with_suffix_replaces :
  with_suffix (Path "/proj/app.config") ".js" = Ret (Path "/proj/app.js").
Proof. reflexivity. Qed.

Example resolve_dotdot :
  lexical_resolve (joinpath (Path "/proj/src") (Path "../../../x")) = Path "/x".
Proof. reflexivity. Qed.

Example simple_cycles_triangle :
  simple_cycles (add_edge "c" "a" (add_edge "b" "c" (add_edge "a" "b" empty)))
  = [["a"; "b"; "c"]].
Proof. reflexivity. Qed.

Example simple_cycles_two :
  simple_cycles
    (add_edge "c" "b" (add_edge "b" "c" (add_edge "b" "a" (add_edge "a" "b" empty))))
  = [["a"; "b"]; ["b"; "c"]].
Proof. reflexivity. Qed.

Example demo_scenario :
  exists r,
    analyze_dependencies Demo.catalog Demo.root Demo.disk
                         ["pkg/a.js"; "pkg/b.js"] = Ret r
    /\ option_map dependencies (get "pkg/a.js" (nodes r)) = Some ["pkg/b.js"]
    /\ option_map dependents (get "pkg/b.js" (nodes r)) = Some ["pkg/a.js"]
    /\ option_map dependencies (get "pkg/b.js" (nodes r)) = Some []
    /\ map missing_import (missing_dependencies r) = ["./c"]
    /\ map suggested_file (missing_dependencies r) = [Some "pkg/c.js"]
    /\ circular_dependencies r = [].
Proof. eexists. split; [vm_compute; reflexivity|]. repeat split. Qed.

Example strip_examples :
  strip "  ./utils " = "./utils" /\ strip "" = "" /\ strip "a b" = "a b"
  /\ strip (String (ascii_of_nat 194) (String (ascii_of_nat 160) "./b"))
     = "./b"
  /\ strip (String (ascii_of_nat 9) "./b"
            ++ String (ascii_of_nat 227)
                 (String (ascii_of_nat 128) (String (ascii_of_nat 128) "")))
     = "./b".
Proof. repeat split. Qed.

Example split_examples :
  split ","%char "a, b,c" = ["a"; " b"; "c"] /\ split ","%char "" = [""].
Proof. repeat split. Qed.

Example contains_examples :
  contains "utils.js" "my_utils.js" = true
  /\ contains "my_utils.js" "utils.js" = false
  /\ contains "" "x" = true.
Proof. repeat split. Qed.

Example list_set_example : list_set ["./a"; "./b"; "./a"] = ["./a"; "./b"].
Proof. reflexivity. Qed.

Example keep_js_import_examples :
  keep_js_import "./local" = true /\ keep_js_import "react" = false
  /\ keep_js_import "@scope/pkg" = true /\ keep_js_import "lib/util" = true.
Proof. repeat split. Qed.

(** Floats round as binary64 does: 23 selected ids with 137 missing
    imports score 14.37 (the quotient times 100 is just below 14.375), 598
    dependencies among 65 files couple at 14.37, and one edge among 40
    files averages 0.03 (the float 0.025 is just above 0.025). *)
Example round2_examples :
  (_calculate_completeness_score 23 137 == nearest_float (1437 # 100))%Q
  /\ (round2 (fmul (truediv 598 (65 * 64)) 100)
      == nearest_float (1437 # 100))%Q
  /\ (round2 (truediv 1 40) == nearest_float (3 # 100))%Q
  /\ (round2 (1 # 8) == nearest_float (12 # 100))%Q
  /\ (round2 (3 # 8) == nearest_float (38 # 100))%Q
  /\ (truediv 1 10 == 3602879701896397 # 36028797018963968)%Q
  /\ (nearest_float (1437 # 100) == 8089590830664253 # 562949953421312)%Q.
Proof. repeat split. Qed.

Example resolver_prefers_file_over_index :
  _resolve_import_path
    [Demo.file "lib.js"; Demo.file "lib/index.js"] Demo.root
    "./lib" (parent (Path "main.js")) ".js" = Ret (Some "lib.js")
  /\ _resolve_import_path
       [Demo.file "lib/index.js"] Demo.root
       "./lib" (parent (Path "main.js")) ".js" = Ret (Some "lib/index.js").
Proof. split; reflexivity. Qed.

(** Through a symbolic link nothing resolves: the resolved candidate is
    under [/real], the project root is [/proj].  Nor does anything resolve
    when [resolve()] raises. *)
Example resolver_follows_links :
  _resolve_import_path Demo.catalog Demo.root "./b" (Path "pkg") ".js"
  = Ret (Some "pkg/b.js")
  /\ _resolve_import_path (os := Demo.linked) Demo.catalog Demo.root "./b"
                          (Path "pkg") ".js" = Ret None
  /\ _resolve_import_path (os := Demo.failing) Demo.catalog Demo.root "./b"
                          (Path "pkg") ".js" = Ret None.
Proof. repeat split. Qed.

(* ------------------------------------------------------------------ *)
(** * Properties *)

(** ** Generic facts about the Python layer *)

(** Name the result of a concrete run of the analysis. *)
Ltac run_analysis r Hrun :=
  match goal with
  | |- context [analyze_dependencies ?c ?root ?disk ?sel] =>
      destruct (analyze_dependencies c root disk sel) as [r|] eqn:Hrun;
      [|vm_compute in Hrun; discriminate]
  end.

(** Name the node stored under [k] in the result of such a run. *)
Ltac node_of k r n Hn Hrun :=
  destruct (get k (nodes r)) as [n|] eqn:Hn;
  [|vm_compute in Hrun; injection Hrun as <-; discriminate].

Lemma bind_Ret_inv {A B} (m : result A) (k : A -> result B) (b : B) :
  bind m k = Ret b -> exists a, m = Ret a /\ k a = Ret b.
Proof. destruct m as [a|e]; simpl; intros H; [eauto | discriminate]. Qed.

Lemma elem_In (x : string) (xs : list string) : elem x xs = true <-> In x xs.
Proof.
  unfold elem. rewrite existsb_exists. split.
  - intros [y [Hy Heq]]. apply String.eqb_eq in Heq. now subst.
  - intros H. exists x. split; [assumption | apply String.eqb_refl].
Qed.

Lemma elem_not_In (x : string) (xs : list string) :
  elem x xs = false <-> ~ In x xs.
Proof.
  rewrite <- elem_In. destruct (elem x xs); split; intros; congruence.
Qed.

Lemma first_hit_unique {A B} (l : list A) (f : A -> option B) x b x' b' :
  first_hit l f x b -> first_hit l f x' b' -> b = b'.
Proof.
  revert x b x' b'. induction l as [|a l IH]; intros x b x' b'
    [l1 [l2 [E [Hx Hl1]]]] [l1' [l2' [E' [Hx' Hl1']]]].
  - destruct l1; discriminate.
  - destruct l1 as [|y l1]; destruct l1' as [|y' l1']; simpl in *;
      injection E as E1 E2; injection E' as E1' E2'.
    + congruence.
    + assert (f y' = None) by (apply Hl1'; now left). congruence.
    + assert (f y = None) by (apply Hl1; now left). congruence.
    + apply (IH x b x' b').
      * exists l1, l2. repeat split; auto.
      * exists l1', l2'. repeat split; auto.
Qed.

(** ** Dictionaries *)

Section Dict.

Context {V : Type}.
Implicit Types (d : dict V) (k : string) (v : V).

Lemma get_In k v d : get k d = Some v -> In (k, v) d.
Proof.
  induction d as [|[k' v'] d IH]; simpl; [discriminate|].
  destruct (String.eqb k' k) eqn:E.
  - apply String.eqb_eq in E. intros H. injection H as <-. subst. now left.
  - intros H. right. now apply IH.
Qed.

Lemma get_None_keys k d : get k d = None <-> ~ In k (keys d).
Proof.
  induction d as [|[k' v'] d IH]; simpl.
  - split; auto.
  - destruct (String.eqb k' k) eqn:E.
    + apply String.eqb_eq in E. split; [discriminate | intros H; exfalso; auto].
    + apply String.eqb_neq in E. rewrite IH. tauto.
Qed.

Lemma In_get k v d : NoDup (keys d) -> In (k, v) d -> get k d = Some v.
Proof.
  induction d as [|[k' v'] d IH]; simpl; intros Hnd; [intros []|].
  inversion Hnd as [|? ? Hnotin Hnd']; subst.
  intros [H|H].
  - injection H as -> ->. now rewrite String.eqb_refl.
  - destruct (String.eqb k' k) eqn:E.
    + apply String.eqb_eq in E. subst. exfalso. apply Hnotin.
      change k with (fst (k, v)). now apply in_map.
    + now apply IH.
Qed.

Lemma mem_keys k d : mem k d = true <-> In k (keys d).
Proof.
  unfold mem. destruct (get k d) eqn:E.
  - split; auto. intros _. apply get_In in E.
    change k with (fst (k, v)). now apply in_map.
  - apply get_None_keys in E. split; [discriminate | tauto].
Qed.

Lemma keys_set k v d :
  forall x, In x (keys (set k v d)) <-> x = k \/ In x (keys d).
Proof.
  induction d as [|[k' v'] d IH]; simpl; intros x.
  - intuition.
  - destruct (String.eqb k' k) eqn:E; simpl.
    + apply String.eqb_eq in E. subst. intuition.
    + rewrite IH. intuition.
Qed.

Lemma NoDup_keys_set k v d : NoDup (keys d) -> NoDup (keys (set k v d)).
Proof.
  induction d as [|[k' v'] d IH]; simpl; intros Hnd.
  - constructor; [intros [] | constructor].
  - inversion Hnd as [|? ? Hnotin Hnd']; subst.
    destruct (String.eqb k' k) eqn:E; simpl.
    + apply String.eqb_eq in E. subst. now constructor.
    + apply String.eqb_neq in E. constructor; [|now apply IH].
      rewrite keys_set. intros [H|H]; congruence.
Qed.

Lemma In_set k v d x w :
  In (x, w) (set k v d) -> (x = k /\ w = v) \/ In (x, w) d.
Proof.
  induction d as [|[k' v'] d IH]; simpl.
  - intros [H|[]]. injection H as <- <-. auto.
  - destruct (String.eqb k' k); simpl.
    + intros [H|H]; [injection H as <- <-|]; auto.
    + intros [H|H]; auto. destruct (IH H); auto.
Qed.

Lemma get_set k v d x :
  get x (set k v d) = if String.eqb k x then Some v else get x d.
Proof.
  induction d as [|[k' v'] d IH]; simpl.
  - reflexivity.
  - destruct (String.eqb k' k) eqn:E; simpl.
    + apply String.eqb_eq in E. subst. now destruct (String.eqb k x).
    + destruct (String.eqb k' x) eqn:E'.
      * apply String.eqb_eq in E'. subst.
        rewrite String.eqb_sym in E. now rewrite E.
      * exact IH.
Qed.

Lemma keys_mutate k (f : V -> V) d : keys (mutate k f d) = keys d.
Proof.
  unfold keys, mutate. rewrite map_map. apply map_ext.
  intros [k' v']. simpl. now destruct (String.eqb k' k).
Qed.

End Dict.

Lemma unique_paths_entry (all_files : dict FileInfo) k1 v1 k2 v2 :
  unique_paths all_files ->
  In (k1, v1) all_files -> In (k2, v2) all_files ->
  relative_path v1 = relative_path v2 -> k1 = k2 /\ v1 = v2.
Proof.
  unfold unique_paths, values. rewrite map_map.
  induction all_files as [|[k v] d IH]; simpl; intros Hnd; [intros []|].
  inversion Hnd as [|? ? Hnotin Hnd']; subst.
  intros [H1|H1] [H2|H2] Heq.
  - injection H1 as <- <-. injection H2 as <- <-. auto.
  - injection H1 as <- <-. exfalso. apply Hnotin. rewrite Heq.
    apply (in_map (fun x => relative_path (snd x)) _ _ H2).
  - injection H2 as <- <-. exfalso. apply Hnotin. rewrite <- Heq.
    apply (in_map (fun x => relative_path (snd x)) _ _ H1).
  - now apply IH.
Qed.

Lemma for_each_app {A S} (xs ys : list A) (body : S -> A -> result S) (s : S) :
  for_each (xs ++ ys) body s = bind (for_each xs body s) (for_each ys body).
Proof.
  revert s. induction xs as [|x xs IH]; simpl; intros s; [reflexivity|].
  destruct (body s x); simpl; [apply IH | reflexivity].
Qed.

(** A loop whose body, when it returns, acts as a pure fold. *)
Lemma for_each_pure {A B S} (xs : list A) (body : S -> A -> result S)
  (f : A -> list B) (step : S -> B -> S) (s s' : S) :
  (forall s0 s1 x, In x xs -> body s0 x = Ret s1 -> s1 = fold_left step (f x) s0) ->
  for_each xs body s = Ret s' ->
  s' = fold_left step (flat_map f xs) s.
Proof.
  revert s. induction xs as [|x xs IH]; simpl; intros s Hbody H.
  - now injection H.
  - apply bind_Ret_inv in H. destruct H as [s1 [H1 H2]].
    rewrite fold_left_app.
    rewrite <- (Hbody s s1 x (or_introl eq_refl) H1).
    apply IH; [|exact H2]. intros s0 s2 y Hy. apply Hbody. now right.
Qed.

(** ** The graph structure *)

Lemma edge_eqb_eq e1 e2 : edge_eqb e1 e2 = true <-> e1 = e2.
Proof.
  unfold edge_eqb. destruct e1 as [a b], e2 as [c d]. simpl.
  rewrite andb_true_iff, !String.eqb_eq. split.
  - intros [-> ->]. reflexivity.
  - intros H. injection H as -> ->. auto.
Qed.

Lemma has_edge_In g u v : has_edge g u v = true <-> In (u, v) (g_edges g).
Proof.
  unfold has_edge. rewrite existsb_exists. split.
  - intros [e [He Heq]]. apply edge_eqb_eq in Heq. now subst.
  - intros H. exists (u, v). split; [assumption | now apply edge_eqb_eq].
Qed.

Lemma add_node_nodes n g x :
  In x (g_nodes (add_node n g)) <-> x = n \/ In x (g_nodes g).
Proof.
  unfold add_node. destruct (elem n (g_nodes g)) eqn:E; simpl.
  - apply elem_In in E. split; [auto | intros [->|H]; auto].
  - rewrite in_app_iff. simpl. intuition.
Qed.

Lemma add_node_edges n g : g_edges (add_node n g) = g_edges g.
Proof. unfold add_node. now destruct (elem n (g_nodes g)). Qed.

Lemma add_node_NoDup n g : NoDup (g_nodes g) -> NoDup (g_nodes (add_node n g)).
Proof.
  unfold add_node. destruct (elem n (g_nodes g)) eqn:E; simpl; auto.
  intros H. apply elem_not_In in E.
  apply NoDup_app; [assumption | repeat constructor; intros [] | ].
  intros x Hx [<-|[]]. contradiction.
Qed.

Lemma add_edge_edges u v g e :
  In e (g_edges (add_edge u v g)) <-> e = (u, v) \/ In e (g_edges g).
Proof.
  unfold add_edge.
  destruct (has_edge (add_node v (add_node u g)) u v) eqn:E; simpl.
  - apply has_edge_In in E. rewrite !add_node_edges in *.
    split; [auto | intros [->|H]; auto].
  - rewrite !add_node_edges, in_app_iff. simpl. intuition.
Qed.

Lemma add_edge_nodes u v g x :
  In x (g_nodes (add_edge u v g)) <-> x = u \/ x = v \/ In x (g_nodes g).
Proof.
  unfold add_edge.
  destruct (has_edge (add_node v (add_node u g)) u v); simpl;
    rewrite !add_node_nodes; intuition.
Qed.

Lemma add_edge_NoDup_nodes u v g :
  NoDup (g_nodes g) -> NoDup (g_nodes (add_edge u v g)).
Proof.
  intros H. unfold add_edge.
  destruct (has_edge (add_node v (add_node u g)) u v); simpl;
    now repeat apply add_node_NoDup.
Qed.

Lemma add_edge_NoDup_edges u v g :
  NoDup (g_edges g) -> NoDup (g_edges (add_edge u v g)).
Proof.
  intros H. unfold add_edge.
  destruct (has_edge (add_node v (add_node u g)) u v) eqn:E; simpl;
    rewrite !add_node_edges; auto.
  assert (Hn : ~ In (u, v) (g_edges g)).
  { intros Hin. rewrite <- (add_node_edges u g) in Hin.
    rewrite <- (add_node_edges v (add_node u g)) in Hin.
    apply has_edge_In in Hin. congruence. }
  apply NoDup_app; [assumption | repeat constructor; intros [] | ].
  intros x Hx [<-|[]]. contradiction.
Qed.

Lemma fold_add_edge es g :
  let g' := fold_left (fun g e => add_edge (fst e) (snd e) g) es g in
  (forall e, In e (g_edges g') <-> In e es \/ In e (g_edges g))
  /\ (forall x, In x (g_nodes g') <->
                (exists e, In e es /\ (x = fst e \/ x = snd e))
                \/ In x (g_nodes g))
  /\ (NoDup (g_nodes g) -> NoDup (g_nodes g'))
  /\ (NoDup (g_edges g) -> NoDup (g_edges g')).
Proof.
  revert g. induction es as [|[u v] es IH]; intros g; simpl.
  - repeat split; auto; try tauto.
    + intros [[e [[] _]]|H]; auto.
  - destruct (IH (add_edge u v g)) as [H1 [H2 [H3 H4]]]. simpl in *.
    split; [|split; [|split]].
    + intros e. rewrite H1, add_edge_edges. intuition.
    + intros x. rewrite H2, add_edge_nodes. split.
      * intros [[e [He Hx]]|[->|[->|Hx]]]; eauto.
        -- left. exists (u, v). simpl; auto.
        -- left. exists (u, v). simpl; auto.
      * intros [[e [[<-|He] Hx]]|Hx]; simpl in *; eauto; intuition.
    + intros H. now apply H3, add_edge_NoDup_nodes.
    + intros H. now apply H4, add_edge_NoDup_edges.
Qed.

(** ** The first loop: node creation *)

Section Nodes.

Variable all_files : dict FileInfo.
Variable fs : FileSystem.

Lemma make_node_keys st fid x :
  In x (keys (fst (make_node all_files fs st fid)))
  <-> (x = fid /\ mem fid all_files = true) \/ In x (keys (fst st)).
Proof.
  unfold make_node, mem. destruct (get fid all_files); simpl.
  - rewrite keys_set. intuition.
  - intuition. discriminate.
Qed.

Lemma make_nodes_keys selected st x :
  In x (keys (fst (fold_left (make_node all_files fs) selected st)))
  <-> (In x selected /\ mem x all_files = true) \/ In x (keys (fst st)).
Proof.
  revert st. induction selected as [|fid l IH]; intros st; simpl.
  - intuition.
  - rewrite IH, make_node_keys. split.
    + intros [[H1 H2]|[[-> H2]|H]]; auto.
    + intros [[[<-|H1] H2]|H]; auto.
Qed.

Lemma make_nodes_NoDup selected st :
  NoDup (keys (fst st)) ->
  NoDup (keys (fst (fold_left (make_node all_files fs) selected st))).
Proof.
  revert st. induction selected as [|fid l IH]; intros st H; simpl; auto.
  apply IH. unfold make_node. destruct (get fid all_files); simpl; auto.
  now apply NoDup_keys_set.
Qed.

Lemma make_nodes_entries selected st k n :
  In (k, n) (fst (fold_left (make_node all_files fs) selected st)) ->
  In (k, n) (fst st)
  \/ (In k selected
      /\ exists info, get k all_files = Some info /\ n = fresh_node fs k info).
Proof.
  revert st. induction selected as [|fid l IH]; intros st; simpl; auto.
  intros H. destruct (IH _ H) as [H'|[Hin Hex]].
  - unfold make_node in H'. destruct (get fid all_files) as [info|] eqn:E;
      simpl in H'; auto.
    apply In_set in H'. destruct H' as [[-> ->]|H']; auto.
    right. split; [now left|]. exists info. auto.
  - right. split; [now right | assumption].
Qed.

Lemma make_nodes_graph selected st :
  let st' := fold_left (make_node all_files fs) selected st in
  g_edges (snd st') = g_edges (snd st)
  /\ (forall x, In x (g_nodes (snd st')) <->
                (In x selected /\ mem x all_files = true)
                \/ In x (g_nodes (snd st)))
  /\ (NoDup (g_nodes (snd st)) -> NoDup (g_nodes (snd st'))).
Proof.
  revert st. induction selected as [|fid l IH]; intros st; simpl.
  - intuition.
  - destruct (IH (make_node all_files fs st fid)) as [H1 [H2 H3]].
    simpl in *. unfold make_node, mem in *.
    destruct (get fid all_files) as [info|] eqn:E; simpl in *.
    + split; [|split].
      * now rewrite H1, add_node_edges.
      * intros x. rewrite H2, add_node_nodes. intuition. subst.
        left. rewrite E. auto.
      * intros H. now apply H3, add_node_NoDup.
    + split; [|split]; auto.
      intros x. rewrite H2. intuition. subst. rewrite E in *. discriminate.
Qed.

(** The nodes of an analysis: one per selected id known to the
    catalog, in the state the first loop leaves them. *)
Lemma initial_nodes_spec selected :
  NoDup (keys (initial_nodes all_files fs selected))
  /\ (forall k, In k (keys (initial_nodes all_files fs selected))
                <-> In k selected /\ mem k all_files = true)
  /\ (forall k n, In (k, n) (initial_nodes all_files fs selected) ->
                  exists info, get k all_files = Some info
                               /\ n = fresh_node fs k info).
Proof.
  unfold initial_nodes. split; [|split].
  - apply make_nodes_NoDup. constructor.
  - intros k. rewrite make_nodes_keys. simpl. intuition.
  - intros k n H. apply make_nodes_entries in H.
    destruct H as [[]|[_ H]]. exact H.
Qed.

(** ** [file_path_to_id] and [selected_paths] *)

Lemma file_path_to_id_snoc l fid :
  file_path_to_id all_files (l ++ [fid])
  = match get fid all_files with
    | Some info => set (relative_path info) fid (file_path_to_id all_files l)
    | None => file_path_to_id all_files l
    end.
Proof. unfold file_path_to_id. now rewrite fold_left_app. Qed.

Lemma file_path_to_id_sound selected p fid :
  get p (file_path_to_id all_files selected) = Some fid ->
  In fid selected
  /\ exists info, get fid all_files = Some info /\ relative_path info = p.
Proof.
  induction selected as [|x l IH] using rev_ind.
  - discriminate.
  - rewrite file_path_to_id_snoc. intros H.
    assert (Hl : get p (file_path_to_id all_files l) = Some fid ->
                 In fid (l ++ [x])
                 /\ exists info, get fid all_files = Some info
                                 /\ relative_path info = p).
    { intros H'. destruct (IH H') as [Hin Hex]. split; auto.
      apply in_or_app. now left. }
    destruct (get x all_files) as [info|] eqn:E; auto.
    rewrite get_set in H.
    destruct (String.eqb (relative_path info) p) eqn:Ep; auto.
    apply String.eqb_eq in Ep. injection H as <-.
    split; [apply in_or_app; right; now left|]. eauto.
Qed.

Lemma file_path_to_id_complete selected fid info :
  unique_paths all_files ->
  In fid selected -> get fid all_files = Some info ->
  get (relative_path info) (file_path_to_id all_files selected) = Some fid.
Proof.
  intros Huniq. induction selected as [|x l IH] using rev_ind; [intros []|].
  intros Hin Hget. rewrite file_path_to_id_snoc.
  destruct (get x all_files) as [info'|] eqn:E.
  - rewrite get_set.
    destruct (String.eqb (relative_path info') (relative_path info)) eqn:Ep.
    + apply String.eqb_eq in Ep.
      destruct (unique_paths_entry all_files x info' fid info Huniq
                  (get_In _ _ _ E) (get_In _ _ _ Hget) Ep) as [-> _].
      reflexivity.
    + apply IH; auto. apply in_app_or in Hin. destruct Hin as [H|[->|[]]]; auto.
      rewrite E in Hget. injection Hget as ->.
      rewrite String.eqb_refl in Ep. discriminate.
  - apply IH; auto. apply in_app_or in Hin. destruct Hin as [H|[->|[]]]; auto.
    congruence.
Qed.

Lemma selected_paths_In selected p :
  In p (selected_paths all_files selected)
  <-> exists fid info, In fid selected /\ get fid all_files = Some info
                       /\ relative_path info = p.
Proof.
  unfold selected_paths. rewrite in_flat_map. split.
  - intros [fid [Hin H]]. destruct (get fid all_files) as [info|] eqn:E.
    + destruct H as [<-|[]]. eauto.
    + destruct H.
  - intros [fid [info [Hin [Hget <-]]]]. exists fid. split; auto.
    rewrite Hget. now left.
Qed.

End Nodes.

(** ** The two passes over the nodes as pure folds *)

Lemma flat_map_map_out {A B C} (g : B -> C) (h : A -> list B) (l : list A) :
  flat_map (fun x => map g (h x)) l = map g (flat_map h l).
Proof.
  induction l as [|a l IH]; simpl; [reflexivity|].
  now rewrite IH, map_app.
Qed.

Lemma mutate_absent {V} (k : string) (f : V -> V) (d : dict V) :
  mem k d = false -> mutate k f d = d.
Proof.
  intros H. assert (Hk : ~ In k (keys d)).
  { intros Hin. apply mem_keys in Hin. congruence. }
  unfold mutate. rewrite <- (map_id d) at 2. apply map_ext_in.
  intros [k' v'] Hin. simpl.
  destruct (String.eqb k' k) eqn:E; [|reflexivity].
  apply String.eqb_eq in E. subst. exfalso. apply Hk.
  change k with (fst (k, v')). now apply in_map.
Qed.

Section PassFacts.

Context {os : OS}.

Section Passes.

Variable all_files : dict FileInfo.
Variable root_dir : list string.
Variable path_to_id : dict string.

Lemma link_import_pure fid node st st' imp :
  link_import all_files root_dir path_to_id fid
              (parent (Path (file_path node))) (file_type node) st imp = Ret st' ->
  st' = fold_left connect
          (map (pair fid) (import_edge all_files root_dir path_to_id fid node imp))
          st.
Proof.
  unfold link_import, import_edge.
  destruct (_resolve_import_path _ _ _ _ _) as [[p|]|e]; simpl;
    [| intros H; now injection H | discriminate].
  destruct (if truthy p then get p path_to_id else None) as [dep|];
    [| intros H; now injection H].
  destruct (String.eqb dep fid); simpl; [intros H; now injection H|].
  intros H. injection H as <-. unfold connect. simpl. f_equal.
  destruct (mem dep _) eqn:E; [reflexivity|].
  now rewrite (@mutate_absent _ dep (append_dependent fid) _ E).
Qed.

Lemma link_node_pure item st st' :
  link_node all_files root_dir path_to_id st item = Ret st' ->
  st' = fold_left connect
          (map (pair (fst item)) (targets all_files root_dir path_to_id item)) st.
Proof.
  unfold link_node, targets. intros H.
  rewrite <- flat_map_map_out.
  eapply for_each_pure; [|exact H].
  intros s0 s1 imp _. apply link_import_pure.
Qed.

Lemma link_all_pure (items : dict DependencyNode) st st' :
  for_each items (link_node all_files root_dir path_to_id) st = Ret st' ->
  st' = fold_left connect (edges_of all_files root_dir path_to_id items) st.
Proof.
  intros H. unfold edges_of.
  eapply for_each_pure; [|exact H].
  intros s0 s1 item _. apply link_node_pure.
Qed.

Lemma check_import_pure sel_paths item missing missing' imp :
  check_import all_files root_dir sel_paths (fst item) (snd item) missing imp
  = Ret missing' ->
  missing' = missing ++ missing_entry all_files root_dir sel_paths item imp.
Proof.
  unfold check_import, missing_entry.
  destruct (_resolve_import_path _ _ _ _ _) as [[p|]|e]; simpl;
    [| intros H; injection H as <-; now rewrite app_nil_r | discriminate].
  destruct (truthy p && negb (elem p sel_paths)); intros H; injection H as <-;
    [reflexivity | now rewrite app_nil_r].
Qed.

Lemma fold_append {A} (l : list A) (acc : list A) :
  fold_left (fun m x => m ++ [x]) l acc = acc ++ l.
Proof.
  revert acc. induction l as [|a l IH]; simpl; intros acc.
  - now rewrite app_nil_r.
  - rewrite IH, <- app_assoc. reflexivity.
Qed.

Lemma find_missing_pure (nodes1 : dict DependencyNode) selected missing :
  _find_missing_dependencies all_files root_dir nodes1 selected = Ret missing ->
  missing =
  flat_map (fun item =>
              flat_map (missing_entry all_files root_dir
                          (selected_paths all_files selected) item)
                       (imports (snd item)))
           nodes1.
Proof.
  unfold _find_missing_dependencies. intros H.
  rewrite <- (app_nil_l (flat_map _ nodes1)), <- fold_append.
  eapply for_each_pure; [|exact H].
  intros s0 s1 item _ Hitem.
  rewrite fold_append.
  rewrite <- (fold_append (flat_map _ (imports (snd item))) s0).
  eapply for_each_pure; [|exact Hitem].
  intros m0 m1 imp _ Himp. rewrite fold_append.
  now apply check_import_pure.
Qed.

End Passes.

(** ** Edge insertion, node by node *)

Lemma connect_nodes st e :
  fst (connect st e)
  = map (fun kv => (fst kv, after_edge (fst kv) (snd kv) e)) (fst st).
Proof.
  unfold connect, mutate, after_edge. simpl. rewrite map_map.
  apply map_ext. intros [k n]. simpl.
  destruct (String.eqb k (fst e)); simpl; destruct (String.eqb k (snd e));
    reflexivity.
Qed.

Lemma fold_connect_nodes es st :
  fst (fold_left connect es st)
  = map (fun kv => (fst kv, after_edges es (fst kv) (snd kv))) (fst st).
Proof.
  revert st. induction es as [|e es IH]; intros st; simpl.
  - rewrite <- (map_id (fst st)) at 1. apply map_ext. now intros [k n].
  - rewrite IH, connect_nodes, map_map. apply map_ext. now intros [k n].
Qed.

Lemma fold_connect_graph es st :
  snd (fold_left connect es st)
  = fold_left (fun g e => add_edge (fst e) (snd e) g) es (snd st).
Proof.
  revert st. induction es as [|e es IH]; intros st; simpl; [reflexivity|].
  now rewrite IH.
Qed.

Lemma after_edges_fields es k n :
  dependencies (after_edges es k n)
  = dependencies n ++ map snd (filter (fun e => String.eqb k (fst e)) es)
  /\ dependents (after_edges es k n)
     = dependents n ++ map fst (filter (fun e => String.eqb k (snd e)) es)
  /\ file_path (after_edges es k n) = file_path n
  /\ file_type (after_edges es k n) = file_type n
  /\ imports (after_edges es k n) = imports n.
Proof.
  revert n. unfold after_edges.
  induction es as [|e es IH]; intros n; simpl.
  - now rewrite !app_nil_r.
  - destruct (IH (after_edge k n e)) as [H1 [H2 [H3 [H4 H5]]]].
    rewrite H1, H2, H3, H4, H5. unfold after_edge.
    destruct (String.eqb k (fst e)); destruct (String.eqb k (snd e)); simpl;
      rewrite <- ?app_assoc; auto.
Qed.

(** ** The analysis result in closed form *)

Section Result.

Variable all_files : dict FileInfo.
Variable root_dir : list string.
Variable fs : FileSystem.
Variable selected : list string.

Let nodes0 := initial_nodes all_files fs selected.
Let p2i := file_path_to_id all_files selected.
Let es := edges_of all_files root_dir p2i nodes0.

Lemma analyze_dependencies_closed_form r :
  analyze_dependencies all_files root_dir fs selected = Ret r ->
  nodes r = map (fun kv => (fst kv, classify (after_edges es (fst kv) (snd kv))))
                nodes0
  /\ missing_dependencies r
     = flat_map (fun item =>
                   flat_map (missing_entry all_files root_dir
                               (selected_paths all_files selected) item)
                            (imports (snd item)))
                (nodes r)
  /\ circular_dependencies r
     = simple_cycles (dependency_graph all_files root_dir fs selected)
  /\ metrics r = _calculate_metrics (nodes r)
  /\ graph r = _generate_graph_data (nodes r)
  /\ completeness_score r
     = _calculate_completeness_score (List.length selected)
         (List.length (missing_dependencies r)).
Proof.
  unfold analyze_dependencies. intros H.
  apply bind_Ret_inv in H. destruct H as [st1 [H1 H]].
  apply bind_Ret_inv in H. destruct H as [missing [H2 H]].
  injection H as <-. simpl.
  unfold _resolve_dependencies in H1.
  apply bind_Ret_inv in H1. destruct H1 as [st [H1 H1']].
  injection H1' as <-. simpl in *.
  apply link_all_pure in H1.
  assert (Hn : map (fun kv => (fst kv, classify (snd kv))) (fst st)
               = map (fun kv => (fst kv, classify (after_edges es (fst kv) (snd kv))))
                     nodes0).
  { rewrite H1, fold_connect_nodes, map_map. reflexivity. }
  rewrite Hn in *.
  repeat split.
  - now apply find_missing_pure in H2.
  - unfold _detect_circular_dependencies, dependency_graph.
    rewrite H1, fold_connect_graph. reflexivity.
Qed.

End Result.

End PassFacts.

(** ** What the result says about one node *)

Lemma get_map_values {V W} (G : string -> V -> W) (d : dict V) (k : string) :
  get k (map (fun kv => (fst kv, G (fst kv) (snd kv))) d)
  = option_map (G k) (get k d).
Proof.
  induction d as [|[k' v'] d IH]; simpl; [reflexivity|].
  destruct (String.eqb k' k) eqn:E; [|exact IH].
  apply String.eqb_eq in E. now subst.
Qed.

Lemma keys_map_values {V W} (G : string -> V -> W) (d : dict V) :
  keys (map (fun kv => (fst kv, G (fst kv) (snd kv))) d) = keys d.
Proof. unfold keys. rewrite map_map. now apply map_ext. Qed.

Lemma filter_map_pair_fst (A k : string) (ts : list string) :
  filter (fun e : string * string => String.eqb A (fst e)) (map (pair k) ts)
  = if String.eqb A k then map (pair k) ts else [].
Proof.
  induction ts as [|t ts IH]; simpl.
  - now destruct (String.eqb A k).
  - rewrite IH. now destruct (String.eqb A k).
Qed.

Section ResultFacts.

Context {os : OS}.

Section Edges.

Variable all_files : dict FileInfo.
Variable root_dir : list string.
Variable p2i : dict string.

Lemma edges_of_In (items : dict DependencyNode) u v :
  In (u, v) (edges_of all_files root_dir p2i items)
  <-> exists n, In (u, n) items /\ In v (targets all_files root_dir p2i (u, n)).
Proof.
  unfold edges_of. rewrite in_flat_map. split.
  - intros [[k n] [Hin H]]. simpl in H. apply in_map_iff in H.
    destruct H as [t [Heq Ht]]. injection Heq as <- <-. eauto.
  - intros [n [Hin Ht]]. exists (u, n). split; auto.
    simpl. apply in_map_iff. eauto.
Qed.

Lemma edges_of_absent (items : dict DependencyNode) A :
  ~ In A (keys items) ->
  filter (fun e => String.eqb A (fst e)) (edges_of all_files root_dir p2i items)
  = [].
Proof.
  unfold edges_of. induction items as [|[k n] items IH]; simpl; intros H.
  - reflexivity.
  - rewrite filter_app, filter_map_pair_fst.
    destruct (String.eqb A k) eqn:E.
    + apply String.eqb_eq in E. subst. exfalso. apply H. now left.
    + simpl. apply IH. intros Hin. apply H. now right.
Qed.

Lemma edges_of_source (items : dict DependencyNode) A n :
  NoDup (keys items) -> In (A, n) items ->
  map snd (filter (fun e => String.eqb A (fst e))
                  (edges_of all_files root_dir p2i items))
  = targets all_files root_dir p2i (A, n).
Proof.
  induction items as [|[k m] items IH]; simpl; intros Hnd; [intros []|].
  inversion Hnd as [|? ? Hnotin Hnd']; subst.
  unfold edges_of. simpl. fold (edges_of all_files root_dir p2i items).
  rewrite filter_app, filter_map_pair_fst, map_app.
  intros [H|H].
  - injection H as -> ->. rewrite String.eqb_refl.
    rewrite edges_of_absent by assumption.
    rewrite app_nil_r, map_map. simpl. apply map_id.
  - assert (E : String.eqb A k = false).
    { apply String.eqb_neq. intros ->. apply Hnotin.
      change k with (fst (k, n)). now apply in_map. }
    rewrite E. simpl. now apply IH.
Qed.

Lemma targets_ext k n n' :
  file_path n = file_path n' -> file_type n = file_type n' ->
  imports n = imports n' ->
  targets all_files root_dir p2i (k, n) = targets all_files root_dir p2i (k, n').
Proof.
  unfold targets, import_edge. simpl. intros -> -> ->. reflexivity.
Qed.

Lemma import_edge_In fid node imp v :
  In v (import_edge all_files root_dir p2i fid node imp) ->
  v <> fid
  /\ import_edge all_files root_dir p2i fid node imp = [v]
  /\ exists p,
       _resolve_import_path all_files root_dir imp
         (parent (Path (file_path node))) (file_type node) = Ret (Some p)
       /\ get p p2i = Some v.
Proof.
  unfold import_edge.
  destruct (_resolve_import_path _ _ _ _ _) as [[p|]|e]; simpl; try tauto.
  destruct (truthy p); simpl; try tauto.
  destruct (get p p2i) as [dep|] eqn:G; simpl; try tauto.
  destruct (String.eqb dep fid) eqn:E; simpl; try tauto.
  intros [<-|[]]. apply String.eqb_neq in E.
  split; [exact E|]. split; [reflexivity|]. exists p. auto.
Qed.

End Edges.

Lemma NoDup_list_set (xs : list string) : NoDup (list_set xs).
Proof.
  induction xs as [|x xs IH]; simpl; constructor.
  - rewrite filter_In. intros [_ H]. now rewrite String.eqb_refl in H.
  - now apply NoDup_filter.
Qed.

Lemma In_list_set (xs : list string) (y : string) :
  In y (list_set xs) <-> In y xs.
Proof.
  induction xs as [|x xs IH]; simpl; [tauto|].
  rewrite filter_In, IH. split.
  - intros [->|[H _]]; auto.
  - intros [->|H]; auto. destruct (String.eqb x y) eqn:E.
    + apply String.eqb_eq in E. auto.
    + auto.
Qed.

(** Extraction never lists a specifier twice. *)
Lemma extract_imports_NoDup fs p ext : NoDup (_extract_imports fs p ext).
Proof.
  unfold _extract_imports. destruct (fs (str p)); [|constructor].
  destruct (String.eqb ext ".py"); [apply NoDup_list_set|].
  destruct (is_js_extension ext); [apply NoDup_list_set | constructor].
Qed.

Lemma extract_imports_merges fs p ext :
  _extract_imports fs p ext = list_set (import_statements fs p ext).
Proof.
  unfold _extract_imports, import_statements.
  destruct (fs (str p)); [|reflexivity].
  destruct (String.eqb ext ".py"); [reflexivity|].
  now destruct (is_js_extension ext).
Qed.

Section ResultNodes.

Variable all_files : dict FileInfo.
Variable root_dir : list string.
Variable fs : FileSystem.
Variable selected : list string.
Variable r : AnalysisResult.
Hypothesis Hrun : analyze_dependencies all_files root_dir fs selected = Ret r.

Let nodes0 := initial_nodes all_files fs selected.
Let p2i := file_path_to_id all_files selected.
Let es := edges_of all_files root_dir p2i nodes0.

Lemma result_keys :
  NoDup (keys (nodes r))
  /\ forall k, In k (keys (nodes r)) <-> In k selected /\ mem k all_files = true.
Proof.
  destruct (analyze_dependencies_closed_form _ _ _ _ _ Hrun) as [Hn _].
  destruct (initial_nodes_spec all_files fs selected) as [H1 [H2 _]].
  rewrite Hn.
  rewrite (keys_map_values (fun k n => classify (after_edges es k n))). auto.
Qed.

Lemma result_node A nA :
  get A (nodes r) = Some nA ->
  exists info,
    get A all_files = Some info /\ In A selected
    /\ file_path nA = relative_path info
    /\ file_type nA = extension info
    /\ imports nA = _extract_imports fs (Path (path info)) (extension info)
    /\ dependencies nA = targets all_files root_dir p2i (A, nA)
    /\ dependencies nA = map snd (filter (fun e => String.eqb A (fst e)) es)
    /\ dependents nA = map fst (filter (fun e => String.eqb A (snd e)) es)
    /\ is_entry_point nA = Nat.eqb (List.length (dependents nA)) 0
    /\ is_leaf nA = Nat.eqb (List.length (dependencies nA)) 0.
Proof.
  destruct (analyze_dependencies_closed_form _ _ _ _ _ Hrun) as [Hn _].
  destruct (initial_nodes_spec all_files fs selected) as [H1 [H2 H3]].
  rewrite Hn.
  rewrite (get_map_values (fun k n => classify (after_edges es k n))).
  intros H.
  destruct (get A (initial_nodes all_files fs selected)) as [n0|] eqn:E;
    [|discriminate].
  injection H as <-. apply get_In in E.
  destruct (H3 _ _ E) as [info [Hinfo ->]].
  destruct (after_edges_fields es A (fresh_node fs A info))
    as [D1 [D2 [D3 [D4 D5]]]].
  exists info. split; [exact Hinfo|]. split.
  { apply (H2 A). change A with (fst (A, fresh_node fs A info)).
    now apply in_map. }
  simpl. rewrite D1, D2, D3, D4, D5. simpl.
  repeat split; auto.
  unfold es. fold nodes0 in E, H1.
  rewrite (edges_of_source all_files root_dir p2i nodes0 A _ H1 E).
  apply targets_ext; simpl; auto.
Qed.

Lemma result_node_edges A nA :
  get A (nodes r) = Some nA ->
  (forall v, In v (dependencies nA) <-> In (A, v) es)
  /\ (forall u, In u (dependents nA) <-> In (u, A) es).
Proof.
  intros H. destruct (result_node A nA H)
    as [info [_ [_ [_ [_ [_ [_ [D1 [D2 _]]]]]]]]].
  rewrite D1, D2. split; intros x; rewrite in_map_iff.
  - split.
    + intros [[a b] [<- Hin]]. apply filter_In in Hin. destruct Hin as [Hin E].
      simpl in *. apply String.eqb_eq in E. now subst.
    + intros Hin. exists (A, x). split; auto. apply filter_In. split; auto.
      apply String.eqb_refl.
  - split.
    + intros [[a b] [<- Hin]]. apply filter_In in Hin. destruct Hin as [Hin E].
      simpl in *. apply String.eqb_eq in E. now subst.
    + intros Hin. exists (x, A). split; auto. apply filter_In. split; auto.
      apply String.eqb_refl.
Qed.

Lemma result_node_In A nA : In (A, nA) (nodes r) -> get A (nodes r) = Some nA.
Proof. apply In_get. apply result_keys. Qed.

(** Every inserted edge joins two analysed files. *)
Lemma result_edge u v :
  In (u, v) es -> In u (keys (nodes r)) /\ In v (keys (nodes r)) /\ u <> v.
Proof.
  destruct (initial_nodes_spec all_files fs selected) as [H1 [H2 H3]].
  destruct result_keys as [_ Hk].
  unfold es. rewrite edges_of_In. intros [n [Hin Ht]].
  unfold targets in Ht. apply in_flat_map in Ht. destruct Ht as [imp [_ Hv]].
  apply import_edge_In in Hv. destruct Hv as [Hne [_ [p [_ Hget]]]].
  simpl in Hne. split; [|split; [|congruence]].
  - apply Hk, H2. change u with (fst (u, n)). now apply in_map.
  - apply file_path_to_id_sound in Hget. destruct Hget as [Hsel [info [Hg _]]].
    apply Hk. split; auto. unfold mem. now rewrite Hg.
Qed.

End ResultNodes.

End ResultFacts.

(** ** When the analysis returns *)

Lemma for_each_returns {A S} (xs : list A) (body : S -> A -> result S) (s : S) :
  (forall s0 x, In x xs -> exists s1, body s0 x = Ret s1) ->
  exists s', for_each xs body s = Ret s'.
Proof.
  revert s. induction xs as [|x xs IH]; simpl; intros s H; [eauto|].
  destruct (H s x (or_introl eq_refl)) as [s1 ->]. simpl.
  apply IH. intros s0 y Hy. apply H. now right.
Qed.

Lemma try_direct_returns all_files root_dir resolved exts :
  name resolved <> "" ->
  exists res, try_direct all_files root_dir resolved exts = Ret res.
Proof.
  intros Hname. apply String.eqb_neq in Hname.
  induction exts as [|e exts [res IH]]; simpl; [eauto|].
  unfold with_suffix. rewrite Hname. simpl.
  destruct (relative_to _ _) as [rel|]; [|eauto].
  destruct (in_catalog all_files (str rel)); eauto.
Qed.

Section ReturnFacts.

Context {os : OS}.

(** The resolver raises only when [resolve()] returns a path with an
    empty name, the root of the file system. *)
Lemma resolve_import_path_returns all_files root_dir imp dir ftype :
  (forall resolved,
      os_resolve (joinpath (joinpath (root_path root_dir) dir) (Path imp))
      = Some resolved -> name resolved <> "") ->
  exists res, _resolve_import_path all_files root_dir imp dir ftype = Ret res.
Proof.
  intros Hname. unfold _resolve_import_path.
  destruct (negb (startswith "." imp)); [eauto|].
  destruct (os_resolve _) as [resolved|]; [|eauto].
  destruct (try_direct_returns all_files root_dir resolved
              (extensions_for ftype) (Hname resolved eq_refl))
    as [[p|] Hd]; rewrite Hd; simpl; eauto.
Qed.

(** The analysis returns a result whenever the resolver returns for every
    import of every analysed file. *)
Lemma analyze_dependencies_returns
  (all_files : dict FileInfo) (root_dir : list string) (fs : FileSystem)
  (selected : list string) :
  (forall k n imp,
      In (k, n) (initial_nodes all_files fs selected) -> In imp (imports n) ->
      exists res,
        _resolve_import_path all_files root_dir imp
          (parent (Path (file_path n))) (file_type n) = Ret res) ->
  exists r, analyze_dependencies all_files root_dir fs selected = Ret r.
Proof.
  intros Hsafe. unfold analyze_dependencies, _resolve_dependencies.
  fold (initial_nodes all_files fs selected).
  destruct (for_each_returns (initial_nodes all_files fs selected)
              (link_node all_files root_dir (file_path_to_id all_files selected))
              (initial_nodes all_files fs selected,
               snd (fold_left (make_node all_files fs) selected ([], NX.empty))))
    as [st Hst].
  { intros s0 [k n] Hin. unfold link_node. simpl.
    apply for_each_returns. intros s1 imp Himp.
    destruct (Hsafe k n imp Hin Himp) as [res Hres].
    unfold link_import. rewrite Hres. simpl.
    destruct res as [p|]; [|eauto].
    destruct (if truthy p then _ else None) as [dep|]; [|eauto].
    destruct (String.eqb dep k); eauto. }
  rewrite Hst. simpl.
  pose proof (link_all_pure _ _ _ _ _ _ Hst) as Hpure.
  assert (Hnodes : fst st
                   = map (fun kv => (fst kv,
                            after_edges
                              (edges_of all_files root_dir
                                 (file_path_to_id all_files selected)
                                 (initial_nodes all_files fs selected))
                              (fst kv) (snd kv)))
                         (initial_nodes all_files fs selected)).
  { rewrite Hpure, fold_connect_nodes. reflexivity. }
  rewrite Hnodes, map_map. simpl.
  destruct (for_each_returns
              (map (fun x => (fst x,
                      classify (after_edges
                        (edges_of all_files root_dir
                           (file_path_to_id all_files selected)
                           (initial_nodes all_files fs selected))
                        (fst x) (snd x))))
                   (initial_nodes all_files fs selected))
              (fun missing item =>
                 for_each (imports (snd item))
                   (check_import all_files root_dir
                      (selected_paths all_files selected) (fst item) (snd item))
                   missing) []) as [missing Hm].
  { intros s0 [k n'] Hin. apply in_map_iff in Hin.
    destruct Hin as [[k0 n] [Heq Hin]]. simpl in Heq. injection Heq as <- <-.
    destruct (after_edges_fields
                (edges_of all_files root_dir
                   (file_path_to_id all_files selected)
                   (initial_nodes all_files fs selected)) k0 n)
      as [_ [_ [F1 [F2 F3]]]].
    simpl. rewrite F3. apply for_each_returns. intros s1 imp Himp.
    destruct (Hsafe k0 n imp Hin Himp) as [res Hres].
    unfold check_import. simpl. rewrite F1, F2, Hres. simpl.
    destruct res as [p|]; [|eauto].
    destruct (truthy p && negb (elem p (selected_paths all_files selected)));
      eauto. }
  unfold _find_missing_dependencies. rewrite Hm. simpl. eauto.
Qed.

End ReturnFacts.

(** ** The path resolver *)

Section ResolverFacts.

Context {os : OS}.

Section Resolver.

Variable all_files : dict FileInfo.
Variable root_dir : list string.


Lemma try_direct_nonempty resolved exts :
  name resolved <> "" ->
  (forall ext p, first_hit exts (direct_hit all_files root_dir resolved) ext p ->
                 try_direct all_files root_dir resolved exts = Ret (Some p))
  /\ ((forall ext, In ext exts -> direct_hit all_files root_dir resolved ext = None) ->
      try_direct all_files root_dir resolved exts = Ret None).
Proof.
  intros Hname. apply String.eqb_neq in Hname.
  induction exts as [|e exts [IH1 IH2]]; split.
  - intros ext p [l1 [l2 [E _]]]. destruct l1; discriminate.
  - reflexivity.
  - intros ext p [l1 [l2 [E [Hhit Hl1]]]].
    simpl. unfold with_suffix. rewrite Hname. simpl.
    destruct l1 as [|y l1]; simpl in E; injection E as -> E.
    + unfold direct_hit in Hhit.
      destruct (relative_to _ (root_path root_dir)) as [rel|]; [|discriminate].
      destruct (in_catalog all_files (str rel)); [|discriminate].
      congruence.
    + assert (Hy : direct_hit all_files root_dir resolved y = None) by (apply Hl1; now left).
      unfold direct_hit in Hy.
      destruct (relative_to _ (root_path root_dir)) as [rel|].
      * destruct (in_catalog all_files (str rel)); [discriminate|].
        apply (IH1 ext p). exists l1, l2. repeat split; auto.
        intros z Hz. apply Hl1. now right.
      * apply (IH1 ext p). exists l1, l2. repeat split; auto.
        intros z Hz. apply Hl1. now right.
  - intros Hnone. simpl. unfold with_suffix. rewrite Hname. simpl.
    assert (He : direct_hit all_files root_dir resolved e = None) by (apply Hnone; now left).
    unfold direct_hit in He.
    destruct (relative_to _ (root_path root_dir)) as [rel|].
    + destruct (in_catalog all_files (str rel)); [discriminate|].
      apply IH2. intros z Hz. apply Hnone. now right.
    + apply IH2. intros z Hz. apply Hnone. now right.
Qed.

Lemma try_index_spec resolved exts :
  (forall ext p, first_hit exts (index_hit all_files root_dir resolved) ext p ->
                 try_index all_files root_dir resolved exts = Some p)
  /\ ((forall ext, In ext exts -> index_hit all_files root_dir resolved ext = None) ->
      try_index all_files root_dir resolved exts = None).
Proof.
  induction exts as [|e exts [IH1 IH2]]; split.
  - intros ext p [l1 [l2 [E _]]]. destruct l1; discriminate.
  - reflexivity.
  - intros ext p [l1 [l2 [E [Hhit Hl1]]]]. simpl.
    destruct l1 as [|y l1]; simpl in E; injection E as -> E.
    + unfold index_hit in Hhit.
      destruct (relative_to _ (root_path root_dir)) as [rel|]; [|discriminate].
      destruct (in_catalog all_files (str rel)); [|discriminate].
      congruence.
    + assert (Hy : index_hit all_files root_dir resolved y = None) by (apply Hl1; now left).
      unfold index_hit in Hy.
      destruct (relative_to _ (root_path root_dir)) as [rel|].
      * destruct (in_catalog all_files (str rel)); [discriminate|].
        apply (IH1 ext p). exists l1, l2. repeat split; auto.
        intros z Hz. apply Hl1. now right.
      * apply (IH1 ext p). exists l1, l2. repeat split; auto.
        intros z Hz. apply Hl1. now right.
  - intros Hnone. simpl.
    assert (He : index_hit all_files root_dir resolved e = None) by (apply Hnone; now left).
    unfold index_hit in He.
    destruct (relative_to _ (root_path root_dir)) as [rel|].
    + destruct (in_catalog all_files (str rel)); [discriminate|].
      apply IH2. intros z Hz. apply Hnone. now right.
    + apply IH2. intros z Hz. apply Hnone. now right.
Qed.

(** Either some element is the first hit, or there is none. *)
Lemma first_hit_dec {A B} (l : list A) (f : A -> option B) :
  (exists x b, first_hit l f x b) \/ (forall y, In y l -> f y = None).
Proof.
  induction l as [|a l [[x [b [l1 [l2 [E [Hx Hl1]]]]]]|Hnone]].
  - right. intros y [].
  - destruct (f a) as [b'|] eqn:Hfa.
    + left. exists a, b', [], l. repeat split; auto. intros y [].
    + left. exists x, b, (a :: l1), l2. subst l. repeat split; auto.
      intros y [<-|Hy]; auto.
  - destruct (f a) as [b'|] eqn:Hfa.
    + left. exists a, b', [], l. repeat split; auto. intros y [].
    + right. intros y [<-|Hy]; auto.
Qed.

Lemma direct_hit_in_catalog resolved ext p :
  direct_hit all_files root_dir resolved ext = Some p -> in_catalog all_files p = true.
Proof.
  unfold direct_hit. destruct (relative_to _ (root_path root_dir)) as [rel|]; [|discriminate].
  destruct (in_catalog all_files (str rel)) eqn:E; [|discriminate].
  congruence.
Qed.

Lemma index_hit_in_catalog resolved ext p :
  index_hit all_files root_dir resolved ext = Some p -> in_catalog all_files p = true.
Proof.
  unfold index_hit. destruct (relative_to _ (root_path root_dir)) as [rel|]; [|discriminate].
  destruct (in_catalog all_files (str rel)) eqn:E; [|discriminate].
  congruence.
Qed.

Lemma join_nonempty (ps : list string) :
  ps <> [] -> last ps "" <> "" -> join "/" ps <> "".
Proof.
  destruct ps as [|x [|y r]]; intros Hne Hlast.
  - congruence.
  - exact Hlast.
  - change (join "/" (x :: y :: r))
      with (x ++ "/" ++ join "/" (y :: r))%string.
    intros H. destruct x; discriminate.
Qed.

Lemma strip_prefix_last (pre l rest : list string) :
  strip_prefix pre l = Some rest -> rest <> [] -> last rest "" = last l "".
Proof.
  revert l. induction pre as [|x pre IH]; intros l H Hne; simpl in H.
  - congruence.
  - destruct l as [|y l]; [discriminate|].
    destruct (String.eqb x y); [|discriminate].
    rewrite (IH l H Hne).
    destruct l; [|reflexivity].
    destruct pre; simpl in H; [congruence | discriminate].
Qed.

Lemma str_relative_nonempty (p : PurePath) (rel : PurePath) :
  relative_to p (root_path root_dir) = Some rel ->
  last (parts p) "" <> "" -> str rel <> "".
Proof.
  unfold relative_to. destruct (Bool.eqb _ _); [|discriminate].
  destruct (strip_prefix _ _) as [rest|] eqn:E; [|discriminate].
  intros H Hlast. injection H as <-. unfold str.
  cbn [anchor parts].
  destruct rest as [|r0 rest'] eqn:Er; [discriminate|].
  apply join_nonempty; [discriminate|].
  rewrite (strip_prefix_last _ _ _ E) by discriminate. exact Hlast.
Qed.

Lemma replace_suffix_nonempty (nm ext : string) :
  ext <> "" -> replace_suffix nm ext <> "".
Proof.
  intros Hext. unfold replace_suffix.
  destruct (String.eqb (suffix_of nm) "").
  - destruct nm; simpl; [exact Hext | discriminate].
  - destruct (String.substring 0 _ nm); simpl; [exact Hext | discriminate].
Qed.

Lemma extensions_for_cases (ftype : string) :
  extensions_for ftype = [".py"]
  \/ extensions_for ftype = [".js"; ".jsx"; ".ts"; ".tsx"].
Proof. unfold extensions_for. destruct (String.eqb ftype ".py"); auto. Qed.

Lemma try_direct_sound resolved exts p :
  (forall e, In e exts -> e <> "") ->
  try_direct all_files root_dir resolved exts = Ret (Some p) ->
  in_catalog all_files p = true /\ p <> "".
Proof.
  induction exts as [|e exts IH]; simpl; intros Hexts H; [discriminate|].
  unfold with_suffix in H.
  destruct (String.eqb (name resolved) ""); simpl in H; [discriminate|].
  destruct (relative_to _ (root_path root_dir)) as [rel|] eqn:Hrel.
  - destruct (in_catalog all_files (str rel)) eqn:Hcat.
    + injection H as <-. split; [exact Hcat|].
      apply (str_relative_nonempty _ _ Hrel). simpl.
      rewrite last_last. apply replace_suffix_nonempty. apply Hexts. now left.
    + apply IH; [|exact H]. intros e' He'. apply Hexts. now right.
  - apply IH; [|exact H]. intros e' He'. apply Hexts. now right.
Qed.

Lemma try_index_sound resolved exts p :
  (forall e, In e exts -> In e [".py"; ".js"; ".jsx"; ".ts"; ".tsx"]) ->
  try_index all_files root_dir resolved exts = Some p ->
  in_catalog all_files p = true /\ p <> "".
Proof.
  induction exts as [|e exts IH]; simpl; intros Hexts H; [discriminate|].
  destruct (relative_to _ (root_path root_dir)) as [rel|] eqn:Hrel.
  - destruct (in_catalog all_files (str rel)) eqn:Hcat.
    + injection H as <-. split; [exact Hcat|].
      apply (str_relative_nonempty _ _ Hrel).
      assert (He : In e [".py"; ".js"; ".jsx"; ".ts"; ".tsx"])
        by (apply Hexts; now left).
      simpl in He.
      destruct He as [<-|[<-|[<-|[<-|[<-|[]]]]]];
        unfold joinpath; simpl; rewrite last_last; discriminate.
    + apply IH; [|exact H]. intros e' He'. apply Hexts. now right.
  - apply IH; [|exact H]. intros e' He'. apply Hexts. now right.
Qed.

(** A resolved import is a catalog path, and a non-empty string. *)
Lemma resolve_import_path_sound imp dir ftype p :
  _resolve_import_path all_files root_dir imp dir ftype = Ret (Some p) ->
  in_catalog all_files p = true /\ p <> "".
Proof.
  unfold _resolve_import_path.
  destruct (negb (startswith "." imp)); [discriminate|].
  destruct (os_resolve _) as [resolved|]; [|discriminate].
  intros H. apply bind_Ret_inv in H. destruct H as [d [Hd H]].
  assert (Hexts : forall e, In e (extensions_for ftype) ->
                            In e [".py"; ".js"; ".jsx"; ".ts"; ".tsx"]).
  { destruct (extensions_for_cases ftype) as [-> | ->]; simpl; intuition. }
  destruct d as [q|].
  - injection H as <-. refine (try_direct_sound _ _ _ _ Hd).
    intros e He. specialize (Hexts e He). simpl in Hexts.
    destruct Hexts as [<-|[<-|[<-|[<-|[<-|[]]]]]]; discriminate.
  - injection H as H. apply (try_index_sound _ _ _ Hexts H).
Qed.

End Resolver.

(** C4 (as amended): a specifier that does not start with a dot is
    unresolved at once.  Otherwise the resolver joins project root,
    importing directory and specifier and has the file system resolve the
    result, which normalises it and follows symbolic links; it is
    unresolved when that raises.  Unless the resolved path is the
    file-system root, the resolver returns, for the first extension of the
    language family for which it is a catalog path, the project-relative
    path of the candidate whose final suffix has been replaced by that
    extension (appended when the last component has no suffix); only when
    no extension gives such a path does it return the first [index<ext>]
    inside the candidate that is a catalog path, and it is unresolved when
    there is none.  Whatever it returns is a catalog path.  Without
    symbolic links the resolved path is the joined path with [.] and [..]
    normalised. *)
Theorem resolve_import_path_by_extension
  (all_files : dict FileInfo) (root_dir : list string)
  (imp : string) (dir : PurePath) (ftype : string) :
  (startswith "." imp = false ->
   _resolve_import_path all_files root_dir imp dir ftype = Ret None)
  /\ (startswith "." imp = true ->
      os_resolve (joinpath (joinpath (root_path root_dir) dir) (Path imp))
      = None ->
      _resolve_import_path all_files root_dir imp dir ftype = Ret None)
  /\ (forall resolved,
      startswith "." imp = true ->
      os_resolve (joinpath (joinpath (root_path root_dir) dir) (Path imp))
      = Some resolved ->
      name resolved <> "" ->
      exists r,
        _resolve_import_path all_files root_dir imp dir ftype = Ret r
        /\ (forall ext p,
              first_hit (extensions_for ftype)
                (direct_hit all_files root_dir resolved) ext p ->
              r = Some p)
        /\ ((forall ext, In ext (extensions_for ftype) ->
               direct_hit all_files root_dir resolved ext = None) ->
            (forall ext p,
                first_hit (extensions_for ftype)
                  (index_hit all_files root_dir resolved) ext p ->
                r = Some p)
            /\ ((forall ext, In ext (extensions_for ftype) ->
                   index_hit all_files root_dir resolved ext = None) ->
                r = None))
        /\ (forall p, r = Some p -> in_catalog all_files p = true))
  /\ (os_resolve (joinpath (joinpath (root_path root_dir) dir) (Path imp))
      = Some (lexical_resolve
                (joinpath (joinpath (root_path root_dir) dir) (Path imp))) ->
      startswith "." imp = true ->
      name (import_target root_dir dir imp) <> "" ->
      exists r,
        _resolve_import_path all_files root_dir imp dir ftype = Ret r
        /\ (forall ext p,
              first_hit (extensions_for ftype)
                (direct_hit all_files root_dir (import_target root_dir dir imp))
                ext p ->
              r = Some p)
        /\ ((forall ext, In ext (extensions_for ftype) ->
               direct_hit all_files root_dir
                          (import_target root_dir dir imp) ext = None) ->
            first_some (index_hit all_files root_dir
                                  (import_target root_dir dir imp))
                       (extensions_for ftype) = r)).
Proof.
  assert (General : forall resolved,
      startswith "." imp = true ->
      os_resolve (joinpath (joinpath (root_path root_dir) dir) (Path imp))
      = Some resolved ->
      name resolved <> "" ->
      exists r,
        _resolve_import_path all_files root_dir imp dir ftype = Ret r
        /\ (forall ext p,
              first_hit (extensions_for ftype)
                (direct_hit all_files root_dir resolved) ext p ->
              r = Some p)
        /\ ((forall ext, In ext (extensions_for ftype) ->
               direct_hit all_files root_dir resolved ext = None) ->
            (forall ext p,
                first_hit (extensions_for ftype)
                  (index_hit all_files root_dir resolved) ext p ->
                r = Some p)
            /\ ((forall ext, In ext (extensions_for ftype) ->
                   index_hit all_files root_dir resolved ext = None) ->
                r = None))
        /\ (forall p, r = Some p -> in_catalog all_files p = true)).
  { intros resolved Hrel Hres Hname.
    destruct (try_direct_nonempty all_files root_dir resolved
                (extensions_for ftype) Hname) as [Hhit Hmiss].
    destruct (try_index_spec all_files root_dir resolved (extensions_for ftype))
      as [Ihit Imiss].
    assert (Hrun : _resolve_import_path all_files root_dir imp dir ftype
                   = (direct <- try_direct all_files root_dir resolved
                                  (extensions_for ftype) ;;
                      match direct with
                      | Some p => Ret (Some p)
                      | None => Ret (try_index all_files root_dir resolved
                                       (extensions_for ftype))
                      end)).
    { unfold _resolve_import_path. now rewrite Hrel, Hres. }
    destruct (first_hit_dec (extensions_for ftype)
                (direct_hit all_files root_dir resolved))
      as [[x [b Hfirst]]|Hnone].
    + exists (Some b). rewrite Hrun, (Hhit x b Hfirst). simpl.
      split; [reflexivity|]. split; [|split].
      * intros ext p Hp. f_equal. apply (first_hit_unique _ _ _ _ _ _ Hfirst Hp).
      * intros Hno. destruct Hfirst as [l1 [l2 [E [Hx _]]]].
        rewrite Hno in Hx; [discriminate|].
        rewrite E. apply in_or_app. right. now left.
      * intros p Hp. injection Hp as <-.
        destruct Hfirst as [_ [_ [_ [Hx _]]]].
        apply (direct_hit_in_catalog _ _ _ _ _ Hx).
    + exists (try_index all_files root_dir resolved (extensions_for ftype)).
      rewrite Hrun, (Hmiss Hnone). simpl.
      split; [reflexivity|]. split; [|split].
      * intros ext p [l1 [l2 [E [Hx _]]]].
        rewrite Hnone in Hx; [discriminate|].
        rewrite E. apply in_or_app. right. now left.
      * intros _. split.
        -- intros ext p Hp. apply (Ihit ext p Hp).
        -- exact Imiss.
      * intros p Hp.
        assert (Hexts : forall e, In e (extensions_for ftype) ->
                          In e [".py"; ".js"; ".jsx"; ".ts"; ".tsx"]).
        { destruct (extensions_for_cases ftype) as [-> | ->]; simpl; intuition. }
        apply (try_index_sound _ _ _ _ _ Hexts Hp). }
  split; [|split; [|split]].
  - intros Hrel. unfold _resolve_import_path. now rewrite Hrel.
  - intros Hrel Hres. unfold _resolve_import_path. now rewrite Hrel, Hres.
  - exact General.
  - intros Hlex Hrel Hname. fold (import_target root_dir dir imp) in Hlex.
    destruct (General _ Hrel Hlex Hname) as [r [Hr [Hd [Hi _]]]].
    exists r. split; [exact Hr|]. split; [exact Hd|].
    intros Hno. destruct (Hi Hno) as [Ihit Inone].
    clear - Ihit Inone.
    assert (Hgen : forall l,
               (forall ext p,
                   first_hit l (index_hit all_files root_dir
                                          (import_target root_dir dir imp))
                             ext p -> r = Some p) ->
               ((forall ext, In ext l ->
                    index_hit all_files root_dir
                              (import_target root_dir dir imp) ext = None) ->
                r = None) ->
               first_some (index_hit all_files root_dir
                                     (import_target root_dir dir imp)) l = r).
    { induction l as [|e l IH]; intros H1 H2; simpl.
      - symmetry. apply H2. intros ext [].
      - destruct (index_hit all_files root_dir
                            (import_target root_dir dir imp) e) as [p|] eqn:E.
        + symmetry. apply (H1 e p). exists [], l. repeat split; auto.
          intros y [].
        + apply IH.
          * intros ext p [l1 [l2 [El [Hx Hl1]]]]. apply (H1 ext p).
            exists (e :: l1), l2. split; [now rewrite El|].
            split; [exact Hx|]. intros y [<-|Hy]; auto.
          * intros Hn. apply H2. intros ext [<-|Hin]; auto. }
    apply Hgen; assumption.
Qed.

End ResolverFacts.

Lemma resolve_import_path_by_extension_witness :
  exists r,
    _resolve_import_path Demo.catalog Demo.root "./b" (Path "pkg") ".js" = Ret r
    /\ r = Some "pkg/b.js".
Proof.
  destruct (resolve_import_path_by_extension
              Demo.catalog Demo.root "./b" (Path "pkg") ".js")
    as [_ [_ [_ H]]].
  destruct H as [r [Hr [Hd _]]].
  - reflexivity.
  - reflexivity.
  - vm_compute. discriminate.
  - exists r. split; [exact Hr|].
    apply (Hd ".js"). exists [], [".jsx"; ".ts"; ".tsx"].
    repeat split. intros y [].
Defined.

(** C4 as stated fails: for the import [./app.config] of [main.js] the
    code answers [app.js], the suffix [.config] having been replaced, where
    appending each extension finds nothing. *)
Lemma resolve_import_path_appends_counterexample :
  let cat := [Demo.file "main.js"; Demo.file "app.js"] in
  let dir := parent (Path "main.js") in
  _resolve_import_path cat Demo.root "./app.config" dir ".js"
    = Ret (Some "app.js")
  /\ resolve_import_path_as_specified cat Demo.root "./app.config" dir ".js"
     = None.
Proof. split; reflexivity. Qed.

(** The resolver raises where the specification promises "unresolved":
    an import that climbs to the file-system root has an empty name. *)
Lemma resolve_import_path_raises_at_root :
  exists e,
    _resolve_import_path [Demo.file "main.js"] Demo.root ".."
                         (parent (Path "main.js")) ".js" = Raise e.
Proof. eexists. reflexivity. Qed.

(** ** The missing-file suggester *)

Section Suggester.

Variable all_files : dict FileInfo.
Variable missing_path : string.

Let missing_name : string := name (Path missing_path).
Let file_name (kv : string * FileInfo) : string :=
  name (Path (relative_path (snd kv))).

Lemma find_first_split {A} (f : A -> bool) (l l1 l2 : list A) (x : A) :
  l = l1 ++ x :: l2 -> f x = true -> (forall y, In y l1 -> f y = false) ->
  find f l = Some x.
Proof.
  intros -> Hx. induction l1 as [|a l1 IH]; simpl; intros Hl1.
  - now rewrite Hx.
  - rewrite (Hl1 a) by now left. apply IH. intros y Hy. apply Hl1. now right.
Qed.

Lemma find_none_all {A} (f : A -> bool) (l : list A) :
  (forall y, In y l -> f y = false) -> find f l = None.
Proof.
  induction l as [|a l IH]; simpl; intros H; [reflexivity|].
  rewrite (H a) by now left. apply IH. intros y Hy. apply H. now right.
Qed.

Lemma flat_map_skip {A B} (f : A -> list B) (l1 l2 : list A) :
  (forall y, In y l1 -> f y = []) -> flat_map f (l1 ++ l2) = flat_map f l2.
Proof.
  induction l1 as [|a l1 IH]; simpl; intros H; [reflexivity|].
  rewrite (H a) by now left. simpl. apply IH. intros y Hy. apply H. now right.
Qed.

(** C3 (as amended): an entry whose relative path equals the missing path
    wins with confidence 1.0, the first such entry in catalog order.
    Without one, a single pass over the catalog decides: the first entry
    whose file name equals the missing file name or is contained in it or
    contains it is the suggestion, with confidence 0.8 when the names are
    equal and 0.5 otherwise; so an exact file name yields 0.8 exactly when
    no entry before it is related by containment.  With no related entry
    there is no suggestion. *)
Theorem suggest_missing_file_first_related :
  (forall l1 kv l2,
      all_files = l1 ++ kv :: l2 ->
      relative_path (snd kv) = missing_path ->
      (forall x, In x l1 -> relative_path (snd x) <> missing_path) ->
      _suggest_missing_file all_files missing_path
      = Some (mkSuggestion (fst kv) 1 "Exact path match found"))
  /\ ((forall x, In x all_files -> relative_path (snd x) <> missing_path) ->
      (forall l1 kv l2,
          all_files = l1 ++ kv :: l2 ->
          (forall x, In x l1 -> names_related missing_name (file_name x) = false) ->
          names_related missing_name (file_name kv) = true ->
          _suggest_missing_file all_files missing_path
          = Some (if String.eqb (file_name kv) missing_name
                  then mkSuggestion (fst kv) (8 # 10)
                         ("Filename matches: " ++ relative_path (snd kv))%string
                  else mkSuggestion (fst kv) (5 # 10)
                         ("Similar filename: " ++ relative_path (snd kv))%string))
      /\ ((forall x, In x all_files ->
                     names_related missing_name (file_name x) = false) ->
          _suggest_missing_file all_files missing_path = None)).
Proof.
  split; [|intros Hnopath; split].
  - intros l1 kv l2 E Hkv Hl1. unfold _suggest_missing_file.
    rewrite (find_first_split _ all_files l1 l2 kv E).
    + now destruct kv.
    + now apply String.eqb_eq.
    + intros y Hy. apply String.eqb_neq. now apply Hl1.
  - intros l1 kv l2 E Hl1 Hkv. unfold _suggest_missing_file.
    rewrite find_none_all
      by (intros y Hy; apply String.eqb_neq; now apply Hnopath).
    rewrite E, flat_map_skip.
    + simpl. fold (file_name kv). fold missing_name.
      unfold names_related in Hkv.
      destruct (String.eqb (file_name kv) missing_name); [reflexivity|].
      simpl in Hkv. rewrite Hkv. reflexivity.
    + intros y Hy. specialize (Hl1 y Hy). unfold names_related in Hl1.
      fold (file_name y). fold missing_name.
      destruct (String.eqb (file_name y) missing_name); [discriminate|].
      simpl in Hl1. now rewrite Hl1.
  - intros Hnone. unfold _suggest_missing_file.
    rewrite find_none_all
      by (intros y Hy; apply String.eqb_neq; now apply Hnopath).
    replace (flat_map _ all_files) with (@nil Suggestion); [reflexivity|].
    symmetry. rewrite <- (app_nil_r all_files). rewrite flat_map_skip; [reflexivity|].
    intros y Hy. specialize (Hnone y Hy). unfold names_related in Hnone.
    fold (file_name y). fold missing_name.
    destruct (String.eqb (file_name y) missing_name); [discriminate|].
    simpl in Hnone. now rewrite Hnone.
Qed.

End Suggester.

Lemma suggest_missing_file_first_related_witness :
  _suggest_missing_file
    [("lib_my_utils_js", mkFileInfo "/proj/lib/my_utils.js" "lib/my_utils.js" ".js");
     ("src_utils_js", mkFileInfo "/proj/src/utils.js" "src/utils.js" ".js")]
    "app/utils.js"
  = Some (mkSuggestion "lib_my_utils_js" (5 # 10) "Similar filename: lib/my_utils.js").
Proof.
  destruct (suggest_missing_file_first_related
              [("lib_my_utils_js",
                mkFileInfo "/proj/lib/my_utils.js" "lib/my_utils.js" ".js");
               ("src_utils_js",
                mkFileInfo "/proj/src/utils.js" "src/utils.js" ".js")]
              "app/utils.js") as [_ H].
  destruct H as [H _].
  - intros x [<-|[<-|[]]]; discriminate.
  - apply (H [] ("lib_my_utils_js",
                 mkFileInfo "/proj/lib/my_utils.js" "lib/my_utils.js" ".js")
              [("src_utils_js",
                mkFileInfo "/proj/src/utils.js" "src/utils.js" ".js")]).
    + reflexivity.
    + intros x [].
    + reflexivity.
Defined.

(** C3 as stated fails: [src/utils.js] has exactly the missing file name,
    yet the suggestion is the earlier [lib/my_utils.js], whose name only
    contains it, with confidence 0.5. *)
Lemma suggest_missing_file_tier_counterexample :
  let cat :=
    [("lib_my_utils_js", mkFileInfo "/proj/lib/my_utils.js" "lib/my_utils.js" ".js");
     ("src_utils_js", mkFileInfo "/proj/src/utils.js" "src/utils.js" ".js")] in
  name (Path "src/utils.js") = name (Path "app/utils.js")
  /\ option_map sg_confidence (_suggest_missing_file cat "app/utils.js")
     = Some (5 # 10)%Q
  /\ option_map sg_confidence (suggest_as_specified cat "app/utils.js")
     = Some (8 # 10)%Q
  /\ ~ (5 # 10 == 8 # 10)%Q.
Proof. repeat split. discriminate. Qed.

(** ** Entry points and leaves *)

Lemma length_zero_nil {A} (l : list A) : Nat.eqb (List.length l) 0 = true <-> l = [].
Proof. destruct l; simpl; split; intros; congruence. Qed.

Section FlagFacts.

Context {os : OS}.

(** C6: in every analysis result a node is flagged as entry point exactly
    when its dependents are empty and as leaf exactly when its
    dependencies are empty; and the flags describe the finished graph: a
    node is an entry point exactly when no node of the result lists it
    among its dependencies. *)
Theorem flags_describe_final_graph
  (all_files : dict FileInfo) (root_dir : list string) (fs : FileSystem)
  (selected : list string) (r : AnalysisResult) :
  analyze_dependencies all_files root_dir fs selected = Ret r ->
  forall k n, In (k, n) (nodes r) ->
    (is_entry_point n = true <-> dependents n = [])
    /\ (is_leaf n = true <-> dependencies n = [])
    /\ (is_entry_point n = true <->
        forall k' m, In (k', m) (nodes r) -> ~ In k (dependencies m)).
Proof.
  intros Hrun k n Hin.
  pose proof (result_node_In _ _ _ _ _ Hrun _ _ Hin) as Hget.
  destruct (result_node _ _ _ _ _ Hrun k n Hget)
    as [info [_ [_ [_ [_ [_ [_ [_ [_ [F1 F2]]]]]]]]]].
  destruct (result_node_edges _ _ _ _ _ Hrun k n Hget) as [_ Hdependents].
  rewrite F1, F2, !length_zero_nil.
  split; [tauto|]. split; [tauto|]. split.
  - intros Hnil k' m Hm Hdep.
    pose proof (result_node_In _ _ _ _ _ Hrun _ _ Hm) as Hgm.
    destruct (result_node_edges _ _ _ _ _ Hrun k' m Hgm) as [Hdeps _].
    apply Hdeps, Hdependents in Hdep. rewrite Hnil in Hdep. destruct Hdep.
  - intros Hnone. destruct (dependents n) as [|u l] eqn:E; [reflexivity|].
    exfalso.
    assert (Hu : In u (u :: l)) by now left.
    apply Hdependents in Hu.
    destruct (result_edge _ _ _ _ _ Hrun _ _ Hu) as [Hk _].
    apply in_map_iff in Hk. destruct Hk as [[k' m] [Hk' Hm]].
    simpl in Hk'. subst k'.
    pose proof (result_node_In _ _ _ _ _ Hrun _ _ Hm) as Hgm.
    destruct (result_node_edges _ _ _ _ _ Hrun u m Hgm) as [Hdeps _].
    apply (Hnone u m Hm). now apply Hdeps.
Qed.

End FlagFacts.

Lemma flags_describe_final_graph_witness :
  exists r,
    analyze_dependencies Demo.catalog Demo.root Demo.disk
                         ["pkg/a.js"; "pkg/b.js"] = Ret r
    /\ forall k n, In (k, n) (nodes r) ->
         (is_entry_point n = true <-> dependents n = [])
         /\ (is_leaf n = true <-> dependencies n = [])
         /\ (is_entry_point n = true <->
             forall k' m, In (k', m) (nodes r) -> ~ In k (dependencies m)).
Proof.
  eexists. split; [vm_compute; reflexivity|].
  apply (flags_describe_final_graph Demo.catalog Demo.root Demo.disk
           ["pkg/a.js"; "pkg/b.js"]).
  vm_compute. reflexivity.
Defined.

(** ** Dependencies and dependents as multisets of edges *)

Lemma occurrences_app x l1 l2 :
  occurrences x (l1 ++ l2) = occurrences x l1 + occurrences x l2.
Proof. unfold occurrences. now rewrite filter_app, length_app. Qed.

Lemma occurrences_In x l : 0 < occurrences x l <-> In x l.
Proof.
  unfold occurrences. induction l as [|a l IH]; simpl.
  - split; [lia | tauto].
  - destruct (String.eqb x a) eqn:E; simpl.
    + apply String.eqb_eq in E. subst. split; [auto | lia].
    + apply String.eqb_neq in E. rewrite IH. split; [auto|].
      intros [H|H]; congruence.
Qed.

Lemma occurrences_NoDup x l : NoDup l -> occurrences x l <= 1.
Proof.
  unfold occurrences. induction 1 as [|a l Hnotin Hnd IH]; simpl; [lia|].
  destruct (String.eqb x a) eqn:E; simpl; [|exact IH].
  apply String.eqb_eq in E. subst.
  assert (H0 : ~ 0 < occurrences a l) by (rewrite occurrences_In; exact Hnotin).
  unfold occurrences in H0. lia.
Qed.

Lemma occurrences_flat_map {A} x (f : A -> list string) (P : A -> bool) l :
  (forall a, In a l -> occurrences x (f a) = if P a then 1 else 0) ->
  occurrences x (flat_map f l) = List.length (filter P l).
Proof.
  induction l as [|a l IH]; simpl; intros H; [reflexivity|].
  rewrite occurrences_app, (H a) by now left.
  rewrite IH by (intros b Hb; apply H; now right).
  destruct (P a); simpl; lia.
Qed.

Lemma occurrences_edges_swap (A B : string) (es : list (string * string)) :
  occurrences A (map fst (filter (fun e => String.eqb B (snd e)) es))
  = occurrences B (map snd (filter (fun e => String.eqb A (fst e)) es)).
Proof.
  unfold occurrences. induction es as [|[u v] es IH]; simpl; [reflexivity|].
  destruct (String.eqb B v) eqn:E1; destruct (String.eqb A u) eqn:E2; simpl;
    rewrite ?E1, ?E2; simpl; now rewrite IH.
Qed.

Section EdgeFacts.

Context {os : OS}.

Section Counting.

Variable all_files : dict FileInfo.
Variable root_dir : list string.
Variable fs : FileSystem.
Variable selected : list string.
Variable r : AnalysisResult.
Hypothesis Huniq : unique_paths all_files.
Hypothesis Hrun : analyze_dependencies all_files root_dir fs selected = Ret r.

Lemma import_edge_occurrences A nA B nB imp :
  get A (nodes r) = Some nA -> get B (nodes r) = Some nB -> A <> B ->
  occurrences B (import_edge all_files root_dir
                   (file_path_to_id all_files selected) A nA imp)
  = if resolves_to all_files root_dir nA (file_path nB) imp then 1 else 0.
Proof.
  intros HA HB Hne.
  destruct (result_node _ _ _ _ _ Hrun B nB HB)
    as [infoB [HgB [HselB [HpB _]]]].
  unfold import_edge, resolves_to.
  destruct (_resolve_import_path _ _ _ _ _) as [[p|]|e] eqn:Hres;
    [| reflexivity | reflexivity].
  destruct (resolve_import_path_sound _ _ _ _ _ _ Hres) as [_ Hp].
  unfold truthy. apply String.eqb_neq in Hp. rewrite Hp. simpl.
  destruct (String.eqb p (file_path nB)) eqn:E.
  - apply String.eqb_eq in E. subst p. rewrite HpB.
    rewrite (file_path_to_id_complete all_files selected B infoB Huniq HselB HgB).
    assert (E' : String.eqb B A = false)
      by (apply String.eqb_neq; congruence).
    rewrite E'. unfold occurrences. simpl. now rewrite String.eqb_refl.
  - destruct (get p (file_path_to_id all_files selected)) as [dep|] eqn:G;
      [|reflexivity].
    destruct (String.eqb dep A); [reflexivity|].
    apply file_path_to_id_sound in G. destruct G as [_ [info [Hg Hrel]]].
    unfold occurrences. simpl.
    destruct (String.eqb B dep) eqn:E'; [|reflexivity].
    apply String.eqb_eq in E'. subst dep.
    rewrite HgB in Hg. injection Hg as <-.
    rewrite <- HpB, String.eqb_neq in *. congruence.
Qed.

End Counting.

(** C5 (as amended): between two analysed files A and B of a catalog whose
    relative paths are distinct, B's id occurs in A's dependencies once
    for each import specifier of A that resolves to B's path, and A's id
    occurs in B's dependents the same number of times; so each occurs at
    least once as soon as one specifier resolves to B, and exactly once
    when just one does.  A node's dependencies never contain its own id. *)
Theorem dependencies_count_resolving_imports
  (all_files : dict FileInfo) (root_dir : list string) (fs : FileSystem)
  (selected : list string) (r : AnalysisResult)
  (A B : string) (nA nB : DependencyNode) :
  unique_paths all_files ->
  analyze_dependencies all_files root_dir fs selected = Ret r ->
  get A (nodes r) = Some nA -> get B (nodes r) = Some nB -> A <> B ->
  let resolving :=
    filter (resolves_to all_files root_dir nA (file_path nB)) (imports nA) in
  occurrences B (dependencies nA) = List.length resolving
  /\ occurrences A (dependents nB) = List.length resolving
  /\ (resolving <> [] -> In B (dependencies nA) /\ In A (dependents nB))
  /\ ~ In A (dependencies nA)
  /\ ~ In B (dependencies nB).
Proof.
  intros Huniq Hrun HA HB Hne resolving.
  destruct (result_node _ _ _ _ _ Hrun A nA HA)
    as [infoA [_ [_ [_ [_ [_ [DA [DA' _]]]]]]]].
  destruct (result_node _ _ _ _ _ Hrun B nB HB)
    as [infoB [_ [_ [_ [_ [_ [_ [_ [DB _]]]]]]]]].
  assert (H1 : occurrences B (dependencies nA) = List.length resolving).
  { rewrite DA. unfold targets. simpl. apply occurrences_flat_map.
    intros imp _. now apply (import_edge_occurrences _ _ _ _ _ Huniq Hrun A nA B nB). }
  assert (H2 : occurrences A (dependents nB) = List.length resolving).
  { rewrite DB, occurrences_edges_swap, <- DA'. exact H1. }
  assert (Hself : forall K nK, get K (nodes r) = Some nK -> ~ In K (dependencies nK)).
  { intros K nK HK Hin.
    destruct (result_node_edges _ _ _ _ _ Hrun K nK HK) as [Hd _].
    apply Hd in Hin.
    destruct (result_edge _ _ _ _ _ Hrun _ _ Hin) as [_ [_ Hneq]]. congruence. }
  repeat split; eauto.
  - apply occurrences_In. rewrite H1. destruct resolving; simpl; [congruence | lia].
  - apply occurrences_In. rewrite H2. destruct resolving; simpl; [congruence | lia].
Qed.

End EdgeFacts.

Lemma dependencies_count_resolving_imports_witness :
  exists r nA nB,
    analyze_dependencies Demo.pair_catalog Demo.root
      (Demo.pair_disk ["./b"; "./b.js"]) ["a.js"; "b.js"] = Ret r
    /\ get "a.js" (nodes r) = Some nA /\ get "b.js" (nodes r) = Some nB
    /\ occurrences "b.js" (dependencies nA)
       = List.length (filter (resolves_to Demo.pair_catalog Demo.root nA
                                          (file_path nB)) (imports nA))
    /\ occurrences "a.js" (dependents nB)
       = List.length (filter (resolves_to Demo.pair_catalog Demo.root nA
                                          (file_path nB)) (imports nA)).
Proof.
  run_analysis r Hrun.
  node_of "a.js" r nA HA Hrun.
  node_of "b.js" r nB HB Hrun.
  exists r, nA, nB.
  split; [reflexivity|]. split; [exact HA|]. split; [exact HB|].
  assert (Huniq : unique_paths Demo.pair_catalog).
  { unfold unique_paths. vm_compute.
    repeat constructor; simpl; intuition discriminate. }
  destruct (dependencies_count_resolving_imports
              Demo.pair_catalog Demo.root (Demo.pair_disk ["./b"; "./b.js"])
              ["a.js"; "b.js"] r "a.js" "b.js" nA nB Huniq Hrun HA HB)
    as [H1 [H2 _]]; [discriminate|].
  split; [exact H1 | exact H2].
Defined.

(** C5 as stated fails: [a.js] imports [./b] and [./b.js], two specifiers
    for the one file [b.js], and lists it twice. *)
Lemma dependencies_duplicate_counterexample :
  exists r nA nB,
    analyze_dependencies Demo.pair_catalog Demo.root
      (Demo.pair_disk ["./b"; "./b.js"]) ["a.js"; "b.js"] = Ret r
    /\ get "a.js" (nodes r) = Some nA /\ get "b.js" (nodes r) = Some nB
    /\ dependencies nA = ["b.js"; "b.js"]
    /\ dependents nB = ["a.js"; "a.js"]
    /\ ~ NoDup (dependencies nA).
Proof.
  eexists. eexists. eexists.
  split; [vm_compute; reflexivity|].
  split; [vm_compute; reflexivity|].
  split; [vm_compute; reflexivity|].
  split; [reflexivity|]. split; [reflexivity|].
  simpl. intros H. inversion H as [|? ? Hnotin _]. apply Hnotin. now left.
Qed.

(** ** The missing-dependency list *)

Lemma filter_none {A} (P : A -> bool) (l : list A) :
  (forall x, In x l -> P x = false) -> filter P l = [].
Proof.
  induction l as [|a l IH]; simpl; intros H; [reflexivity|].
  rewrite (H a) by now left. apply IH. intros x Hx. apply H. now right.
Qed.

Lemma filter_flat_map_one {A B} (P : B -> bool) (f : A -> list B)
  (l : list A) (x : A) :
  NoDup l -> In x l ->
  (forall y, In y l -> y <> x -> filter P (f y) = []) ->
  filter P (flat_map f l) = filter P (f x).
Proof.
  induction l as [|a l IH]; simpl; intros Hnd Hin Hother; [destruct Hin|].
  inversion Hnd as [|? ? Hnotin Hnd']; subst.
  rewrite filter_app. destruct Hin as [->|Hin].
  - rewrite (filter_none P (flat_map f l)); [now rewrite app_nil_r|].
    intros b Hb. apply in_flat_map in Hb. destruct Hb as [y [Hy Hb]].
    assert (Hyx : y <> x) by (intros ->; contradiction).
    assert (Hf : filter P (f y) = []) by (apply Hother; auto).
    destruct (P b) eqn:E; [|reflexivity].
    assert (Hb' : In b (filter P (f y))) by (apply filter_In; auto).
    rewrite Hf in Hb'. destruct Hb'.
  - rewrite Hother; [simpl; apply IH; auto | now left | ].
    intros ->. contradiction.
Qed.

Lemma NoDup_keys_items {V} (d : dict V) : NoDup (keys d) -> NoDup d.
Proof. apply NoDup_map_inv. Qed.

Section MissingFacts.

Context {os : OS}.

Section Missing.

Variable all_files : dict FileInfo.
Variable root_dir : list string.

Lemma missing_entry_fields sel item imp m :
  In m (missing_entry all_files root_dir sel item imp) ->
  required_by m = fst item /\ missing_import m = imp.
Proof.
  unfold missing_entry.
  destruct (_resolve_import_path _ _ _ _ _) as [[p|]|e]; simpl; try tauto.
  destruct (truthy p && negb (elem p sel)); simpl; try tauto.
  intros [<-|[]]. auto.
Qed.

Lemma resolve_import_path_relative imp dir ftype p :
  _resolve_import_path all_files root_dir imp dir ftype = Ret (Some p) ->
  startswith "." imp = true.
Proof.
  unfold _resolve_import_path. destruct (startswith "." imp); simpl; auto.
  discriminate.
Qed.

Variable fs : FileSystem.
Variable selected : list string.
Variable r : AnalysisResult.
Hypothesis Hrun : analyze_dependencies all_files root_dir fs selected = Ret r.

Lemma result_imports_NoDup A nA : get A (nodes r) = Some nA -> NoDup (imports nA).
Proof.
  intros H. destruct (result_node _ _ _ _ _ Hrun A nA H)
    as [info [_ [_ [_ [_ [-> _]]]]]].
  apply extract_imports_NoDup.
Qed.

(** The entries of the missing list for one import of one analysed file
    are those its own inspection appended. *)
Lemma entries_for_import A nA imp :
  get A (nodes r) = Some nA -> In imp (imports nA) ->
  entries_for A imp (missing_dependencies r)
  = missing_entry all_files root_dir (selected_paths all_files selected)
                  (A, nA) imp.
Proof.
  intros HA Himp.
  destruct (analyze_dependencies_closed_form _ _ _ _ _ Hrun) as [_ [Hm _]].
  destruct (result_keys _ _ _ _ _ Hrun) as [Hnd _].
  unfold entries_for. rewrite Hm.
  rewrite (filter_flat_map_one _ _ (nodes r) (A, nA)).
  - simpl. rewrite (filter_flat_map_one _ _ (imports nA) imp).
    + apply forallb_filter_id. apply forallb_forall. intros m Hin.
      apply missing_entry_fields in Hin. destruct Hin as [-> ->]. simpl.
      now rewrite !String.eqb_refl.
    + now apply (result_imports_NoDup A).
    + exact Himp.
    + intros imp' _ Hne. apply filter_none. intros m Hin.
      apply missing_entry_fields in Hin. destruct Hin as [-> ->]. simpl.
      rewrite String.eqb_refl. simpl. now apply String.eqb_neq.
  - now apply NoDup_keys_items.
  - now apply get_In.
  - intros [k n] Hin Hne. apply filter_none. intros m Hm'.
    apply in_flat_map in Hm'. destruct Hm' as [imp' [_ Hm']].
    apply missing_entry_fields in Hm'. destruct Hm' as [-> _]. simpl.
    assert (Hk : String.eqb k A = false).
    { apply String.eqb_neq. intros ->. apply Hne. f_equal.
      apply (In_get _ _ _ Hnd) in Hin. congruence. }
    now rewrite Hk.
Qed.

(** An import that resolves outside the selection gets one entry, naming
    the first catalog file with that path. *)
Lemma missing_entry_outside A nA imp p :
  _resolve_import_path all_files root_dir imp
    (parent (Path (file_path nA))) (file_type nA) = Ret (Some p) ->
  ~ In p (selected_paths all_files selected) ->
  exists g info,
    find (fun kv => String.eqb (relative_path (snd kv)) p) all_files
    = Some (g, info)
    /\ missing_entry all_files root_dir (selected_paths all_files selected)
                     (A, nA) imp
       = [mkMissing A (file_path nA) imp (Some g) 1 "Exact path match found"].
Proof.
  intros Hres Hout. unfold missing_entry. simpl. rewrite Hres.
  destruct (resolve_import_path_sound _ _ _ _ _ _ Hres) as [Hcat Hp].
  unfold truthy. apply String.eqb_neq in Hp. rewrite Hp.
  apply elem_not_In in Hout. rewrite Hout. simpl.
  unfold _suggest_missing_file.
  destruct (find _ all_files) as [[g info]|] eqn:F.
  - exists g, info. split; reflexivity.
  - exfalso. unfold in_catalog in Hcat. apply existsb_exists in Hcat.
    destruct Hcat as [f [Hf Hfp]]. apply in_map_iff in Hf.
    destruct Hf as [[k f'] [Hk Hin]]. simpl in Hk. subst f'.
    apply (find_none _ _ F) in Hin. simpl in Hin. congruence.
Qed.

End Missing.

(** C2: when an import of an analysed file resolves to the relative path of
    a catalog file that is not selected (the catalog holding each relative
    path once), the missing list has exactly one entry for that import; the
    entry suggests that file with confidence 1.0 and reason "Exact path
    match found"; the import inserts no edge, and no node depends on that
    file. *)
Theorem out_of_selection_import_reported_once
  (all_files : dict FileInfo) (root_dir : list string) (fs : FileSystem)
  (selected : list string) (r : AnalysisResult)
  (A : string) (nA : DependencyNode) (imp p g : string) (info : FileInfo) :
  unique_paths all_files ->
  analyze_dependencies all_files root_dir fs selected = Ret r ->
  get A (nodes r) = Some nA -> In imp (imports nA) ->
  _resolve_import_path all_files root_dir imp
    (parent (Path (file_path nA))) (file_type nA) = Ret (Some p) ->
  get g all_files = Some info -> relative_path info = p -> ~ In g selected ->
  entries_for A imp (missing_dependencies r)
  = [mkMissing A (file_path nA) imp (Some g) 1 "Exact path match found"]
  /\ (forall st,
        link_import all_files root_dir (file_path_to_id all_files selected) A
          (parent (Path (file_path nA))) (file_type nA) st imp = Ret st)
  /\ (forall k m, In (k, m) (nodes r) -> ~ In g (dependencies m)).
Proof.
  intros Huniq Hrun HA Himp Hres Hg Hrel Hsel.
  assert (Hout : ~ In p (selected_paths all_files selected)).
  { rewrite selected_paths_In. intros [fid [info' [Hin [Hget Hp]]]].
    destruct (unique_paths_entry all_files fid info' g info Huniq
                (get_In _ _ _ Hget) (get_In _ _ _ Hg)) as [-> _];
      [congruence | contradiction]. }
  split; [|split].
  - rewrite (entries_for_import _ _ _ _ _ Hrun A nA imp HA Himp).
    destruct (missing_entry_outside all_files root_dir selected A nA imp p
                Hres Hout) as [g' [info' [F ->]]].
    apply find_some in F. destruct F as [Hin Hp]. simpl in Hp.
    apply String.eqb_eq in Hp.
    destruct (unique_paths_entry all_files g' info' g info Huniq Hin
                (get_In _ _ _ Hg)) as [-> _]; [congruence | reflexivity].
  - intros st. unfold link_import. rewrite Hres. simpl.
    destruct (get p (file_path_to_id all_files selected)) as [dep|] eqn:G.
    + exfalso. apply Hout. apply file_path_to_id_sound in G.
      destruct G as [Hin [info' [Hget Hp]]].
      apply selected_paths_In. eauto.
    + now destruct (truthy p).
  - intros k m Hm Hdep.
    pose proof (result_node_In _ _ _ _ _ Hrun _ _ Hm) as Hgm.
    destruct (result_node_edges _ _ _ _ _ Hrun k m Hgm) as [Hd _].
    apply Hd in Hdep.
    destruct (result_edge _ _ _ _ _ Hrun _ _ Hdep) as [_ [Hkey _]].
    apply (result_keys _ _ _ _ _ Hrun) in Hkey. tauto.
Qed.

End MissingFacts.

Lemma out_of_selection_import_reported_once_witness :
  exists r nB,
    analyze_dependencies Demo.catalog Demo.root Demo.disk
                         ["pkg/a.js"; "pkg/b.js"] = Ret r
    /\ get "pkg/b.js" (nodes r) = Some nB
    /\ entries_for "pkg/b.js" "./c" (missing_dependencies r)
       = [mkMissing "pkg/b.js" (file_path nB) "./c" (Some "pkg/c.js") 1
                    "Exact path match found"].
Proof.
  run_analysis r Hrun.
  node_of "pkg/b.js" r nB HB Hrun.
  exists r, nB. split; [reflexivity|]. split; [exact HB|].
  assert (Huniq : unique_paths Demo.catalog).
  { unfold unique_paths. vm_compute.
    repeat constructor; simpl; intuition discriminate. }
  refine (proj1 (out_of_selection_import_reported_once
                   Demo.catalog Demo.root Demo.disk ["pkg/a.js"; "pkg/b.js"]
                   r "pkg/b.js" nB "./c" "pkg/c.js" "pkg/c.js"
                   (snd (Demo.file "pkg/c.js"))
                   Huniq Hrun HB _ _ eq_refl eq_refl _)).
  - vm_compute in Hrun. injection Hrun as <-.
    vm_compute in HB. injection HB as <-. now left.
  - vm_compute in Hrun. injection Hrun as <-.
    vm_compute in HB. injection HB as <-. reflexivity.
  - simpl. intuition discriminate.
Defined.

Section MissingFacts2.

Context {os : OS}.

(** An import that does not resolve leaves no trace in the missing list. *)
Lemma unresolved_import_has_no_entry
  (all_files : dict FileInfo) (root_dir : list string) (fs : FileSystem)
  (selected : list string) (r : AnalysisResult)
  (A : string) (nA : DependencyNode) (imp : string) :
  analyze_dependencies all_files root_dir fs selected = Ret r ->
  get A (nodes r) = Some nA -> In imp (imports nA) ->
  _resolve_import_path all_files root_dir imp
    (parent (Path (file_path nA))) (file_type nA) = Ret None ->
  entries_for A imp (missing_dependencies r) = [].
Proof.
  intros Hrun HA Himp Hres.
  rewrite (entries_for_import _ _ _ _ _ Hrun A nA imp HA Himp).
  unfold missing_entry. simpl. now rewrite Hres.
Qed.

End MissingFacts2.

(** C1 (the code at the failing input): [x.js] is selected and imports
    [./nonexistent], which the resolver cannot resolve; the analysis
    returns an empty missing list instead of one entry with no suggestion,
    confidence 0.0 and reason "File not found". *)
Theorem unresolved_import_not_reported :
  exists r,
    analyze_dependencies Demo.lone_catalog Demo.root Demo.lone_disk ["x.js"]
    = Ret r
    /\ option_map imports (get "x.js" (nodes r)) = Some ["./nonexistent"]
    /\ _resolve_import_path Demo.lone_catalog Demo.root "./nonexistent"
         (parent (Path "x.js")) ".js" = Ret None
    /\ missing_dependencies r = [].
Proof. eexists. split; [vm_compute; reflexivity|]. repeat split. Qed.

Section MissingFacts3.

Context {os : OS}.

(** C8 (as amended): however many import statements of a selected file
    name one specifier that resolves outside the selection, extraction
    keeps the specifier once and the missing list has exactly one entry
    for that file and specifier. *)
Theorem repeated_import_reported_once
  (all_files : dict FileInfo) (root_dir : list string) (fs : FileSystem)
  (selected : list string) (r : AnalysisResult)
  (A : string) (nA : DependencyNode) (info : FileInfo)
  (imp p : string) (n : nat) :
  analyze_dependencies all_files root_dir fs selected = Ret r ->
  get A (nodes r) = Some nA -> get A all_files = Some info ->
  occurrences imp
    (import_statements fs (Path (path info)) (extension info)) = n ->
  0 < n ->
  _resolve_import_path all_files root_dir imp
    (parent (Path (file_path nA))) (file_type nA) = Ret (Some p) ->
  ~ In p (selected_paths all_files selected) ->
  occurrences imp (imports nA) = 1
  /\ List.length (entries_for A imp (missing_dependencies r)) = 1.
Proof.
  intros Hrun HA Hinfo Hn Hpos Hres Hout.
  destruct (result_node _ _ _ _ _ Hrun A nA HA)
    as [info' [Hinfo' [_ [_ [_ [Himports _]]]]]].
  rewrite Hinfo in Hinfo'. injection Hinfo' as <-.
  assert (Hin : In imp (imports nA)).
  { rewrite Himports, extract_imports_merges. apply In_list_set.
    apply occurrences_In. lia. }
  split.
  - pose proof (occurrences_NoDup imp _
                  (result_imports_NoDup _ _ _ _ _ Hrun A nA HA)).
    apply occurrences_In in Hin. lia.
  - rewrite (entries_for_import _ _ _ _ _ Hrun A nA imp HA Hin).
    destruct (missing_entry_outside all_files root_dir selected A nA imp p
                Hres Hout) as [g [info' [_ ->]]].
    reflexivity.
Qed.

End MissingFacts3.

Lemma repeated_import_reported_once_witness :
  exists r nB,
    analyze_dependencies Demo.catalog Demo.root Demo.twice_disk ["pkg/b.js"]
    = Ret r
    /\ get "pkg/b.js" (nodes r) = Some nB
    /\ occurrences "./c" (imports nB) = 1
    /\ List.length (entries_for "pkg/b.js" "./c" (missing_dependencies r)) = 1.
Proof.
  run_analysis r Hrun.
  node_of "pkg/b.js" r nB HB Hrun.
  exists r, nB. split; [reflexivity|]. split; [exact HB|].
  refine (repeated_import_reported_once
            Demo.catalog Demo.root Demo.twice_disk ["pkg/b.js"] r
            "pkg/b.js" nB (snd (Demo.file "pkg/b.js"))
            "./c" "pkg/c.js" 2 Hrun HB eq_refl eq_refl _ _ _).
  - lia.
  - vm_compute in Hrun. injection Hrun as <-.
    vm_compute in HB. injection HB as <-. reflexivity.
  - simpl. intuition discriminate.
Defined.

(** C8 as stated fails: [pkg/b.js] holds the statement importing [./c]
    twice, [pkg/c.js] is outside the selection, and the missing list has
    one entry, not two. *)
Lemma repeated_import_counterexample :
  exists r,
    analyze_dependencies Demo.catalog Demo.root Demo.twice_disk ["pkg/b.js"]
    = Ret r
    /\ occurrences "./c"
         (import_statements Demo.twice_disk (Path "/proj/pkg/b.js") ".js") = 2
    /\ List.length (entries_for "pkg/b.js" "./c" (missing_dependencies r)) = 1
    /\ List.length (missing_dependencies r) = 1.
Proof. eexists. split; [vm_compute; reflexivity|]. repeat split. Qed.
(** ** Rounding *)

Lemma round_half_even_bounds (q : Q) :
  (inject_Z (round_half_even q) - (1 # 2) <= q
   /\ q <= inject_Z (round_half_even q) + (1 # 2))%Q.
Proof.
  destruct q as [n d]. unfold round_half_even. cbn [Qnum Qden].
  pose proof (Z.div_mod n (Zpos d) ltac:(lia)) as Hdm.
  pose proof (Z.mod_pos_bound n (Zpos d) ltac:(lia)) as Hr.
  pose proof (Pos2Z.is_pos d) as HD.
  set (fl := (n / Zpos d)%Z) in *. set (rm := (n mod Zpos d)%Z) in *.
  clearbody fl rm. subst n.
  pose proof (Z.compare_spec (2 * rm) (Zpos d)) as C.
  destruct (2 * rm ?= Zpos d)%Z; [destruct (Z.even fl)| |];
    inversion C as [C'|C'|C'];
    unfold Qle, Qminus, Qplus, Qopp, inject_Z; cbn [Qnum Qden];
    change (Z.pos (1 * 2)) with 2%Z;
    set (D := Z.pos d) in *; clearbody D; split; nia.
Qed.

(** ** Rounding is monotone *)

(** Half way between two integers the even one is taken, however the
    rational is written. *)
Lemma round_half_even_tie (q : Q) (m : Z) :
  (q == inject_Z m + (1 # 2))%Q ->
  round_half_even q = if Z.even m then m else (m + 1)%Z.
Proof.
  destruct q as [n d]. unfold Qeq, Qplus, inject_Z. cbn [Qnum Qden].
  change (Z.pos (1 * 2)) with 2%Z. intros H.
  pose proof (Pos2Z.is_pos d) as HD. set (D := Z.pos d) in *.
  assert (Hr : exists r, (D = 2 * r /\ 0 < r)%Z).
  { exists (n - m * D)%Z. lia. }
  destruct Hr as [r [HDr Hr]].
  assert (Hn : (n = D * m + r)%Z) by lia.
  assert (Hdiv : (n / D = m)%Z).
  { symmetry. apply (Z.div_unique n D m r); [left; lia | exact Hn]. }
  assert (Hmod : (n mod D = r)%Z).
  { symmetry. apply (Z.mod_unique n D m r); [left; lia | exact Hn]. }
  unfold round_half_even. cbn [Qnum Qden]. fold D. rewrite Hdiv, Hmod.
  assert (Hc : (2 * r ?= D)%Z = Eq) by (apply Z.compare_eq_iff; lia).
  now rewrite Hc.
Qed.

Lemma round_half_even_monotone (p q : Q) :
  (p <= q)%Q -> (round_half_even p <= round_half_even q)%Z.
Proof.
  intros Hpq.
  destruct (Z.le_gt_cases (round_half_even p) (round_half_even q))
    as [H|H]; [exact H|exfalso].
  destruct (round_half_even_bounds p) as [Hp _].
  destruct (round_half_even_bounds q) as [_ Hq].
  assert (Hk : (inject_Z (round_half_even q) + 1
                <= inject_Z (round_half_even p))%Q).
  { change 1%Q with (inject_Z 1). rewrite <- inject_Z_plus, <- Zle_Qle. lia. }
  assert (Tp : (p == inject_Z (round_half_even q) + (1 # 2))%Q)
    by (apply Qle_antisym; lra).
  assert (Tq : (q == inject_Z (round_half_even q) + (1 # 2))%Q)
    by (apply Qle_antisym; lra).
  apply round_half_even_tie in Tp. apply round_half_even_tie in Tq.
  rewrite Tp, <- Tq in H. lia.
Qed.

Lemma round_half_even_integer (k : Z) : round_half_even (inject_Z k) = k.
Proof.
  unfold round_half_even, inject_Z. cbn [Qnum Qden].
  rewrite Z.div_1_r, Z.mod_1_r. reflexivity.
Qed.

Lemma round_half_even_ge (q : Q) (k : Z) :
  (inject_Z k <= q)%Q -> (k <= round_half_even q)%Z.
Proof.
  intros H. rewrite <- (round_half_even_integer k).
  now apply round_half_even_monotone.
Qed.

Lemma round_half_even_le (q : Q) (k : Z) :
  (q <= inject_Z k)%Q -> (round_half_even q <= k)%Z.
Proof.
  intros H. rewrite <- (round_half_even_integer k).
  now apply round_half_even_monotone.
Qed.

(** ** Powers of two *)

Lemma pow2_pos (e : Z) : (0 < pow2 e)%Q.
Proof. apply Qpower_0_lt. reflexivity. Qed.

Lemma pow2_add (a b : Z) : (pow2 (a + b) == pow2 a * pow2 b)%Q.
Proof. apply Qpower_plus. discriminate. Qed.

Lemma pow2_le (a b : Z) : (a <= b)%Z -> (pow2 a <= pow2 b)%Q.
Proof. intros H. apply Qpower_le_compat_l; [exact H | discriminate]. Qed.

Lemma pow2_lt_inv (a b : Z) : (pow2 a < pow2 b)%Q -> (a < b)%Z.
Proof. intros H. apply (Qpower_lt_compat_l_inv 2); [exact H | reflexivity]. Qed.

Lemma pow2_nat (n : Z) : (0 <= n)%Z -> (inject_Z (2 ^ n) == pow2 n)%Q.
Proof. intros H. now apply Zpower_Qpower. Qed.

(** ** The binade of a positive rational *)

Lemma binade_spec (q : Q) :
  (0 < q)%Q -> (pow2 (binade q) <= q /\ q < pow2 (binade q + 1))%Q.
Proof.
  intros Hq. destruct q as [n d].
  assert (Hn : (0 < n)%Z) by (unfold Qlt in Hq; cbn in Hq; lia).
  unfold binade. cbn [Qnum Qden].
  set (ln := Z.log2 n). set (ld := Z.log2 (Z.pos d)).
  destruct (Z.log2_spec n Hn) as [Ln1 Ln2]. fold ln in Ln1, Ln2.
  destruct (Z.log2_spec (Z.pos d) (Pos2Z.is_pos d)) as [Ld1 Ld2].
  fold ld in Ld1, Ld2.
  assert (Hln : (0 <= ln)%Z) by apply Z.log2_nonneg.
  assert (Hld : (0 <= ld)%Z) by apply Z.log2_nonneg.
  assert (Hqd : ((n # d) * inject_Z (Z.pos d) == inject_Z n)%Q).
  { unfold Qeq, Qmult, inject_Z. cbn [Qnum Qden]. lia. }
  assert (Q1 : (pow2 ln <= inject_Z n)%Q)
    by (rewrite <- pow2_nat by lia; now rewrite <- Zle_Qle).
  assert (Q2 : (inject_Z n < pow2 (ln + 1))%Q)
    by (rewrite <- pow2_nat by lia; now rewrite <- Zlt_Qlt).
  assert (Q3 : (pow2 ld <= inject_Z (Z.pos d))%Q)
    by (rewrite <- pow2_nat by lia; now rewrite <- Zle_Qle).
  assert (Q4 : (inject_Z (Z.pos d) < pow2 (ld + 1))%Q)
    by (rewrite <- pow2_nat by lia; now rewrite <- Zlt_Qlt).
  assert (Hup : (n # d < pow2 (ln - ld + 1))%Q).
  { apply (Qmult_lt_r _ _ (pow2 ld) (pow2_pos ld)).
    rewrite <- pow2_add. replace (ln - ld + 1 + ld)%Z with (ln + 1)%Z by lia.
    apply (Qle_lt_trans _ ((n # d) * inject_Z (Z.pos d))); [|now rewrite Hqd].
    apply Qmult_le_l; [exact Hq | exact Q3]. }
  assert (Hlow : (pow2 (ln - ld - 1) <= n # d)%Q).
  { apply (Qmult_le_r _ _ (pow2 (ld + 1)) (pow2_pos (ld + 1))).
    rewrite <- pow2_add. replace (ln - ld - 1 + (ld + 1))%Z with ln by lia.
    apply (Qle_trans _ ((n # d) * inject_Z (Z.pos d))); [now rewrite Hqd|].
    apply Qlt_le_weak. apply Qmult_lt_l; [exact Hq | exact Q4]. }
  destruct (Qle_bool (pow2 (ln - ld)) (n # d)) eqn:E.
  - apply Qle_bool_iff in E. split; [exact E | exact Hup].
  - split; [exact Hlow|].
    replace (ln - ld - 1 + 1)%Z with (ln - ld)%Z by lia.
    apply Qnot_le_lt. intros H. apply Qle_bool_iff in H. congruence.
Qed.

Lemma binade_monotone (p q : Q) :
  (0 < p)%Q -> (p <= q)%Q -> (binade p <= binade q)%Z.
Proof.
  intros Hp Hpq.
  destruct (binade_spec p Hp) as [P1 _].
  destruct (binade_spec q (Qlt_le_trans _ _ _ Hp Hpq)) as [_ Q2].
  assert (H : (pow2 (binade p) < pow2 (binade q + 1))%Q)
    by (eapply Qle_lt_trans; [exact P1|]; eapply Qle_lt_trans; eauto).
  apply pow2_lt_inv in H. lia.
Qed.

(** ** The nearest float *)

(** The significand of the nearest float has 53 bits, or is [2 ** 53]. *)
Lemma significand_range (q : Q) :
  (0 < q)%Q ->
  (2 ^ 52 <= round_half_even (q / pow2 (binade q - 52)) <= 2 ^ 53)%Z.
Proof.
  intros Hq. destruct (binade_spec q Hq) as [H1 H2].
  set (e := (binade q - 52)%Z) in *.
  pose proof (pow2_pos e) as He.
  split.
  - apply round_half_even_ge. apply Qle_shift_div_l; [exact He|].
    rewrite (pow2_nat 52) by lia. rewrite <- pow2_add.
    replace (52 + e)%Z with (binade q) by (unfold e; lia). exact H1.
  - apply round_half_even_le. apply Qle_shift_div_r; [exact He|].
    rewrite (pow2_nat 53) by lia. rewrite <- pow2_add.
    replace (53 + e)%Z with (binade q + 1)%Z by (unfold e; lia).
    now apply Qlt_le_weak.
Qed.

Lemma nearest_positive_monotone (p q : Q) :
  (0 < p)%Q -> (p <= q)%Q -> (nearest_positive p <= nearest_positive q)%Q.
Proof.
  intros Hp Hpq. pose proof (Qlt_le_trans _ _ _ Hp Hpq) as Hq.
  unfold nearest_positive. rewrite !Qred_correct.
  pose proof (binade_monotone p q Hp Hpq) as Hb.
  destruct (significand_range p Hp) as [_ P2].
  destruct (significand_range q Hq) as [Q1 _].
  set (ep := (binade p - 52)%Z) in *. set (eq := (binade q - 52)%Z) in *.
  destruct (Z.eq_dec ep eq) as [E|E].
  - rewrite E. apply Qmult_le_compat_r; [|apply Qlt_le_weak, pow2_pos].
    rewrite <- Zle_Qle. apply round_half_even_monotone.
    apply Qmult_le_compat_r; [exact Hpq|].
    apply Qlt_le_weak, Qinv_lt_0_compat, pow2_pos.
  - apply (Qle_trans _ (inject_Z (2 ^ 53) * pow2 ep)).
    { apply Qmult_le_compat_r; [|apply Qlt_le_weak, pow2_pos].
      now rewrite <- Zle_Qle. }
    apply (Qle_trans _ (inject_Z (2 ^ 52) * pow2 eq)).
    { rewrite (pow2_nat 53), (pow2_nat 52) by lia. rewrite <- !pow2_add.
      apply pow2_le. unfold ep, eq in *. lia. }
    apply Qmult_le_compat_r; [|apply Qlt_le_weak, pow2_pos].
    now rewrite <- Zle_Qle.
Qed.

Lemma nearest_positive_pos (q : Q) : (0 < q)%Q -> (0 < nearest_positive q)%Q.
Proof.
  intros Hq. unfold nearest_positive. rewrite Qred_correct.
  destruct (significand_range q Hq) as [H _].
  apply Qmult_lt_0_compat; [|apply pow2_pos].
  change 0%Q with (inject_Z 0). rewrite <- Zlt_Qlt. lia.
Qed.

Lemma Qnum_pos (q : Q) : (0 < q)%Q -> exists p, Qnum q = Zpos p.
Proof.
  destruct q as [[|p|p] d]; unfold Qlt; cbn; intros H; try lia. eauto.
Qed.

Lemma nearest_float_nonneg (q : Q) : (0 <= q)%Q -> (0 <= nearest_float q)%Q.
Proof.
  intros Hq. unfold nearest_float. destruct (Qnum q) as [|n|n] eqn:E.
  - apply Qle_refl.
  - apply Qlt_le_weak, nearest_positive_pos.
    unfold Qlt. cbn. rewrite E. lia.
  - exfalso. unfold Qle in Hq. cbn in Hq. rewrite E in Hq. lia.
Qed.

Lemma nearest_float_monotone (p q : Q) :
  (0 <= p)%Q -> (p <= q)%Q -> (nearest_float p <= nearest_float q)%Q.
Proof.
  intros Hp Hpq. unfold nearest_float at 1.
  destruct (Qnum p) as [|n|n] eqn:E.
  - apply nearest_float_nonneg. now apply (Qle_trans _ p).
  - assert (Hp' : (0 < p)%Q) by (unfold Qlt; cbn; rewrite E; lia).
    destruct (Qnum_pos q (Qlt_le_trans _ _ _ Hp' Hpq)) as [m Hm].
    unfold nearest_float. rewrite Hm.
    now apply nearest_positive_monotone.
  - exfalso. unfold Qle in Hp. cbn in Hp. rewrite E in Hp. lia.
Qed.

(** A rational between two equal bounds rounds as they do. *)
Lemma nearest_float_value (q c : Q) :
  (0 <= c)%Q -> (q == c)%Q -> (nearest_float q == nearest_float c)%Q.
Proof.
  intros Hc H. apply Qle_antisym; apply nearest_float_monotone;
    rewrite ?H; auto using Qle_refl.
Qed.

Lemma round_half_even_value (q : Q) (k : Z) :
  (q == inject_Z k)%Q -> round_half_even q = k.
Proof.
  intros H. apply Z.le_antisymm.
  - apply round_half_even_le. rewrite H. apply Qle_refl.
  - apply round_half_even_ge. rewrite H. apply Qle_refl.
Qed.

(** A count below [2 ** 53] is a float. *)
Lemma nearest_float_count (m : Z) :
  (0 <= m < 2 ^ 53)%Z -> (nearest_float (inject_Z m) == inject_Z m)%Q.
Proof.
  intros [H0 H53]. destruct m as [|p|p]; [reflexivity| |lia].
  unfold nearest_float. cbn [Qnum inject_Z].
  change (Z.pos p # 1)%Q with (inject_Z (Z.pos p)).
  assert (Hq : (0 < inject_Z (Z.pos p))%Q) by reflexivity.
  unfold nearest_positive. rewrite Qred_correct.
  destruct (binade_spec _ Hq) as [B1 _].
  set (b := binade (inject_Z (Z.pos p))) in *.
  assert (Hb : (b < 53)%Z).
  { apply pow2_lt_inv. eapply Qle_lt_trans; [exact B1|].
    rewrite <- (pow2_nat 53) by lia. now rewrite <- Zlt_Qlt. }
  assert (Hne : ~ (pow2 (b - 52) == 0)%Q).
  { intros H. pose proof (pow2_pos (b - 52)) as Hp. rewrite H in Hp.
    discriminate. }
  assert (Hinv : (pow2 (52 - b) * pow2 (b - 52) == 1)%Q).
  { rewrite <- pow2_add. replace (52 - b + (b - 52))%Z with 0%Z by lia.
    reflexivity. }
  assert (Hscale : (inject_Z (Z.pos p) / pow2 (b - 52)
                    == inject_Z (Z.pos p * 2 ^ (52 - b)))%Q).
  { rewrite inject_Z_mult, (pow2_nat (52 - b)) by lia.
    apply (Qmult_inj_r _ _ _ Hne).
    rewrite (Qmult_comm (_ / _)), Qmult_div_r by exact Hne.
    now rewrite <- Qmult_assoc, Hinv, Qmult_1_r. }
  rewrite (round_half_even_value _ _ Hscale).
  rewrite inject_Z_mult, (pow2_nat (52 - b)) by lia.
  now rewrite <- Qmult_assoc, Hinv, Qmult_1_r.
Qed.

Lemma round2_equal (x c : Q) : (x == c)%Q -> round2 x = round2 c.
Proof.
  intros H. unfold round2. f_equal. f_equal. f_equal.
  apply Z.le_antisymm; apply round_half_even_monotone; rewrite H;
    apply Qle_refl.
Qed.

Lemma hundredths_nonneg (x : Q) :
  (0 <= x)%Q -> (0 <= inject_Z (round_half_even (x * 100)) / 100)%Q.
Proof.
  intros H. apply Qle_shift_div_l; [reflexivity|]. rewrite Qmult_0_l.
  change 0%Q with (inject_Z 0). rewrite <- Zle_Qle.
  apply round_half_even_ge. change (inject_Z 0) with 0%Q. lra.
Qed.

Lemma round2_nonneg (x : Q) : (0 <= x -> 0 <= round2 x)%Q.
Proof. intros H. apply nearest_float_nonneg. now apply hundredths_nonneg. Qed.

Lemma round2_monotone (x y : Q) :
  (0 <= x)%Q -> (x <= y)%Q -> (round2 x <= round2 y)%Q.
Proof.
  intros Hx Hxy. unfold round2.
  apply nearest_float_monotone; [now apply hundredths_nonneg|].
  apply Qmult_le_compat_r; [|discriminate].
  rewrite <- Zle_Qle. apply round_half_even_monotone. lra.
Qed.

(** A ratio, as a percentage rounded to two decimals, grows with the
    ratio. *)
Lemma percentage_monotone (p q : Q) :
  (0 <= p)%Q -> (p <= q)%Q ->
  (round2 (fmul (nearest_float p) 100) <= round2 (fmul (nearest_float q) 100))%Q.
Proof.
  intros Hp Hpq.
  pose proof (nearest_float_nonneg p Hp) as H0.
  pose proof (nearest_float_monotone p q Hp Hpq) as H1.
  assert (H2 : (0 <= nearest_float p * 100)%Q) by lra.
  apply round2_monotone; unfold fmul.
  - now apply nearest_float_nonneg.
  - apply nearest_float_monotone; [exact H2 | lra].
Qed.

(** ** Ratios of counts *)

Lemma Qnat_pos (n : nat) : 0 < n -> (0 < Qnat n)%Q.
Proof. intros H. unfold Qnat. change 0%Q with (inject_Z 0). rewrite <- Zlt_Qlt. lia. Qed.

Lemma Qnat_nonneg (n : nat) : (0 <= Qnat n)%Q.
Proof. unfold Qnat. change 0%Q with (inject_Z 0). rewrite <- Zle_Qle. lia. Qed.

Lemma ratio_nonneg (a b : nat) : (0 <= Qnat a / Qnat b)%Q.
Proof.
  destruct b as [|b].
  - unfold Qnat, Qdiv. cbn. unfold Qle. cbn. lia.
  - apply Qle_shift_div_l; [apply Qnat_pos; lia|].
    rewrite Qmult_0_l. apply Qnat_nonneg.
Qed.

(** A ratio of counts compared with a fraction. *)
Lemma ratio_le (a b : nat) (n : Z) (d : positive) :
  0 < b -> (Z.of_nat a * Zpos d <= n * Z.of_nat b)%Z ->
  (Qnat a / Qnat b <= n # d)%Q.
Proof.
  intros Hb H. apply Qle_shift_div_r; [now apply Qnat_pos|].
  unfold Qle, Qmult, Qnat, inject_Z. cbn [Qnum Qden].
  rewrite Pos.mul_1_r, Z.mul_1_r. exact H.
Qed.

Lemma ratio_ge (a b : nat) (n : Z) (d : positive) :
  0 < b -> (n * Z.of_nat b <= Z.of_nat a * Zpos d)%Z ->
  (n # d <= Qnat a / Qnat b)%Q.
Proof.
  intros Hb H. apply Qle_shift_div_l; [now apply Qnat_pos|].
  unfold Qle, Qmult, Qnat, inject_Z. cbn [Qnum Qden].
  rewrite Pos.mul_1_r, Z.mul_1_r. exact H.
Qed.

Lemma percentage_nonneg (a b : nat) :
  (0 <= round2 (fmul (truediv a b) 100))%Q.
Proof.
  apply round2_nonneg. unfold fmul. apply nearest_float_nonneg.
  pose proof (nearest_float_nonneg _ (ratio_nonneg a b)) as H.
  unfold truediv. lra.
Qed.

Lemma percentage_le_100 (a b : nat) :
  0 < b -> a <= b -> (round2 (fmul (truediv a b) 100) <= 100)%Q.
Proof.
  intros Hb Hab. unfold truediv.
  apply (Qle_trans _ (round2 (fmul (nearest_float 1) 100))).
  - apply percentage_monotone; [apply ratio_nonneg|].
    apply (ratio_le a b 1 1 Hb). lia.
  - apply Qle_bool_iff. vm_compute. reflexivity.
Qed.

Lemma list_sum_bound {A} (f : A -> nat) (c : nat) (l : list A) :
  (forall x, In x l -> f x <= c) -> list_sum (map f l) <= List.length l * c.
Proof.
  induction l as [|a l IH]; simpl; intros H; [lia|].
  specialize (H a (or_introl eq_refl)) as Ha.
  assert (list_sum (map f l) <= List.length l * c)
    by (apply IH; intros x Hx; apply H; now right).
  lia.
Qed.

(** ** Coupling *)

Section MetricFacts.

Context {os : OS}.

(** C9 (as amended): in every analysis result the coupling score is the
    sum of the dependency-list sizes divided by total_files * (total_files
    - 1), times 100, rounded to two decimals, each step in floating point;
    it is 0 when there is at most one file and never negative.  It is at
    most 100 when no node lists a dependency twice. *)
Theorem coupling_score_formula_and_bounds
  (all_files : dict FileInfo) (root_dir : list string) (fs : FileSystem)
  (selected : list string) (r : AnalysisResult) :
  analyze_dependencies all_files root_dir fs selected = Ret r ->
  let n := List.length (nodes r) in
  total_files (metrics r) = n
  /\ (n <= 1 -> (coupling_score (metrics r) == 0)%Q)
  /\ (1 < n ->
      coupling_score (metrics r)
      = round2 (fmul (truediv (total_dependencies (nodes r)) (n * (n - 1)))
                     100))
  /\ (0 <= coupling_score (metrics r))%Q
  /\ ((forall k m, In (k, m) (nodes r) -> NoDup (dependencies m)) ->
      (coupling_score (metrics r) <= 100)%Q).
Proof.
  intros Hrun n.
  destruct (analyze_dependencies_closed_form _ _ _ _ _ Hrun)
    as [_ [_ [_ [Hm _]]]].
  assert (Hscore :
    coupling_score (metrics r)
    = if Nat.eqb n 0 then 0%Q
      else round2 (if Nat.ltb 0 (n * (n - 1))
                   then fmul (truediv (total_dependencies (nodes r))
                                      (n * (n - 1))) 100
                   else 0%Q)).
  { rewrite Hm. unfold _calculate_metrics. fold n.
    destruct (Nat.eqb n 0); reflexivity. }
  assert (Htotal : total_files (metrics r) = n).
  { rewrite Hm. unfold _calculate_metrics. fold n.
    destruct (Nat.eqb n 0) eqn:E; [|reflexivity].
    apply Nat.eqb_eq in E. now rewrite E. }
  split; [exact Htotal|]. rewrite Hscore. split; [|split; [|split]].
  - intros Hn. destruct n as [|[|n']]; try lia; reflexivity.
  - intros Hn. destruct (Nat.eqb n 0) eqn:E; [apply Nat.eqb_eq in E; lia|].
    assert (Hpos : Nat.ltb 0 (n * (n - 1)) = true) by (apply Nat.ltb_lt; nia).
    now rewrite Hpos.
  - destruct (Nat.eqb n 0); [discriminate|].
    destruct (Nat.ltb 0 (n * (n - 1))); [|discriminate].
    apply percentage_nonneg.
  - intros Hnd. destruct (Nat.eqb n 0); [discriminate|].
    destruct (Nat.ltb 0 (n * (n - 1))) eqn:Hpos; [|discriminate].
    apply Nat.ltb_lt in Hpos. apply percentage_le_100; [exact Hpos|].
    unfold total_dependencies, values. rewrite map_map.
    replace n with (List.length (nodes r)) by reflexivity.
    apply (list_sum_bound (fun kv => List.length (dependencies (snd kv)))).
    intros [k m] Hin. simpl.
    pose proof (result_node_In _ _ _ _ _ Hrun _ _ Hin) as Hget.
    destruct (result_node_edges _ _ _ _ _ Hrun k m Hget) as [Hd _].
    destruct (result_keys _ _ _ _ _ Hrun) as [Hkeys _].
    assert (Hlen : List.length (k :: dependencies m)
                   <= List.length (keys (nodes r))).
    { apply NoDup_incl_length.
      - constructor; [|now apply (Hnd k)].
        intros Hself. apply Hd in Hself.
        destruct (result_edge _ _ _ _ _ Hrun _ _ Hself) as [_ [_ Hne]].
        congruence.
      - intros x [<-|Hx].
        + change k with (fst (k, m)). now apply in_map.
        + apply Hd in Hx.
          now destruct (result_edge _ _ _ _ _ Hrun _ _ Hx) as [_ [Hv _]]. }
    unfold keys in Hlen. rewrite length_map in Hlen. simpl in Hlen. lia.
Qed.

End MetricFacts.

Lemma coupling_score_formula_and_bounds_witness :
  exists r,
    analyze_dependencies Demo.catalog Demo.root Demo.disk
                         ["pkg/a.js"; "pkg/b.js"] = Ret r
    /\ total_files (metrics r) = 2
    /\ (coupling_score (metrics r) <= 100)%Q.
Proof.
  run_analysis r Hrun.
  exists r. split; [reflexivity|].
  destruct (coupling_score_formula_and_bounds
              Demo.catalog Demo.root Demo.disk ["pkg/a.js"; "pkg/b.js"] r Hrun)
    as [Ht [_ [_ [_ Hle]]]].
  vm_compute in Hrun. injection Hrun as <-.
  split; [exact Ht|]. apply Hle.
  intros k m [H|[H|[]]]; injection H as <- <-; simpl;
    repeat constructor; simpl; intuition.
Defined.

(** C9 as stated fails: [a.js] names [b.js] by three specifiers, so three
    dependencies are counted where two files allow two edges, and the
    coupling score is 150. *)
Lemma coupling_score_above_100_counterexample :
  exists r,
    analyze_dependencies Demo.pair_catalog Demo.root
      (Demo.pair_disk ["./b"; "./b.js"; "./b.ts"]) ["a.js"; "b.js"] = Ret r
    /\ total_files (metrics r) = 2
    /\ (coupling_score (metrics r) == 150)%Q
    /\ ~ (coupling_score (metrics r) <= 100)%Q.
Proof.
  eexists. split; [vm_compute; reflexivity|].
  split; [reflexivity|]. split; [reflexivity|].
  intros H. vm_compute in H. apply H. reflexivity.
Qed.

(** ** Completeness *)

Lemma completeness_exact (s : nat) :
  0 < s -> (_calculate_completeness_score s 0 == 100)%Q.
Proof.
  intros Hs. unfold _calculate_completeness_score.
  destruct (Nat.eqb s 0) eqn:E; [apply Nat.eqb_eq in E; lia|].
  rewrite Nat.add_0_r. apply Qle_antisym.
  - apply percentage_le_100; [exact Hs | apply Nat.le_refl].
  - unfold truediv.
    apply (Qle_trans _ (round2 (fmul (nearest_float 1) 100))).
    + apply Qle_bool_iff. vm_compute. reflexivity.
    + apply percentage_monotone; [discriminate|].
      apply (ratio_ge s s 1 1 Hs). lia.
Qed.

Section MetricFacts2.

Context {os : OS}.

(** C10 (as amended): in every analysis result the completeness score is
    selected_count / (selected_count + missing_count) * 100 rounded to two
    decimals, each step in floating point, and 0 when nothing is selected.
    It is 100 when something is selected and nothing is missing, and never
    above 100.  With missing imports it is 100 all the same as soon as
    selected_count >= 19999 * missing_count; it is below 100 when
    selected_count < 19999 * missing_count, for counts of at most 10^9 in
    all. *)
Theorem completeness_score_formula_and_bounds
  (all_files : dict FileInfo) (root_dir : list string) (fs : FileSystem)
  (selected : list string) (r : AnalysisResult) :
  analyze_dependencies all_files root_dir fs selected = Ret r ->
  let s := List.length selected in
  let m := List.length (missing_dependencies r) in
  (s = 0 -> completeness_score r = 0%Q)
  /\ (0 < s ->
      completeness_score r = round2 (fmul (truediv s (s + m)) 100))
  /\ (0 < s -> m = 0 -> (completeness_score r == 100)%Q)
  /\ (0 <= completeness_score r <= 100)%Q
  /\ (0 < m -> (Z.of_nat s < 19999 * Z.of_nat m)%Z ->
      (Z.of_nat (s + m) <= 10 ^ 9)%Z ->
      (completeness_score r < 100)%Q)
  /\ (0 < m -> (19999 * Z.of_nat m <= Z.of_nat s)%Z ->
      (completeness_score r == 100)%Q).
Proof.
  intros Hrun s m.
  destruct (analyze_dependencies_closed_form _ _ _ _ _ Hrun)
    as [_ [_ [_ [_ [_ Hc]]]]].
  fold s m in Hc. rewrite Hc. unfold _calculate_completeness_score.
  split; [intros ->; reflexivity|].
  split; [intros Hs; destruct s; [lia | reflexivity]|].
  split.
  { intros Hs ->. apply (completeness_exact s Hs). }
  destruct (Nat.eqb s 0) eqn:E.
  { apply Nat.eqb_eq in E. split; [split; discriminate|].
    split; [intros _ _ _; reflexivity | intros Hm Hge; rewrite E in Hge; lia]. }
  apply Nat.eqb_neq in E.
  assert (Hle : (round2 (fmul (truediv s (s + m)) 100) <= 100)%Q)
    by (apply percentage_le_100; lia).
  split; [split|split].
  - apply percentage_nonneg.
  - exact Hle.
  - intros Hm Hlt Hsize. unfold truediv.
    apply (Qle_lt_trans _
             (round2 (fmul (nearest_float (99994999999995 # 100000000000000))
                           100))).
    + apply percentage_monotone; [apply ratio_nonneg|].
      apply ratio_le; [lia|]. lia.
    + apply Qlt_alt. vm_compute. reflexivity.
  - intros Hm Hge. apply Qle_antisym; [exact Hle|]. unfold truediv.
    apply (Qle_trans _
             (round2 (fmul (nearest_float (99995 # 100000)) 100))).
    + apply Qle_bool_iff. vm_compute. reflexivity.
    + apply percentage_monotone; [discriminate|].
      apply ratio_ge; [lia|]. lia.
Qed.

End MetricFacts2.

Lemma completeness_score_formula_and_bounds_witness :
  exists r,
    analyze_dependencies Demo.catalog Demo.root Demo.disk
                         ["pkg/a.js"; "pkg/b.js"] = Ret r
    /\ (completeness_score r < 100)%Q.
Proof.
  run_analysis r Hrun.
  exists r. split; [reflexivity|].
  destruct (completeness_score_formula_and_bounds
              Demo.catalog Demo.root Demo.disk ["pkg/a.js"; "pkg/b.js"] r Hrun)
    as [_ [_ [_ [_ [Hlt _]]]]].
  vm_compute in Hrun. injection Hrun as <-.
  apply Hlt; simpl; lia.
Defined.

(** C10 as stated fails: with 20000 selected ids and one missing import
    the score 99.995000... rounds to 100.0, although something is missing.
    (Ids unknown to the catalog are counted as selected and skipped.) *)
Lemma completeness_score_rounds_to_100_counterexample :
  exists r,
    analyze_dependencies Demo.catalog Demo.root Demo.disk
      (repeat "ghost" (Z.to_nat 19999) ++ ["pkg/b.js"]) = Ret r
    /\ List.length (missing_dependencies r) = 1
    /\ (completeness_score r == 100)%Q
    /\ ~ (completeness_score r < 100)%Q
    /\ (_calculate_completeness_score (Z.to_nat 20000) 1 == 100)%Q.
Proof.
  eexists. split; [vm_compute; reflexivity|].
  split; [reflexivity|]. split; [reflexivity|]. split; [|reflexivity].
  intros H. vm_compute in H. discriminate.
Qed.

(** ** Paths and rotations *)

Section Paths.

Variable E : string -> string -> Prop.

Lemma is_path_cons a p :
  is_path E (a :: p) <-> (p = [] \/ E a (hd "" p)) /\ is_path E p.
Proof.
  destruct p as [|b p]; simpl.
  - tauto.
  - split.
    + intros [H1 H2]. auto.
    + intros [[H|H] H2]; [discriminate | auto].
Qed.

(** A path splits at any of its nodes. *)
Lemma is_path_app x b y :
  is_path E (x ++ b :: y) <-> is_path E (x ++ [b]) /\ is_path E (b :: y).
Proof.
  induction x as [|a x IH].
  - simpl. tauto.
  - change ((a :: x) ++ b :: y) with (a :: (x ++ b :: y)).
    change ((a :: x) ++ [b]) with (a :: (x ++ [b])).
    rewrite (is_path_cons a (x ++ b :: y)), (is_path_cons a (x ++ [b])), IH.
    assert (Hhd : hd "" (x ++ b :: y) = hd "" (x ++ [b])) by now destruct x.
    rewrite Hhd. split.
    + intros [[H|H] [H1 H2]]; [destruct x; discriminate|].
      repeat split; auto.
    + intros [[[H|H] H1] H2]; [destruct x; discriminate|].
      repeat split; auto.
Qed.

Lemma last_default_irrelevant (a : string) (l : list string) (d1 d2 : string) :
  last (a :: l) d1 = last (a :: l) d2.
Proof.
  revert a. induction l as [|b l IH]; intros a; [reflexivity|].
  change (last (a :: b :: l) d1) with (last (b :: l) d1).
  change (last (a :: b :: l) d2) with (last (b :: l) d2). apply IH.
Qed.

Lemma is_path_snoc a p x :
  is_path E ((a :: p) ++ [x])
  <-> is_path E (a :: p) /\ E (last (a :: p) "") x.
Proof.
  revert a. induction p as [|b p IH]; intros a.
  - simpl. tauto.
  - change ((a :: b :: p) ++ [x]) with (a :: ((b :: p) ++ [x])).
    change (last (a :: b :: p) "") with (last (b :: p) "").
    rewrite is_path_cons, IH. simpl hd. simpl is_path at 2. split.
    + intros [[H|H] [H1 H2]]; [discriminate | auto].
    + intros [[H1 H2] H3]. auto.
Qed.

Lemma rotation_cycle c c' :
  rotation c c' -> elementary_cycle E c -> elementary_cycle E c'.
Proof.
  intros [l1 [l2 [-> ->]]] [Hne [Hnd Hp]].
  destruct l1 as [|a l1]; [now rewrite app_nil_r|].
  destruct l2 as [|b l2]; [now rewrite app_nil_r in *|].
  split; [discriminate|]. split.
  - apply (Permutation_NoDup (Permutation_app_comm _ _) Hnd).
  - simpl hd in *.
    change (is_path E (((a :: l1) ++ (b :: l2)) ++ [a])) in Hp.
    rewrite <- app_assoc in Hp.
    change (is_path E ((a :: l1) ++ b :: (l2 ++ [a]))) in Hp.
    apply is_path_app in Hp. destruct Hp as [H1 H2].
    rewrite <- app_assoc.
    change (is_path E ((b :: l2) ++ a :: (l1 ++ [b]))).
    apply is_path_app. split; assumption.
Qed.

End Paths.

Lemma rotation_sym c c' : rotation c c' -> rotation c' c.
Proof. intros [l1 [l2 [-> ->]]]. now exists l2, l1. Qed.

Lemma rotation_In c c' x : rotation c c' -> In x c -> In x c'.
Proof.
  intros [l1 [l2 [-> ->]]]. rewrite !in_app_iff. tauto.
Qed.

(** Two listings of one cycle are listings of each other. *)
Lemma rotation_of_same c c1 c2 :
  rotation c c1 -> rotation c c2 -> rotation c1 c2.
Proof.
  intros [l1 [l2 [-> ->]]] [m1 [m2 [E ->]]].
  apply app_eq_app in E. destruct E as [l [[-> ->]|[-> ->]]].
  - exists (l2 ++ m1), l. split; now rewrite <- ?app_assoc.
  - exists l, (m2 ++ l1). split; now rewrite <- ?app_assoc.
Qed.

(** Two listings of a cycle that start at the same node are equal. *)
Lemma rotation_same_head v q1 q2 :
  NoDup (v :: q1) -> rotation (v :: q1) (v :: q2) -> q1 = q2.
Proof.
  intros Hnd [l1 [l2 [H1 H2]]].
  destruct l1 as [|a l1].
  - simpl in H1. rewrite app_nil_r in H2. congruence.
  - destruct l2 as [|b l2].
    + rewrite app_nil_r in H1. simpl in H2. congruence.
    + exfalso. simpl in H1, H2. injection H1 as <- H1. injection H2 as <- H2.
      subst q1. inversion Hnd as [|? ? Hnotin _]. apply Hnotin.
      apply in_or_app. right. now left.
Qed.

Lemma is_path_ext (E1 E2 : string -> string -> Prop) p :
  (forall u v, E1 u v -> E2 u v) -> is_path E1 p -> is_path E2 p.
Proof.
  intros H. induction p as [|a p IH]; [auto|].
  destruct p as [|b p]; [auto|]. intros [H1 H2]. split; auto.
Qed.

Lemma elementary_cycle_ext (E1 E2 : string -> string -> Prop) c :
  (forall u v, E1 u v -> E2 u v) ->
  elementary_cycle E1 c -> elementary_cycle E2 c.
Proof.
  intros H [H1 [H2 H3]]. repeat split; auto. now apply (is_path_ext E1).
Qed.

(** Every node of an elementary cycle has an outgoing edge. *)
Lemma cycle_node_has_edge (E : string -> string -> Prop) c x :
  elementary_cycle E c -> In x c -> exists y, E x y.
Proof.
  intros [Hne [_ Hp]] Hin. apply in_split in Hin.
  destruct Hin as [l1 [l2 ->]].
  rewrite <- app_assoc in Hp. apply is_path_app in Hp. destruct Hp as [_ Hp].
  change ((x :: l2) ++ [hd "" (l1 ++ x :: l2)])
    with (x :: (l2 ++ [hd "" (l1 ++ x :: l2)])) in Hp.
  apply is_path_cons in Hp. destruct Hp as [[H|H] _]; eauto.
  destruct l2; discriminate.
Qed.

(** ** The cycle enumeration meets the contract of [simple_cycles] *)

Lemma NoDup_flat_map_disjoint {A B} (f : A -> list B) (l : list A) :
  NoDup l ->
  (forall x, In x l -> NoDup (f x)) ->
  (forall x y z, In x l -> In y l -> x <> y -> In z (f x) -> ~ In z (f y)) ->
  NoDup (flat_map f l).
Proof.
  induction 1 as [|a l Hnotin Hnd IH]; simpl; intros Hpiece Hdisj.
  - constructor.
  - apply NoDup_app.
    + apply Hpiece. now left.
    + apply IH.
      * intros x Hx. apply Hpiece. now right.
      * intros x y z Hx Hy. apply Hdisj; now right.
    + intros z Hz Hz'. apply in_flat_map in Hz'. destruct Hz' as [y [Hy Hzy]].
      assert (Hay : a <> y) by (intros ->; contradiction).
      exact (Hdisj a y z (or_introl eq_refl) (or_intror Hy) Hay Hz Hzy).
Qed.

Lemma NoDup_map_cons {A} (a : A) (l : list (list A)) :
  NoDup l -> NoDup (map (cons a) l).
Proof.
  induction 1 as [|p l Hnotin Hnd IH]; simpl; constructor; auto.
  rewrite in_map_iff. intros [p' [Heq Hin]]. injection Heq as ->.
  contradiction.
Qed.

Lemma remove_In (w x : string) (l : list string) :
  In x (remove w l) <-> In x l /\ x <> w.
Proof.
  unfold remove. rewrite filter_In, negb_true_iff, String.eqb_neq.
  split; intros [H1 H2]; split; auto.
Qed.

Section Enumeration.

Variable g : DiGraph.
Hypothesis Hedges : NoDup (g_edges g).

Lemma successors_In u v : In v (successors g u) <-> graph_edge g u v.
Proof.
  unfold successors, graph_edge. rewrite in_map_iff. split.
  - intros [[a b] [<- Hin]]. apply filter_In in Hin. destruct Hin as [Hin E].
    simpl in *. apply String.eqb_eq in E. now subst.
  - intros Hin. exists (u, v). split; auto. apply filter_In. split; auto.
    apply String.eqb_refl.
Qed.

Lemma successors_NoDup u : NoDup (successors g u).
Proof.
  unfold successors. revert Hedges.
  induction (g_edges g) as [|[a b] es IH]; simpl; intros Hnd; [constructor|].
  inversion Hnd as [|? ? Hnotin Hnd']; subst.
  destruct (String.eqb a u) eqn:E; simpl; [|now apply IH].
  apply String.eqb_eq in E. subst a. constructor; [|now apply IH].
  rewrite in_map_iff. intros [[a' b'] [Hb Hin]]. simpl in Hb. subst b'.
  apply filter_In in Hin. destruct Hin as [Hin E]. simpl in E.
  apply String.eqb_eq in E. subst a'. contradiction.
Qed.

Lemma simple_paths_sound fuel avail cur p :
  In p (simple_paths g fuel avail cur) ->
  exists q, p = cur :: q /\ NoDup q /\ incl q avail
            /\ is_path (graph_edge g) (cur :: q).
Proof.
  revert avail cur p. induction fuel as [|fuel IH]; intros avail cur p; simpl.
  - intros [<-|[]]. exists []. repeat split; [constructor | intros x []].
  - intros [<-|H].
    + exists []. repeat split; [constructor | intros x []].
    + apply in_flat_map in H. destruct H as [w [Hw H]].
      destruct (elem w avail) eqn:Hav; [|destruct H].
      apply elem_In in Hav. apply in_map_iff in H.
      destruct H as [p' [<- Hp']].
      destruct (IH _ _ _ Hp') as [q' [-> [Hnd [Hincl Hpath]]]].
      exists (w :: q'). repeat split.
      * constructor; auto. intros Hin. apply Hincl, remove_In in Hin. tauto.
      * intros x [<-|Hx]; auto. apply Hincl, remove_In in Hx. tauto.
      * now apply successors_In.
      * exact Hpath.
Qed.

Lemma simple_paths_complete q :
  forall fuel avail cur,
    NoDup q -> incl q avail -> is_path (graph_edge g) (cur :: q) ->
    List.length q <= fuel ->
    In (cur :: q) (simple_paths g fuel avail cur).
Proof.
  induction q as [|w q IH]; intros fuel avail cur Hnd Hincl Hpath Hlen.
  - destruct fuel; simpl; auto.
  - destruct fuel as [|fuel]; [simpl in Hlen; lia|].
    simpl. right. apply in_flat_map. exists w.
    destruct Hpath as [Hedge Hpath]. split; [now apply successors_In|].
    assert (Hw : elem w avail = true) by (apply elem_In, Hincl; now left).
    rewrite Hw. apply in_map. inversion Hnd as [|? ? Hnotin Hnd']; subst.
    apply IH; auto.
    + intros x Hx. apply remove_In. split; [apply Hincl; now right|].
      intros ->. contradiction.
    + simpl in Hlen. lia.
Qed.

Lemma simple_paths_NoDup fuel avail cur :
  NoDup (simple_paths g fuel avail cur).
Proof.
  revert avail cur. induction fuel as [|fuel IH]; intros avail cur; simpl.
  - repeat constructor. intros [].
  - constructor.
    + rewrite in_flat_map. intros [w [_ H]].
      destruct (elem w avail); [|destruct H].
      apply in_map_iff in H. destruct H as [p' [Heq Hp']].
      injection Heq as ->. apply simple_paths_sound in Hp'.
      destruct Hp' as [q [Hq _]]. discriminate.
    + apply NoDup_flat_map_disjoint.
      * apply successors_NoDup.
      * intros w _. destruct (elem w avail); [|constructor].
        apply NoDup_map_cons, IH.
      * intros w w' z _ _ Hne Hz Hz'.
        destruct (elem w avail); [|destruct Hz].
        destruct (elem w' avail); [|destruct Hz'].
        apply in_map_iff in Hz. destruct Hz as [p [<- Hp]].
        apply in_map_iff in Hz'. destruct Hz' as [p' [Heq Hp']].
        injection Heq as ->.
        apply simple_paths_sound in Hp. destruct Hp as [q [-> _]].
        apply simple_paths_sound in Hp'. destruct Hp' as [q' [Hq' _]].
        congruence.
Qed.

(** The cycles listed from [v]: their other nodes lie in [later]. *)
Lemma cycles_rooted_spec v later c :
  ~ In v later ->
  (In c (cycles_rooted g v later)
   <-> exists q, c = v :: q /\ incl q later
                 /\ elementary_cycle (graph_edge g) c).
Proof.
  intros Hv. unfold cycles_rooted. rewrite filter_In, has_edge_In. split.
  - intros [Hin Hclose]. apply simple_paths_sound in Hin.
    destruct Hin as [q [-> [Hnd [Hincl Hpath]]]].
    exists q. split; [reflexivity|]. split; [exact Hincl|].
    split; [discriminate|]. split.
    + constructor; auto.
    + simpl hd. apply is_path_snoc. split; [exact Hpath|].
      rewrite (last_default_irrelevant v q "" v). exact Hclose.
  - intros [q [-> [Hincl [_ [Hnd Hpath]]]]].
    simpl hd in Hpath. apply is_path_snoc in Hpath.
    destruct Hpath as [Hpath Hclose].
    inversion Hnd as [|? ? Hnotin Hnd']; subst. split.
    + apply simple_paths_complete; auto.
      now apply NoDup_incl_length.
    + rewrite (last_default_irrelevant v q v ""). exact Hclose.
Qed.

Lemma cycles_from_sound vs c :
  NoDup vs -> In c (cycles_from g vs) ->
  elementary_cycle (graph_edge g) c /\ incl c vs.
Proof.
  induction vs as [|v later IH]; simpl; intros Hnd; [intros []|].
  inversion Hnd as [|? ? Hnotin Hnd']; subst.
  rewrite in_app_iff. intros [H|H].
  - apply cycles_rooted_spec in H; auto.
    destruct H as [q [-> [Hincl Hc]]]. split; auto.
    intros x [<-|Hx]; [now left | right; auto].
  - destruct (IH Hnd' H) as [Hc Hincl]. split; auto.
    intros x Hx. right. auto.
Qed.

Lemma cycles_from_complete vs c :
  NoDup vs -> elementary_cycle (graph_edge g) c -> incl c vs ->
  exists c', rotation c c' /\ In c' (cycles_from g vs).
Proof.
  induction vs as [|v later IH]; intros Hnd Hc Hincl.
  - destruct Hc as [Hne _]. destruct c as [|x c]; [congruence|].
    destruct (Hincl x); now left.
  - inversion Hnd as [|? ? Hnotin Hnd']; subst.
    destruct (in_dec string_dec v c) as [Hin|Hout].
    + apply in_split in Hin. destruct Hin as [l1 [l2 ->]].
      assert (Hrot : rotation (l1 ++ v :: l2) (v :: l2 ++ l1))
        by (exists l1, (v :: l2); auto).
      exists (v :: l2 ++ l1). split; [exact Hrot|].
      simpl. apply in_or_app. left. apply cycles_rooted_spec; auto.
      exists (l2 ++ l1). split; [reflexivity|]. split.
      * pose proof (rotation_cycle _ _ _ Hrot Hc) as [_ [Hnd2 _]].
        inversion Hnd2 as [|? ? Hv _]; subst.
        intros x Hx. assert (Hx' : In x (l1 ++ v :: l2)).
        { apply in_app_or in Hx. apply in_or_app.
          destruct Hx; [right; now right | now left]. }
        destruct (Hincl x Hx') as [<-|H]; [contradiction | exact H].
      * apply (rotation_cycle _ _ _ Hrot Hc).
    + destruct (IH Hnd' Hc) as [c' [Hrot Hin]].
      * intros x Hx. destruct (Hincl x Hx) as [<-|H]; [contradiction | exact H].
      * exists c'. split; auto. simpl. apply in_or_app. now right.
Qed.

Lemma cycles_from_NoDup vs : NoDup vs -> NoDup (cycles_from g vs).
Proof.
  induction vs as [|v later IH]; simpl; intros Hnd; [constructor|].
  inversion Hnd as [|? ? Hnotin Hnd']; subst.
  apply NoDup_app.
  - apply NoDup_filter, simple_paths_NoDup.
  - now apply IH.
  - intros c Hc Hc'. apply cycles_rooted_spec in Hc; auto.
    destruct Hc as [q [-> _]].
    destruct (cycles_from_sound _ _ Hnd' Hc') as [_ Hincl].
    apply Hnotin, Hincl. now left.
Qed.

Lemma cycles_from_rotation vs c1 c2 :
  NoDup vs -> In c1 (cycles_from g vs) -> In c2 (cycles_from g vs) ->
  rotation c1 c2 -> c1 = c2.
Proof.
  induction vs as [|v later IH]; simpl; intros Hnd; [intros []|].
  inversion Hnd as [|? ? Hnotin Hnd']; subst.
  rewrite !in_app_iff. intros [H1|H1] [H2|H2] Hrot.
  - apply cycles_rooted_spec in H1; auto. apply cycles_rooted_spec in H2; auto.
    destruct H1 as [q1 [-> [_ [_ [Hnd1 _]]]]]. destruct H2 as [q2 [-> _]].
    f_equal. apply (rotation_same_head _ _ _ Hnd1 Hrot).
  - exfalso. apply cycles_rooted_spec in H1; auto.
    destruct H1 as [q1 [-> _]].
    destruct (cycles_from_sound _ _ Hnd' H2) as [_ Hincl].
    apply Hnotin, Hincl. apply (rotation_In _ _ _ Hrot). now left.
  - exfalso. apply cycles_rooted_spec in H2; auto.
    destruct H2 as [q2 [-> _]].
    destruct (cycles_from_sound _ _ Hnd' H1) as [_ Hincl].
    apply Hnotin, Hincl. apply (rotation_In _ _ _ (rotation_sym _ _ Hrot)). now left.
  - now apply IH.
Qed.

End Enumeration.

(** ** Circular dependencies *)

Section CycleListFacts.

Context {os : OS}.

Section CycleList.

Variable all_files : dict FileInfo.
Variable root_dir : list string.
Variable fs : FileSystem.
Variable selected : list string.
Variable r : AnalysisResult.
Hypothesis Hrun : analyze_dependencies all_files root_dir fs selected = Ret r.

Let G := dependency_graph all_files root_dir fs selected.

Lemma dependency_graph_wf :
  NoDup (g_nodes G) /\ NoDup (g_edges G)
  /\ (forall u v, graph_edge G u v <-> depends_on r u v)
  /\ (forall x, In x (g_nodes G) -> In x selected)
  /\ (forall u v, graph_edge G u v -> In u (g_nodes G)).
Proof.
  unfold G, dependency_graph.
  destruct (fold_add_edge
              (edges_of all_files root_dir (file_path_to_id all_files selected)
                        (initial_nodes all_files fs selected))
              (snd (fold_left (make_node all_files fs) selected ([], NX.empty))))
    as [He [Hn [Hndn Hnde]]].
  destruct (make_nodes_graph all_files fs selected ([], NX.empty))
    as [Hg0e [Hg0n Hg0nd]].
  simpl in Hg0e, Hg0n, Hg0nd.
  assert (Hedge : forall u v,
             In (u, v) (edges_of all_files root_dir
                          (file_path_to_id all_files selected)
                          (initial_nodes all_files fs selected))
             <-> depends_on r u v).
  { intros u v. split.
    - intros Hin. destruct (result_edge _ _ _ _ _ Hrun _ _ Hin) as [Hu _].
      apply in_map_iff in Hu. destruct Hu as [[u' n] [Hu' Hn']].
      simpl in Hu'. subst u'.
      pose proof (result_node_In _ _ _ _ _ Hrun _ _ Hn') as Hget.
      exists n. split; [exact Hget|].
      now apply (result_node_edges _ _ _ _ _ Hrun u n Hget).
    - intros [n [Hget Hin]].
      now apply (result_node_edges _ _ _ _ _ Hrun u n Hget). }
  split; [apply Hndn, Hg0nd; constructor|].
  split; [apply Hnde; rewrite Hg0e; constructor|].
  split; [|split].
  - intros u v. unfold graph_edge. rewrite He, Hg0e. rewrite <- Hedge.
    simpl. tauto.
  - intros x Hx. apply Hn in Hx. destruct Hx as [[e [He' Hx]]|Hx].
    + destruct e as [u v]. apply Hedge in He'.
      assert (Huv : In (u, v) (edges_of all_files root_dir
                                 (file_path_to_id all_files selected)
                                 (initial_nodes all_files fs selected)))
        by now apply Hedge.
      destruct (result_edge _ _ _ _ _ Hrun _ _ Huv) as [Hu [Hv _]].
      apply (result_keys _ _ _ _ _ Hrun) in Hu.
      apply (result_keys _ _ _ _ _ Hrun) in Hv.
      simpl in Hx. destruct Hx as [->| ->]; tauto.
    + apply Hg0n in Hx. simpl in Hx. tauto.
  - intros u v Huv. unfold graph_edge in Huv. apply He in Huv.
    rewrite Hg0e in Huv. destruct Huv as [Huv|[]].
    apply Hn. left. exists (u, v). auto.
Qed.

End CycleList.

(** C7: the cycle list of a result consists of elementary cycles of the
    resolved dependency relation, all of whose nodes are selected; every
    elementary cycle of that relation is listed, from one of its nodes;
    no cycle is listed twice, be it from the same or from another start;
    so when A depends on B, B on C and C on A the list holds that cycle
    exactly once; and the list is empty when the relation has no cycle.
    (The listing itself is that of [networkx.simple_cycles], taken by its
    contract.) *)
Theorem circular_dependencies_are_the_elementary_cycles
  (all_files : dict FileInfo) (root_dir : list string) (fs : FileSystem)
  (selected : list string) (r : AnalysisResult) :
  analyze_dependencies all_files root_dir fs selected = Ret r ->
  (forall c, In c (circular_dependencies r) ->
             elementary_cycle (depends_on r) c /\ incl c selected)
  /\ (forall c, elementary_cycle (depends_on r) c ->
                exists c', rotation c c' /\ In c' (circular_dependencies r))
  /\ NoDup (circular_dependencies r)
  /\ (forall c1 c2, In c1 (circular_dependencies r) ->
                    In c2 (circular_dependencies r) ->
                    rotation c1 c2 -> c1 = c2)
  /\ (forall a b c,
        NoDup [a; b; c] ->
        depends_on r a b -> depends_on r b c -> depends_on r c a ->
        exists l, In l (circular_dependencies r) /\ rotation [a; b; c] l
                  /\ forall l', In l' (circular_dependencies r) ->
                                rotation [a; b; c] l' -> l' = l)
  /\ ((forall c, ~ elementary_cycle (depends_on r) c) ->
      circular_dependencies r = []).
Proof.
  intros Hrun.
  destruct (analyze_dependencies_closed_form _ _ _ _ _ Hrun)
    as [_ [_ [Hc _]]].
  destruct (dependency_graph_wf _ _ _ _ _ Hrun)
    as [Hnodes [Hedges [Hrel [Hsel Hsrc]]]].
  rewrite Hc. unfold simple_cycles.
  set (G := dependency_graph all_files root_dir fs selected) in *.
  assert (Hsound : forall c, In c (cycles_from G (g_nodes G)) ->
                     elementary_cycle (depends_on r) c /\ incl c selected).
  { intros c Hin.
    destruct (cycles_from_sound G _ _ Hnodes Hin) as [Hcyc Hincl].
    split.
    - apply (elementary_cycle_ext (graph_edge G)); [|exact Hcyc].
      intros u v. apply Hrel.
    - intros x Hx. auto. }
  assert (Hcomplete : forall c, elementary_cycle (depends_on r) c ->
                        exists c', rotation c c'
                                   /\ In c' (cycles_from G (g_nodes G))).
  { intros c Hcyc.
    assert (Hg : elementary_cycle (graph_edge G) c).
    { apply (elementary_cycle_ext (depends_on r)); [|exact Hcyc].
      intros u v. apply Hrel. }
    apply (cycles_from_complete G _ _ Hnodes Hg).
    intros x Hx. destruct (cycle_node_has_edge _ _ _ Hg Hx) as [y Hxy].
    now apply (Hsrc x y). }
  split; [exact Hsound|]. split; [exact Hcomplete|].
  split; [|split; [|split]].
  - now apply cycles_from_NoDup.
  - intros c1 c2. now apply (cycles_from_rotation G).
  - intros a b c Hnd Hab Hbc Hca.
    destruct (Hcomplete [a; b; c]) as [l [Hrot Hin]].
    { split; [discriminate|]. split; [exact Hnd|]. simpl. tauto. }
    exists l. split; [exact Hin|]. split; [exact Hrot|].
    intros l' Hin' Hrot'.
    apply (cycles_from_rotation G _ _ _ Hnodes Hin' Hin).
    apply (rotation_of_same _ _ _ Hrot' Hrot).
  - intros Hnone. destruct (cycles_from G (g_nodes G)) as [|c l] eqn:E;
      [reflexivity|].
    exfalso. apply (Hnone c). apply Hsound. now left.
Qed.

End CycleListFacts.

Lemma circular_dependencies_are_the_elementary_cycles_witness :
  exists r,
    analyze_dependencies Demo.ring_catalog Demo.root Demo.ring_disk
                         ["a.js"; "b.js"; "c.js"] = Ret r
    /\ circular_dependencies r = [["a.js"; "b.js"; "c.js"]]
    /\ elementary_cycle (depends_on r) ["a.js"; "b.js"; "c.js"].
Proof.
  run_analysis r Hrun.
  exists r. split; [reflexivity|].
  destruct (circular_dependencies_are_the_elementary_cycles
              Demo.ring_catalog Demo.root Demo.ring_disk
              ["a.js"; "b.js"; "c.js"] r Hrun) as [Hsound _].
  assert (Hc : circular_dependencies r = [["a.js"; "b.js"; "c.js"]]).
  { vm_compute in Hrun. injection Hrun as <-. reflexivity. }
  split; [exact Hc|]. apply Hsound. rewrite Hc. now left.
Defined.

(* ------------------------------------------------------------------ *)
(** * Further properties of the analyzer *)

(** ** The nodes of a result *)

Lemma filter_filter_comm {A} (p q : A -> bool) (l : list A) :
  filter p (filter q l) = filter q (filter p l).
Proof.
  induction l as [|a l IH]; simpl; [reflexivity|].
  destruct (p a) eqn:Hp; destruct (q a) eqn:Hq; simpl;
    rewrite ?Hp, ?Hq, IH; reflexivity.
Qed.

Lemma filter_absorb (x : string) (p : string -> bool) (l : list string) :
  p x = false ->
  filter p (filter (fun y => negb (String.eqb x y)) l) = filter p l.
Proof.
  intros Hx. induction l as [|a l IH]; simpl; [reflexivity|].
  destruct (String.eqb x a) eqn:E; simpl.
  - apply String.eqb_eq in E. subst a. now rewrite Hx.
  - destruct (p a); now rewrite IH.
Qed.

Lemma list_set_filter (p : string -> bool) (l : list string) :
  list_set (filter p l) = filter p (list_set l).
Proof.
  induction l as [|a l IH]; simpl; [reflexivity|].
  destruct (p a) eqn:Hp; simpl.
  - now rewrite IH, filter_filter_comm.
  - now rewrite IH, filter_absorb.
Qed.

Lemma keys_set_append {V} (k : string) (v : V) (d : dict V) :
  keys (set k v d) = if mem k d then keys d else keys d ++ [k].
Proof.
  unfold mem. induction d as [|[k' v'] d IH]; simpl; [reflexivity|].
  destruct (String.eqb k' k) eqn:E; simpl.
  - apply String.eqb_eq in E. now subst.
  - rewrite IH. now destruct (get k d).
Qed.

Lemma elem_app (x : string) (l1 l2 : list string) :
  elem x (l1 ++ l2) = elem x l1 || elem x l2.
Proof. unfold elem. apply existsb_app. Qed.

Section NodeOrder.

Variable all_files : dict FileInfo.
Variable fs : FileSystem.

Lemma make_nodes_key_order selected st :
  keys (fst (fold_left (make_node all_files fs) selected st))
  = keys (fst st)
    ++ list_set (filter (fun k => negb (elem k (keys (fst st))))
                        (known_ids all_files selected)).
Proof.
  revert st. induction selected as [|x l IH]; intros st; simpl.
  - now rewrite app_nil_r.
  - rewrite IH. unfold make_node, mem.
    destruct (get x all_files) as [info|] eqn:Hx; simpl; [|reflexivity].
    rewrite keys_set_append.
    destruct (Py.mem x (fst st)) eqn:Hm.
    + assert (He : elem x (keys (fst st)) = true)
        by (apply elem_In, mem_keys; exact Hm).
      now rewrite He.
    + assert (He : elem x (keys (fst st)) = false).
      { apply elem_not_In. intros Hin. apply mem_keys in Hin. congruence. }
      rewrite He. simpl. rewrite <- app_assoc. simpl. do 2 f_equal.
      rewrite <- list_set_filter. f_equal.
      assert (Hf : forall K,
                 filter (fun k => negb (elem k (keys (fst st) ++ [x]))) K
                 = filter (fun y => negb (String.eqb x y))
                          (filter (fun k => negb (elem k (keys (fst st)))) K)).
      { intros K. induction K as [|a K IHK]; simpl; [reflexivity|].
        rewrite elem_app. simpl. rewrite orb_false_r, (String.eqb_sym a x).
        destruct (elem a (keys (fst st))); simpl; [exact IHK|].
        destruct (String.eqb x a); simpl; now rewrite IHK. }
      apply Hf.
Qed.

Lemma initial_nodes_key_order selected :
  keys (initial_nodes all_files fs selected)
  = list_set (known_ids all_files selected).
Proof.
  unfold initial_nodes. rewrite make_nodes_key_order. simpl. f_equal.
  induction (known_ids all_files selected) as [|a l IH]; simpl; congruence.
Qed.

End NodeOrder.

Lemma after_edges_identity es k n :
  file_id (after_edges es k n) = file_id n
  /\ exports (after_edges es k n) = exports n.
Proof.
  revert n. unfold after_edges.
  induction es as [|e es IH]; intros n; simpl; [auto|].
  destruct (IH (after_edge k n e)) as [H1 H2]. rewrite H1, H2.
  unfold after_edge.
  destruct (String.eqb k (fst e)); destruct (String.eqb k (snd e)); auto.
Qed.

Lemma extract_exports_NoDup fs p ext : NoDup (_extract_exports fs p ext).
Proof.
  unfold _extract_exports. destruct (fs (str p)); [|constructor].
  apply NoDup_list_set.
Qed.

Section SelectionFacts.

Context {os : OS}.

(** X1: the result has one node per selected id that the catalog knows,
    unknown ids being skipped and repeated ids merged, in the order in
    which the ids are first selected; every node carries its own id, the
    relative path and the extension of its catalog entry, and import and
    export lists without repetition. *)
Theorem result_nodes_mirror_selection
  (all_files : dict FileInfo) (root_dir : list string) (fs : FileSystem)
  (selected : list string) (r : AnalysisResult) :
  analyze_dependencies all_files root_dir fs selected = Ret r ->
  keys (nodes r) = list_set (known_ids all_files selected)
  /\ forall k n, In (k, n) (nodes r) ->
       exists info,
         get k all_files = Some info
         /\ file_id n = k
         /\ file_path n = relative_path info
         /\ file_type n = extension info
         /\ NoDup (imports n) /\ NoDup (exports n).
Proof.
  intros Hrun.
  destruct (analyze_dependencies_closed_form _ _ _ _ _ Hrun) as [Hn _].
  split.
  - rewrite Hn.
    rewrite (keys_map_values (fun k n => classify (after_edges _ k n))).
    apply initial_nodes_key_order.
  - intros k n Hin. rewrite Hn in Hin. apply in_map_iff in Hin.
    destruct Hin as [[k0 n0] [Heq Hin]]. simpl in Heq. injection Heq as <- <-.
    destruct (initial_nodes_spec all_files fs selected) as [_ [_ H3]].
    destruct (H3 _ _ Hin) as [info [Hinfo ->]].
    exists info. split; [exact Hinfo|].
    match goal with
    | |- context [after_edges ?es k0 ?n] =>
        destruct (after_edges_fields es k0 n) as [_ [_ [F1 [F2 F3]]]];
        destruct (after_edges_identity es k0 n) as [F4 F5]
    end.
    simpl. rewrite F1, F2, F3, F4, F5. simpl.
    repeat split; auto using extract_imports_NoDup, extract_exports_NoDup.
Qed.

End SelectionFacts.

Lemma result_nodes_mirror_selection_witness :
  exists r,
    analyze_dependencies Demo.catalog Demo.root Demo.disk
      ["pkg/b.js"; "ghost"; "pkg/a.js"; "pkg/b.js"] = Ret r
    /\ keys (nodes r) = ["pkg/b.js"; "pkg/a.js"].
Proof.
  run_analysis r Hrun. exists r. split; [reflexivity|].
  destruct (result_nodes_mirror_selection Demo.catalog Demo.root Demo.disk
              ["pkg/b.js"; "ghost"; "pkg/a.js"; "pkg/b.js"] r Hrun) as [Hk _].
  rewrite Hk. reflexivity.
Defined.

(** ** Selections the catalog does not know *)

Lemma make_nodes_unknown all_files fs selected st :
  (forall k, In k selected -> mem k all_files = false) ->
  fold_left (make_node all_files fs) selected st = st.
Proof.
  revert st. induction selected as [|x l IH]; intros st H; simpl; [reflexivity|].
  assert (Hx : get x all_files = None).
  { specialize (H x (or_introl eq_refl)). unfold mem in H.
    now destruct (get x all_files). }
  unfold make_node at 2. rewrite Hx. apply IH. intros k Hk. apply H. now right.
Qed.

Section EmptyFacts.

Context {os : OS}.

(** X2: when none of the selected ids is in the catalog, and so for the
    empty selection, the analysis returns without raising a result that
    has no nodes, no missing dependencies, no cycles, all-zero metrics and
    an empty graph; its completeness score is 0 for the empty selection
    and 100 for any other selection of unknown ids. *)
Theorem unknown_selection_gives_empty_result
  (all_files : dict FileInfo) (root_dir : list string) (fs : FileSystem)
  (selected : list string) :
  (forall k, In k selected -> mem k all_files = false) ->
  analyze_dependencies all_files root_dir fs selected
  = Ret (empty_result (List.length selected))
  /\ (selected = [] ->
      completeness_score (empty_result (List.length selected)) = 0%Q)
  /\ (selected <> [] ->
      (completeness_score (empty_result (List.length selected)) == 100)%Q).
Proof.
  intros H. split; [|split].
  - unfold analyze_dependencies.
    rewrite (make_nodes_unknown all_files fs selected _ H). reflexivity.
  - intros ->. reflexivity.
  - intros Hne. simpl. apply completeness_exact.
    destruct selected; [congruence | simpl; lia].
Qed.

End EmptyFacts.

Lemma unknown_selection_gives_empty_result_witness :
  analyze_dependencies Demo.catalog Demo.root Demo.disk ["ghost"; "phantom"]
  = Ret (empty_result 2)
  /\ (completeness_score (empty_result 2) == 100)%Q.
Proof.
  destruct (unknown_selection_gives_empty_result
              Demo.catalog Demo.root Demo.disk ["ghost"; "phantom"])
    as [H1 [_ H3]].
  - intros k [<-|[<-|[]]]; reflexivity.
  - split; [exact H1 | apply H3; discriminate].
Defined.

(** ** When the analysis raises *)

Lemma for_each_raises {A S} (xs : list A) (body : S -> A -> result S) (x : A) :
  In x xs -> (forall s, exists e, body s x = Raise e) ->
  forall s, exists e, for_each xs body s = Raise e.
Proof.
  induction xs as [|a xs IH]; intros Hin Hx s; [destruct Hin|].
  simpl. destruct Hin as [->|Hin].
  - destruct (Hx s) as [e ->]. simpl. eauto.
  - destruct (body s a) as [s1|e]; simpl; [now apply IH | eauto].
Qed.

Section EmptyFacts2.

Context {os : OS}.

Lemma resolve_import_path_raises all_files root_dir imp dir ftype resolved :
  startswith "." imp = true ->
  os_resolve (joinpath (joinpath (root_path root_dir) dir) (Path imp))
  = Some resolved ->
  name resolved = "" ->
  exists e, _resolve_import_path all_files root_dir imp dir ftype = Raise e.
Proof.
  intros Hrel Hres Hname. unfold _resolve_import_path.
  rewrite Hrel, Hres. simpl.
  assert (Hd : exists e, try_direct all_files root_dir resolved
                           (extensions_for ftype) = Raise e).
  { destruct (extensions_for_cases ftype) as [-> | ->]; simpl;
      unfold with_suffix; rewrite Hname; simpl; eauto. }
  destruct Hd as [e ->]. simpl. eauto.
Qed.

(** X3: the analysis returns a result exactly when no import of an
    analysed file leads to the root of the file system, that is, starts
    with a dot and is resolved by the file system, from the importing
    directory under the project root, to a path with an empty name, [/];
    for such an import [with_suffix] raises and the exception leaves
    [analyze_dependencies].  An import for which [resolve()] itself raises
    is unresolved and stops nothing. *)
Theorem analysis_returns_unless_import_climbs_to_root
  (all_files : dict FileInfo) (root_dir : list string) (fs : FileSystem)
  (selected : list string) :
  (exists r, analyze_dependencies all_files root_dir fs selected = Ret r)
  <-> (forall k n imp,
          In (k, n) (initial_nodes all_files fs selected) ->
          In imp (imports n) -> ~ climbs_to_root root_dir n imp).
Proof.
  split.
  - intros [r Hrun] k n imp Hin Himp [Hrel [resolved [Hres Hname]]].
    destruct (resolve_import_path_raises all_files root_dir imp
                (parent (Path (file_path n))) (file_type n) resolved
                Hrel Hres Hname)
      as [e He].
    unfold analyze_dependencies, _resolve_dependencies in Hrun.
    fold (initial_nodes all_files fs selected) in Hrun.
    destruct (for_each_raises (initial_nodes all_files fs selected)
                (link_node all_files root_dir (file_path_to_id all_files selected))
                (k, n) Hin) with
      (s := (initial_nodes all_files fs selected,
             snd (fold_left (make_node all_files fs) selected ([], NX.empty))))
      as [e' He'].
    + intros s. unfold link_node. simpl.
      apply (for_each_raises (imports n) _ imp Himp).
      intros s0. unfold link_import. rewrite He. simpl. eauto.
    + rewrite He' in Hrun. discriminate.
  - intros Hsafe. apply analyze_dependencies_returns.
    intros k n imp Hin Himp.
    destruct (startswith "." imp) eqn:Hrel.
    + apply resolve_import_path_returns. intros resolved Hres Hname.
      apply (Hsafe k n imp Hin Himp). split; [exact Hrel|]. eauto.
    + exists None. unfold _resolve_import_path. now rewrite Hrel.
Qed.

End EmptyFacts2.

Lemma analysis_returns_unless_import_climbs_to_root_witness :
  (exists r, analyze_dependencies Demo.catalog Demo.root Demo.disk
               ["pkg/a.js"; "pkg/b.js"] = Ret r)
  /\ exists e, analyze_dependencies [Demo.file "main.js"] Demo.root
                 (fun _ => Some (Demo.js [".."])) ["main.js"] = Raise e.
Proof.
  split.
  - apply (analysis_returns_unless_import_climbs_to_root
             Demo.catalog Demo.root Demo.disk ["pkg/a.js"; "pkg/b.js"]).
    intros k n imp Hin Himp [_ [resolved [Hres Hname]]]. vm_compute in Hin.
    destruct Hin as [H|[H|[]]]; injection H as <- <-; simpl in Himp;
      destruct Himp as [<-|[]]; vm_compute in Hres; injection Hres as <-;
      vm_compute in Hname; discriminate.
  - eexists. vm_compute. reflexivity.
Defined.

(** ** Imports that are not relative, files that cannot be read *)

Section TraceFacts.

Context {os : OS}.

Section MissingOrigin.

Variable all_files : dict FileInfo.
Variable root_dir : list string.
Variable fs : FileSystem.
Variable selected : list string.
Variable r : AnalysisResult.
Hypothesis Hrun : analyze_dependencies all_files root_dir fs selected = Ret r.

(** Every entry of the missing list was appended for one import of one
    node. *)
Lemma missing_entry_origin m :
  In m (missing_dependencies r) ->
  exists nA,
    get (required_by m) (nodes r) = Some nA
    /\ In (missing_import m) (imports nA)
    /\ In m (missing_entry all_files root_dir
               (selected_paths all_files selected)
               (required_by m, nA) (missing_import m)).
Proof.
  destruct (analyze_dependencies_closed_form _ _ _ _ _ Hrun) as [_ [Hm _]].
  rewrite Hm. intros Hin. apply in_flat_map in Hin.
  destruct Hin as [[k n] [Hk Hin]]. apply in_flat_map in Hin.
  destruct Hin as [imp [Himp Hin]]. simpl in Himp.
  destruct (missing_entry_fields _ _ _ _ _ _ Hin) as [H1 H2].
  simpl in H1. subst k imp.
  exists n. split; [|split; assumption].
  now apply (result_node_In _ _ _ _ _ Hrun).
Qed.

Lemma no_relative_import_no_trace A nA :
  get A (nodes r) = Some nA ->
  (forall imp, In imp (imports nA) -> startswith "." imp = false) ->
  dependencies nA = [] /\ is_leaf nA = true
  /\ forall m, In m (missing_dependencies r) -> required_by m <> A.
Proof.
  intros HA Hbare.
  assert (Hres : forall imp, In imp (imports nA) ->
            _resolve_import_path all_files root_dir imp
              (parent (Path (file_path nA))) (file_type nA) = Ret None).
  { intros imp Himp. unfold _resolve_import_path.
    now rewrite (Hbare imp Himp). }
  destruct (result_node _ _ _ _ _ Hrun A nA HA)
    as [info [_ [_ [_ [_ [_ [D [_ [_ [_ L]]]]]]]]]].
  assert (Hd : dependencies nA = []).
  { rewrite D. unfold targets. simpl.
    induction (imports nA) as [|imp l IH]; [reflexivity|].
    simpl. unfold import_edge at 1. rewrite (Hres imp (or_introl eq_refl)).
    simpl. apply IH; intros; [apply Hbare | apply Hres]; now right. }
  split; [exact Hd|]. split; [now rewrite L, Hd|].
  intros m Hm Heq. destruct (missing_entry_origin m Hm) as [n [Hn [Himp Hin]]].
  rewrite Heq, HA in Hn. injection Hn as <-.
  unfold missing_entry in Hin. simpl in Hin.
  rewrite (Hres _ Himp) in Hin. destruct Hin.
Qed.

End MissingOrigin.

(** X4: an analysed file none of whose import specifiers starts with a dot
    (package imports, scoped imports, the module names a Python syntax
    tree yields) gets no dependency, is flagged as a leaf and is named by
    no entry of the missing list: imports that are not relative are never
    resolved nor reported. *)
Theorem non_relative_imports_leave_no_trace
  (all_files : dict FileInfo) (root_dir : list string) (fs : FileSystem)
  (selected : list string) (r : AnalysisResult)
  (A : string) (nA : DependencyNode) :
  analyze_dependencies all_files root_dir fs selected = Ret r ->
  get A (nodes r) = Some nA ->
  (forall imp, In imp (imports nA) -> startswith "." imp = false) ->
  dependencies nA = [] /\ is_leaf nA = true
  /\ forall m, In m (missing_dependencies r) -> required_by m <> A.
Proof. intros Hrun. now apply (no_relative_import_no_trace _ _ _ _ _ Hrun). Qed.

End TraceFacts.

Lemma non_relative_imports_leave_no_trace_witness :
  exists r n,
    analyze_dependencies [Demo.file "app.js"] Demo.root
      (fun _ => Some (Demo.js ["@scope/pkg"; "lib/util"])) ["app.js"] = Ret r
    /\ get "app.js" (nodes r) = Some n
    /\ imports n = ["@scope/pkg"; "lib/util"]
    /\ dependencies n = [] /\ is_leaf n = true.
Proof.
  run_analysis r Hrun. node_of "app.js" r n Hn Hrun.
  exists r, n. split; [reflexivity|]. split; [exact Hn|].
  assert (Hi : imports n = ["@scope/pkg"; "lib/util"]).
  { vm_compute in Hrun. injection Hrun as <-.
    vm_compute in Hn. injection Hn as <-. reflexivity. }
  split; [exact Hi|].
  destruct (non_relative_imports_leave_no_trace
              [Demo.file "app.js"] Demo.root
              (fun _ => Some (Demo.js ["@scope/pkg"; "lib/util"])) ["app.js"]
              r "app.js" n Hrun Hn) as [H1 [H2 _]].
  - rewrite Hi. intros imp [<-|[<-|[]]]; reflexivity.
  - split; assumption.
Defined.

Section TraceFacts2.

Context {os : OS}.

(** X5: a selected catalog file whose text cannot be read does not abort
    the analysis: it still is a node of the result, with no imports and no
    exports, no dependencies, the leaf flag, and no entry in the missing
    list; a readable file whose extension is none of [.py], [.js], [.jsx],
    [.ts], [.tsx] likewise has no imports and no dependencies. *)
Theorem unreadable_or_foreign_file_is_a_bare_node
  (all_files : dict FileInfo) (root_dir : list string) (fs : FileSystem)
  (selected : list string) (r : AnalysisResult)
  (A : string) (info : FileInfo) :
  analyze_dependencies all_files root_dir fs selected = Ret r ->
  In A selected -> get A all_files = Some info ->
  fs (str (Path (path info))) = None
  \/ (extension info <> ".py" /\ is_js_extension (extension info) = false) ->
  exists nA,
    get A (nodes r) = Some nA
    /\ imports nA = [] /\ dependencies nA = [] /\ is_leaf nA = true
    /\ (fs (str (Path (path info))) = None -> exports nA = [])
    /\ forall m, In m (missing_dependencies r) -> required_by m <> A.
Proof.
  intros Hrun Hsel Hinfo Hcase.
  destruct (result_keys _ _ _ _ _ Hrun) as [_ Hkeys].
  assert (Hkey : In A (keys (nodes r))).
  { apply Hkeys. split; [exact Hsel|]. unfold mem. now rewrite Hinfo. }
  apply in_map_iff in Hkey. destruct Hkey as [[A' nA] [HA' Hin]].
  simpl in HA'. subst A'.
  pose proof (result_node_In _ _ _ _ _ Hrun _ _ Hin) as HA.
  destruct (result_node _ _ _ _ _ Hrun A nA HA)
    as [info' [Hinfo' [_ [_ [_ [Himports _]]]]]].
  rewrite Hinfo in Hinfo'. injection Hinfo' as <-.
  assert (Hnone : imports nA = []).
  { rewrite Himports. unfold _extract_imports.
    destruct Hcase as [-> | [Hpy Hjs]]; [reflexivity|].
    destruct (fs _); [|reflexivity].
    apply String.eqb_neq in Hpy. now rewrite Hpy, Hjs. }
  destruct (no_relative_import_no_trace _ _ _ _ _ Hrun A nA HA)
    as [H1 [H2 H3]].
  { rewrite Hnone. intros imp []. }
  exists nA. repeat split; auto.
  intros Hfs.
  destruct (analyze_dependencies_closed_form _ _ _ _ _ Hrun) as [Hn _].
  rewrite Hn in Hin. apply in_map_iff in Hin.
  destruct Hin as [[k0 n0] [Heq Hin0]]. simpl in Heq. injection Heq as -> <-.
  destruct (initial_nodes_spec all_files fs selected) as [_ [_ H0]].
  destruct (H0 _ _ Hin0) as [info0 [Hinfo0 ->]].
  rewrite Hinfo in Hinfo0. injection Hinfo0 as <-.
  match goal with
  | |- context [after_edges ?es A ?n] =>
      destruct (after_edges_identity es A n) as [_ F]
  end.
  simpl. rewrite F. simpl. unfold _extract_exports. now rewrite Hfs.
Qed.

End TraceFacts2.

Lemma unreadable_or_foreign_file_is_a_bare_node_witness :
  exists r nA,
    analyze_dependencies Demo.catalog Demo.root (fun _ => None)
                         ["pkg/a.js"] = Ret r
    /\ get "pkg/a.js" (nodes r) = Some nA
    /\ imports nA = [] /\ exports nA = [] /\ is_leaf nA = true.
Proof.
  run_analysis r Hrun.
  destruct (unreadable_or_foreign_file_is_a_bare_node
              Demo.catalog Demo.root (fun _ => None) ["pkg/a.js"] r
              "pkg/a.js" (snd (Demo.file "pkg/a.js")) Hrun)
    as [nA [H1 [H2 [_ [H4 [H5 _]]]]]].
  - now left.
  - reflexivity.
  - now left.
  - exists r, nA. repeat split; auto.
Defined.

(** ** Every resolved import is accounted for *)

Lemma file_path_to_id_keys all_files selected p :
  In p (keys (file_path_to_id all_files selected))
  <-> In p (selected_paths all_files selected).
Proof.
  induction selected as [|x l IH] using rev_ind.
  - simpl. tauto.
  - rewrite file_path_to_id_snoc. unfold selected_paths in *.
    rewrite flat_map_app, in_app_iff. simpl.
    destruct (get x all_files) as [info|].
    + rewrite keys_set, IH. simpl. intuition.
    + rewrite IH. simpl. intuition.
Qed.

Section AccountFacts.

Context {os : OS}.

(** Where an entry of the missing list comes from. *)
Lemma missing_entry_resolution
  (all_files : dict FileInfo) (root_dir : list string) (fs : FileSystem)
  (selected : list string) (r : AnalysisResult) (m : MissingDependency) :
  analyze_dependencies all_files root_dir fs selected = Ret r ->
  In m (missing_dependencies r) ->
  confidence m = 1%Q /\ reason m = "Exact path match found"
  /\ exists nA g info,
       get (required_by m) (nodes r) = Some nA
       /\ required_by_path m = file_path nA
       /\ In (missing_import m) (imports nA)
       /\ startswith "." (missing_import m) = true
       /\ suggested_file m = Some g
       /\ In (g, info) all_files
       /\ _resolve_import_path all_files root_dir (missing_import m)
            (parent (Path (file_path nA))) (file_type nA)
          = Ret (Some (relative_path info))
       /\ ~ In (relative_path info) (selected_paths all_files selected).
Proof.
  intros Hrun Hm.
  destruct (missing_entry_origin _ _ _ _ _ Hrun m Hm) as [nA [HA [Himp Hin]]].
  unfold missing_entry in Hin. simpl in Hin.
  destruct (_resolve_import_path all_files root_dir (missing_import m) _ _)
    as [[p|]|e] eqn:Hres; try destruct Hin.
  destruct (truthy p && negb (elem p (selected_paths all_files selected)))
    eqn:Hcond; [|destruct Hin].
  apply andb_true_iff in Hcond. destruct Hcond as [_ Hout].
  apply negb_true_iff, elem_not_In in Hout.
  destruct (resolve_import_path_sound _ _ _ _ _ _ Hres) as [Hcat _].
  pose proof (resolve_import_path_relative _ _ _ _ _ _ Hres) as Hrel.
  unfold _suggest_missing_file in Hin.
  destruct (find (fun kv => String.eqb (relative_path (snd kv)) p) all_files)
    as [[g info]|] eqn:F.
  - destruct Hin as [<-|[]]. simpl.
    apply find_some in F. destruct F as [Hg Hp]. simpl in Hp.
    apply String.eqb_eq in Hp. subst p.
    split; [reflexivity|]. split; [reflexivity|].
    exists nA, g, info. simpl in HA, Himp, Hres, Hrel. repeat split; auto.
  - exfalso. unfold in_catalog in Hcat. apply existsb_exists in Hcat.
    destruct Hcat as [f [Hf Hfp]]. apply in_map_iff in Hf.
    destruct Hf as [[k f'] [Hk Hinf]]. simpl in Hk. subst f'.
    apply (find_none _ _ F) in Hinf. simpl in Hinf. congruence.
Qed.

(** X6: every entry of the missing list of a result is an exact path
    match: confidence 1.0, reason "Exact path match found", and a
    suggested file, which is a catalog entry whose relative path is the
    path the import resolves to and which no selected file has.  The entry
    names an analysed file, that file's path and one of its imports, which
    starts with a dot.  The filename tiers 0.8 and 0.5 and the "File not
    found" entry never occur in a result. *)
Theorem missing_entries_are_exact_path_matches
  (all_files : dict FileInfo) (root_dir : list string) (fs : FileSystem)
  (selected : list string) (r : AnalysisResult) (m : MissingDependency) :
  analyze_dependencies all_files root_dir fs selected = Ret r ->
  In m (missing_dependencies r) ->
  confidence m = 1%Q /\ reason m = "Exact path match found"
  /\ exists nA g info,
       get (required_by m) (nodes r) = Some nA
       /\ required_by_path m = file_path nA
       /\ In (missing_import m) (imports nA)
       /\ startswith "." (missing_import m) = true
       /\ suggested_file m = Some g
       /\ In (g, info) all_files
       /\ _resolve_import_path all_files root_dir (missing_import m)
            (parent (Path (file_path nA))) (file_type nA)
          = Ret (Some (relative_path info))
       /\ ~ In (relative_path info) (selected_paths all_files selected).
Proof. apply missing_entry_resolution. Qed.

End AccountFacts.

Lemma missing_entries_are_exact_path_matches_witness :
  exists r m,
    analyze_dependencies Demo.catalog Demo.root Demo.disk
                         ["pkg/a.js"; "pkg/b.js"] = Ret r
    /\ missing_dependencies r = [m]
    /\ confidence m = 1%Q /\ reason m = "Exact path match found".
Proof.
  run_analysis r Hrun.
  destruct (missing_dependencies r) as [|m l] eqn:Hm;
    [vm_compute in Hrun; injection Hrun as <-; discriminate|].
  assert (Hl : l = []).
  { vm_compute in Hrun. injection Hrun as <-. now injection Hm. }
  subst l. exists r, m. split; [reflexivity|]. split; [exact Hm|].
  destruct (missing_entries_are_exact_path_matches
              Demo.catalog Demo.root Demo.disk ["pkg/a.js"; "pkg/b.js"] r m Hrun)
    as [H1 [H2 _]]; [rewrite Hm; now left | split; assumption].
Defined.

Section AccountFacts2.

Context {os : OS}.

(** X7: every import of an analysed file that resolves is accounted for
    exactly once.  If some selected file has the resolved path, the import
    has no entry in the missing list and its target is the importing file
    itself or one of its dependencies; otherwise the import has exactly
    one entry in the missing list and inserts no edge. *)
Theorem resolved_import_is_dependency_or_missing
  (all_files : dict FileInfo) (root_dir : list string) (fs : FileSystem)
  (selected : list string) (r : AnalysisResult)
  (A : string) (nA : DependencyNode) (imp p : string) :
  analyze_dependencies all_files root_dir fs selected = Ret r ->
  get A (nodes r) = Some nA -> In imp (imports nA) ->
  _resolve_import_path all_files root_dir imp
    (parent (Path (file_path nA))) (file_type nA) = Ret (Some p) ->
  (In p (selected_paths all_files selected) ->
   entries_for A imp (missing_dependencies r) = []
   /\ exists dep info,
        get p (file_path_to_id all_files selected) = Some dep
        /\ In dep selected /\ get dep all_files = Some info
        /\ relative_path info = p
        /\ (dep = A \/ In dep (dependencies nA)))
  /\ (~ In p (selected_paths all_files selected) ->
      List.length (entries_for A imp (missing_dependencies r)) = 1
      /\ import_edge all_files root_dir (file_path_to_id all_files selected)
                     A nA imp = []).
Proof.
  intros Hrun HA Himp Hres.
  destruct (resolve_import_path_sound _ _ _ _ _ _ Hres) as [_ Hp].
  assert (Ht : truthy p = true)
    by (unfold truthy; apply String.eqb_neq in Hp; now rewrite Hp).
  rewrite (entries_for_import _ _ _ _ _ Hrun A nA imp HA Himp).
  split.
  - intros Hin. split.
    + unfold missing_entry. simpl. rewrite Hres, Ht.
      apply elem_In in Hin. now rewrite Hin.
    + pose proof Hin as Hkey. apply file_path_to_id_keys in Hkey.
      destruct (get p (file_path_to_id all_files selected)) as [dep|] eqn:G;
        [|apply get_None_keys in G; contradiction].
      destruct (file_path_to_id_sound _ _ _ _ G) as [Hsel [info [Hg Hrel]]].
      exists dep, info. repeat split; auto.
      destruct (String.eqb dep A) eqn:E;
        [left; now apply String.eqb_eq|right].
      destruct (result_node _ _ _ _ _ Hrun A nA HA)
        as [_ [_ [_ [_ [_ [_ [D _]]]]]]].
      rewrite D. unfold targets. apply in_flat_map. exists imp.
      split; [exact Himp|]. unfold import_edge. simpl.
      rewrite Hres, Ht, G, E. now left.
  - intros Hout. split.
    + destruct (missing_entry_outside all_files root_dir selected A nA imp p
                  Hres Hout) as [g [info [_ ->]]]. reflexivity.
    + unfold import_edge. rewrite Hres, Ht.
      destruct (get p (file_path_to_id all_files selected)) as [dep|] eqn:G;
        [|reflexivity].
      exfalso. apply Hout, file_path_to_id_keys.
      apply get_In in G. change p with (fst (p, dep)). now apply in_map.
Qed.

End AccountFacts2.

Lemma resolved_import_is_dependency_or_missing_witness :
  exists r nA,
    analyze_dependencies Demo.catalog Demo.root Demo.disk
                         ["pkg/a.js"; "pkg/b.js"] = Ret r
    /\ get "pkg/a.js" (nodes r) = Some nA
    /\ entries_for "pkg/a.js" "./b" (missing_dependencies r) = []
    /\ In "pkg/b.js" (dependencies nA).
Proof.
  run_analysis r Hrun. node_of "pkg/a.js" r nA HA Hrun.
  exists r, nA. split; [reflexivity|]. split; [exact HA|].
  destruct (resolved_import_is_dependency_or_missing
              Demo.catalog Demo.root Demo.disk ["pkg/a.js"; "pkg/b.js"] r
              "pkg/a.js" nA "./b" "pkg/b.js" Hrun HA) as [H _].
  - vm_compute in Hrun. injection Hrun as <-.
    vm_compute in HA. injection HA as <-. now left.
  - vm_compute in Hrun. injection Hrun as <-.
    vm_compute in HA. injection HA as <-. reflexivity.
  - destruct H as [H1 [dep [info [G [_ [_ [_ Hd]]]]]]].
    + simpl. auto.
    + split; [exact H1|]. vm_compute in G. injection G as <-.
      destruct Hd as [Hd|Hd]; [discriminate | exact Hd].
Defined.

(** ** The node and edge view *)

Lemma list_sum_indicator (x : string) (ks : list string) :
  NoDup ks -> In x ks ->
  list_sum (map (fun k => if String.eqb k x then 1 else 0) ks) = 1.
Proof.
  induction 1 as [|k ks Hnotin Hnd IH]; intros Hin; [destruct Hin|].
  simpl. destruct Hin as [->|Hin].
  - rewrite String.eqb_refl.
    assert (H0 : list_sum (map (fun k => if String.eqb k x then 1 else 0) ks) = 0).
    { clear IH Hnd. induction ks as [|a ks IH]; simpl; [reflexivity|].
      destruct (String.eqb a x) eqn:E.
      - apply String.eqb_eq in E. subst. exfalso. apply Hnotin. now left.
      - apply IH. intros H. apply Hnotin. now right. }
    lia.
  - destruct (String.eqb k x) eqn:E.
    + apply String.eqb_eq in E. subst. contradiction.
    + now rewrite IH.
Qed.

Lemma list_sum_map_add {A} (f g : A -> nat) (l : list A) :
  list_sum (map (fun x => f x + g x) l)
  = list_sum (map f l) + list_sum (map g l).
Proof. induction l as [|a l IH]; simpl; lia. Qed.

(** Counting the edges by their source, or by their target, counts each
    edge once. *)
Lemma edges_counted_once (proj : string * string -> string)
  (es : list (string * string)) (ks : list string) :
  NoDup ks -> (forall e, In e es -> In (proj e) ks) ->
  list_sum (map (fun k => List.length
                            (filter (fun e => String.eqb k (proj e)) es)) ks)
  = List.length es.
Proof.
  intros Hnd. induction es as [|e es IH]; intros Hin.
  - simpl. clear. induction ks as [|k ks IHks]; simpl; auto.
  - change (List.length (e :: es)) with (1 + List.length es).
    rewrite <- IH by (intros e' He'; apply Hin; now right).
    rewrite <- (list_sum_indicator (proj e) ks Hnd (Hin e (or_introl eq_refl))).
    rewrite <- list_sum_map_add. f_equal. apply map_ext. intros k. simpl.
    destruct (String.eqb k (proj e)); simpl; lia.
Qed.

Lemma list_sum_flat_map_length {A B} (f : A -> list B) (l : list A) :
  List.length (flat_map f l) = list_sum (map (fun x => List.length (f x)) l).
Proof.
  induction l as [|a l IH]; simpl; [reflexivity|].
  now rewrite length_app, IH.
Qed.

Section ViewFacts.

Context {os : OS}.

Section GraphData.

Variable all_files : dict FileInfo.
Variable root_dir : list string.
Variable fs : FileSystem.
Variable selected : list string.
Variable r : AnalysisResult.
Hypothesis Hrun : analyze_dependencies all_files root_dir fs selected = Ret r.

Lemma degree_sums :
  list_sum (map (fun kv => List.length (dependencies (snd kv))) (nodes r))
  = list_sum (map (fun kv => List.length (dependents (snd kv))) (nodes r)).
Proof.
  destruct (result_keys _ _ _ _ _ Hrun) as [Hnd _].
  set (es := edges_of all_files root_dir (file_path_to_id all_files selected)
                      (initial_nodes all_files fs selected)).
  assert (Hout : forall kv, In kv (nodes r) ->
            List.length (dependencies (snd kv))
            = List.length (filter (fun e => String.eqb (fst kv) (fst e)) es)).
  { intros [k n] Hin.
    pose proof (result_node_In _ _ _ _ _ Hrun _ _ Hin) as Hget.
    destruct (result_node _ _ _ _ _ Hrun k n Hget)
      as [_ [_ [_ [_ [_ [_ [_ [D _]]]]]]]].
    simpl. fold es in D. now rewrite D, length_map. }
  assert (Hinn : forall kv, In kv (nodes r) ->
            List.length (dependents (snd kv))
            = List.length (filter (fun e => String.eqb (fst kv) (snd e)) es)).
  { intros [k n] Hin.
    pose proof (result_node_In _ _ _ _ _ Hrun _ _ Hin) as Hget.
    destruct (result_node _ _ _ _ _ Hrun k n Hget)
      as [_ [_ [_ [_ [_ [_ [_ [_ [D _]]]]]]]]].
    simpl. fold es in D. now rewrite D, length_map. }
  rewrite (map_ext_in _ _ _ Hout), (map_ext_in _ _ _ Hinn).
  rewrite <- (map_map fst (fun k => List.length
                                      (filter (fun e => String.eqb k (fst e)) es))).
  rewrite <- (map_map fst (fun k => List.length
                                      (filter (fun e => String.eqb k (snd e)) es))).
  fold (keys (nodes r)).
  rewrite (edges_counted_once fst es (keys (nodes r)) Hnd),
          (edges_counted_once snd es (keys (nodes r)) Hnd); [reflexivity| |].
  - intros [u v] He. now destruct (result_edge _ _ _ _ _ Hrun _ _ He) as [_ [H _]].
  - intros [u v] He. now destruct (result_edge _ _ _ _ _ Hrun _ _ He) as [H _].
Qed.

End GraphData.

(** X8: the node and edge view of a result lists the nodes in the order of
    the node dictionary, each with the sizes of its dependency and
    dependent lists and its flags; its edges are exactly the pairs of a
    file and one of its dependencies, each joining two different listed
    nodes; and the dependency counts and the dependent counts both add up
    to the number of edges. *)
Theorem graph_data_mirrors_nodes
  (all_files : dict FileInfo) (root_dir : list string) (fs : FileSystem)
  (selected : list string) (r : AnalysisResult) :
  analyze_dependencies all_files root_dir fs selected = Ret r ->
  map gn_id (gd_nodes (graph r)) = keys (nodes r)
  /\ (forall gn, In gn (gd_nodes (graph r)) ->
        exists n, get (gn_id gn) (nodes r) = Some n
                  /\ gn_path gn = file_path n /\ gn_type gn = file_type n
                  /\ gn_label gn = name (Path (file_path n))
                  /\ gn_is_entry_point gn = is_entry_point n
                  /\ gn_is_leaf gn = is_leaf n
                  /\ gn_dependency_count gn = List.length (dependencies n)
                  /\ gn_dependent_count gn = List.length (dependents n))
  /\ (forall u v, In (u, v) (gd_edges (graph r)) <-> depends_on r u v)
  /\ (forall u v, In (u, v) (gd_edges (graph r)) ->
        In u (map gn_id (gd_nodes (graph r)))
        /\ In v (map gn_id (gd_nodes (graph r))) /\ u <> v)
  /\ List.length (gd_edges (graph r))
     = list_sum (map gn_dependency_count (gd_nodes (graph r)))
  /\ List.length (gd_edges (graph r))
     = list_sum (map gn_dependent_count (gd_nodes (graph r))).
Proof.
  intros Hrun.
  destruct (analyze_dependencies_closed_form _ _ _ _ _ Hrun)
    as [_ [_ [_ [_ [Hg _]]]]].
  rewrite Hg. unfold _generate_graph_data. simpl.
  assert (Hids : map gn_id
                   (map (fun kv =>
                      mkGraphNode (fst kv) (name (Path (file_path (snd kv))))
                        (file_path (snd kv)) (file_type (snd kv))
                        (is_entry_point (snd kv)) (is_leaf (snd kv))
                        (List.length (dependencies (snd kv)))
                        (List.length (dependents (snd kv)))) (nodes r))
                 = keys (nodes r)).
  { rewrite map_map. reflexivity. }
  assert (Hedge : forall u v,
            In (u, v) (flat_map (fun kv => map (fun dep_id => (fst kv, dep_id))
                                              (dependencies (snd kv))) (nodes r))
            <-> depends_on r u v).
  { intros u v. rewrite in_flat_map. split.
    - intros [[k n] [Hin Hp]]. simpl in Hp. apply in_map_iff in Hp.
      destruct Hp as [d [Heq Hd]]. injection Heq as -> ->.
      exists n. split; [|exact Hd].
      now apply (result_node_In _ _ _ _ _ Hrun).
    - intros [n [Hget Hd]]. exists (u, n). split; [now apply get_In|].
      simpl. apply in_map_iff. eauto. }
  split; [exact Hids|]. split; [|split; [exact Hedge|split; [|split]]].
  - intros gn Hin. apply in_map_iff in Hin. destruct Hin as [[k n] [<- Hin]].
    simpl. exists n. split; [now apply (result_node_In _ _ _ _ _ Hrun)|].
    repeat split.
  - intros u v Huv. rewrite Hids. apply Hedge in Huv.
    destruct Huv as [n [Hget Hd]].
    apply (result_node_edges _ _ _ _ _ Hrun u n Hget) in Hd.
    destruct (result_edge _ _ _ _ _ Hrun _ _ Hd) as [H1 [H2 H3]]. auto.
  - rewrite list_sum_flat_map_length, map_map. f_equal.
    apply map_ext. intros kv. simpl. apply length_map.
  - rewrite list_sum_flat_map_length, map_map. simpl.
    rewrite <- (degree_sums _ _ _ _ _ Hrun). f_equal.
    apply map_ext. intros kv. simpl. apply length_map.
Qed.

End ViewFacts.

Lemma graph_data_mirrors_nodes_witness :
  exists r,
    analyze_dependencies Demo.ring_catalog Demo.root Demo.ring_disk
                         ["a.js"; "b.js"; "c.js"] = Ret r
    /\ map gn_id (gd_nodes (graph r)) = ["a.js"; "b.js"; "c.js"]
    /\ List.length (gd_edges (graph r))
       = list_sum (map gn_dependent_count (gd_nodes (graph r))).
Proof.
  run_analysis r Hrun. exists r. split; [reflexivity|].
  destruct (graph_data_mirrors_nodes Demo.ring_catalog Demo.root Demo.ring_disk
              ["a.js"; "b.js"; "c.js"] r Hrun) as [H1 [_ [_ [_ [_ H2]]]]].
  split; [|exact H2]. rewrite H1.
  vm_compute in Hrun. injection Hrun as <-. reflexivity.
Defined.

(** ** The summary figures *)

Lemma list_max_attained (l : list nat) :
  l <> [] -> In (list_max l) l.
Proof.
  induction l as [|a l IH]; [congruence|]. intros _.
  destruct l as [|b l]; [simpl; left; lia|].
  change (list_max (a :: b :: l)) with (Nat.max a (list_max (b :: l))).
  destruct (Nat.max_spec a (list_max (b :: l))) as [[_ ->]|[_ ->]].
  - right. apply IH. discriminate.
  - now left.
Qed.

Lemma list_max_bound (l : list nat) (x : nat) : In x l -> x <= list_max l.
Proof.
  intros Hin. pose proof (proj1 (list_max_le l (list_max l)) (Nat.le_refl _)) as H.
  rewrite Forall_forall in H. auto.
Qed.

Lemma filter_length_map {A B} (f : A -> B) (p : B -> bool) (l : list A) :
  List.length (filter p (map f l)) = List.length (filter (fun x => p (f x)) l).
Proof.
  induction l as [|a l IH]; simpl; [reflexivity|].
  destruct (p (f a)); simpl; now rewrite IH.
Qed.

(** The first item with the largest key. *)
Lemma max_by_first_maximum {A} (key : A -> nat) (rest : list A) (first : A) :
  exists l1 l2,
    first :: rest = l1 ++ max_by key first rest :: l2
    /\ (forall y, In y l1 -> key y < key (max_by key first rest))
    /\ (forall y, In y l2 -> key y <= key (max_by key first rest)).
Proof.
  unfold max_by.
  assert (H : forall rest best pre mid,
             (forall y, In y pre -> key y < key best) ->
             (forall y, In y mid -> key y <= key best) ->
             let x := fold_left (fun best x => if Nat.ltb (key best) (key x)
                                            then x else best) rest best in
             exists l1 l2,
               pre ++ best :: mid ++ rest = l1 ++ x :: l2
               /\ (forall y, In y l1 -> key y < key x)
               /\ (forall y, In y l2 -> key y <= key x)).
  { clear. induction rest as [|a rest IH]; intros best pre mid Hpre Hmid; simpl.
    - exists pre, mid. rewrite app_nil_r. auto.
    - destruct (Nat.ltb (key best) (key a)) eqn:E.
      + apply Nat.ltb_lt in E.
        specialize (IH a (pre ++ best :: mid) []).
        destruct IH as [l1 [l2 [H1 H2]]].
        * intros y Hy. apply in_app_or in Hy. destruct Hy as [Hy|[<-|Hy]].
          -- specialize (Hpre y Hy). lia.
          -- exact E.
          -- specialize (Hmid y Hy). lia.
        * intros y [].
        * exists l1, l2. split; [|exact H2]. rewrite <- H1.
          rewrite <- app_assoc. reflexivity.
      + apply Nat.ltb_ge in E.
        specialize (IH best pre (mid ++ [a])).
        destruct IH as [l1 [l2 [H1 H2]]].
        * exact Hpre.
        * intros y Hy. apply in_app_or in Hy. destruct Hy as [Hy|[<-|[]]]; auto.
        * exists l1, l2. split; [|exact H2]. rewrite <- H1.
          rewrite <- app_assoc. reflexivity. }
  destruct (H rest first [] []) as [l1 [l2 [H1 H2]]];
    [intros y []|intros y []|].
  exists l1, l2. split; [|exact H2]. rewrite <- H1. reflexivity.
Qed.

Section SummaryFacts.

Context {os : OS}.

(** X9: the counts of the summary agree with the nodes and with the node
    view: the numbers of entry points and of leaves are the numbers of nodes
    without dependents and without dependencies; the largest dependency
    count bounds every node's and is reached by one; the average is the
    number of edges divided by the number of files, in floating point,
    rounded to two decimals, and lies between 0 and the largest count (a
    count below 2^53); with no node every figure is zero. *)
Theorem metrics_summarise_nodes
  (all_files : dict FileInfo) (root_dir : list string) (fs : FileSystem)
  (selected : list string) (r : AnalysisResult) :
  analyze_dependencies all_files root_dir fs selected = Ret r ->
  entry_points (metrics r)
  = List.length (filter (fun kv => match dependents (snd kv) with
                                   | [] => true | _ => false end) (nodes r))
  /\ leaf_nodes (metrics r)
     = List.length (filter (fun kv => match dependencies (snd kv) with
                                      | [] => true | _ => false end) (nodes r))
  /\ entry_points (metrics r)
     = List.length (filter gn_is_entry_point (gd_nodes (graph r)))
  /\ leaf_nodes (metrics r)
     = List.length (filter gn_is_leaf (gd_nodes (graph r)))
  /\ entry_points (metrics r) <= total_files (metrics r)
  /\ leaf_nodes (metrics r) <= total_files (metrics r)
  /\ (forall k n, In (k, n) (nodes r) ->
        List.length (dependencies n) <= max_dependencies (metrics r))
  /\ (nodes r <> [] ->
      exists k n, In (k, n) (nodes r)
                  /\ List.length (dependencies n) = max_dependencies (metrics r))
  /\ (nodes r <> [] ->
      average_dependencies (metrics r)
      = round2 (truediv (List.length (gd_edges (graph r)))
                        (total_files (metrics r))))
  /\ (0 <= average_dependencies (metrics r))%Q
  /\ ((Z.of_nat (max_dependencies (metrics r)) < 2 ^ 53)%Z ->
      (average_dependencies (metrics r)
       <= Qnat (max_dependencies (metrics r)))%Q)
  /\ (nodes r = [] -> metrics r = mkMetrics 0 0 0 0 0 None 0).
Proof.
  intros Hrun.
  destruct (analyze_dependencies_closed_form _ _ _ _ _ Hrun)
    as [_ [_ [_ [Hm [Hg _]]]]].
  assert (Hflag1 : forall kv, In kv (nodes r) ->
            is_entry_point (snd kv)
            = match dependents (snd kv) with [] => true | _ => false end).
  { intros [k n] Hin.
    pose proof (result_node_In _ _ _ _ _ Hrun _ _ Hin) as Hget.
    destruct (result_node _ _ _ _ _ Hrun k n Hget)
      as [_ [_ [_ [_ [_ [_ [_ [_ [_ [F _]]]]]]]]]].
    simpl. rewrite F. now destruct (dependents n). }
  assert (Hflag2 : forall kv, In kv (nodes r) ->
            is_leaf (snd kv)
            = match dependencies (snd kv) with [] => true | _ => false end).
  { intros [k n] Hin.
    pose proof (result_node_In _ _ _ _ _ Hrun _ _ Hin) as Hget.
    destruct (result_node _ _ _ _ _ Hrun k n Hget)
      as [_ [_ [_ [_ [_ [_ [_ [_ [_ [_ F]]]]]]]]]].
    simpl. rewrite F. now destruct (dependencies n). }
  assert (Hedges : List.length (gd_edges (graph r))
                   = list_sum (map (fun n => List.length (dependencies n))
                                   (values (nodes r)))).
  { rewrite Hg. unfold _generate_graph_data. simpl.
    rewrite list_sum_flat_map_length. unfold values. rewrite map_map.
    f_equal. apply map_ext. intros kv. apply length_map. }
  assert (Hgn1 : List.length (filter gn_is_entry_point (gd_nodes (graph r)))
                 = List.length (filter is_entry_point (values (nodes r)))).
  { rewrite Hg. unfold _generate_graph_data, values. simpl.
    now rewrite !filter_length_map. }
  assert (Hgn2 : List.length (filter gn_is_leaf (gd_nodes (graph r)))
                 = List.length (filter is_leaf (values (nodes r)))).
  { rewrite Hg. unfold _generate_graph_data, values. simpl.
    now rewrite !filter_length_map. }
  rewrite Hgn1, Hgn2, Hedges. clear Hgn1 Hgn2 Hedges Hg.
  rewrite Hm. unfold _calculate_metrics.
  destruct (nodes r) as [|kv0 rest] eqn:Hnodes.
  { simpl. repeat split; try reflexivity; try lia; try discriminate;
      try congruence. }
  rewrite <- Hnodes in *.
  assert (Hlen : List.length (nodes r) <> 0) by (rewrite Hnodes; discriminate).
  apply Nat.eqb_neq in Hlen. rewrite Hlen. apply Nat.eqb_neq in Hlen.
  cbn [entry_points leaf_nodes total_files max_dependencies
       average_dependencies].
  set (counts := map (fun n => List.length (dependencies n)) (values (nodes r))).
  assert (Hbound : forall k n, In (k, n) (nodes r) ->
            List.length (dependencies n) <= list_max counts).
  { intros k n Hin. apply list_max_bound. unfold counts, values.
    rewrite map_map. apply in_map_iff. exists (k, n). auto. }
  assert (Hsum : list_sum counts <= List.length (nodes r) * list_max counts).
  { generalize (list_max counts) Hbound. intros c Hc.
    unfold counts, values. rewrite map_map.
    apply (list_sum_bound (fun kv => List.length (dependencies (snd kv)))).
    intros [k n] Hin. simpl. now apply (Hc k). }
  split; [|split; [|split; [|split; [|split; [|split; [|split; [|split]]]]]]].
  - unfold values. rewrite filter_length_map. f_equal.
    apply filter_ext_in. exact Hflag1.
  - unfold values. rewrite filter_length_map. f_equal.
    apply filter_ext_in. exact Hflag2.
  - reflexivity.
  - reflexivity.
  - unfold values. rewrite filter_length_map.
    apply filter_length_le.
  - unfold values. rewrite filter_length_map.
    apply filter_length_le.
  - exact Hbound.
  - intros _. assert (Hne : counts <> []).
    { unfold counts, values. rewrite Hnodes. discriminate. }
    apply list_max_attained in Hne. unfold counts at 2, values in Hne.
    rewrite map_map in Hne. apply in_map_iff in Hne.
    destruct Hne as [[k n] [Heq Hin]]. exists k, n. auto.
  - split; [reflexivity|]. split; [|split; [|congruence]].
    + apply round2_nonneg, nearest_float_nonneg, ratio_nonneg.
    + intros Hmax.
      apply (Qle_trans _ (round2 (Qnat (list_max counts)))).
      * apply round2_monotone;
          [apply nearest_float_nonneg, ratio_nonneg|].
        unfold truediv.
        apply (Qle_trans _ (nearest_float (Qnat (list_max counts)))).
        -- apply nearest_float_monotone; [apply ratio_nonneg|].
           apply Qle_shift_div_r; [apply Qnat_pos; lia|].
           unfold Qnat. rewrite <- inject_Z_mult, <- Zle_Qle. lia.
        -- unfold Qnat. rewrite nearest_float_count by lia. apply Qle_refl.
      * unfold round2, Qnat.
        assert (Hh : (inject_Z (Z.of_nat (list_max counts)) * 100
                      == inject_Z (Z.of_nat (list_max counts) * 100))%Q)
          by (rewrite inject_Z_mult; reflexivity).
        rewrite (round_half_even_value _ _ Hh).
        assert (Hb : (inject_Z (Z.of_nat (list_max counts) * 100) / 100
                      == inject_Z (Z.of_nat (list_max counts)))%Q).
        { rewrite inject_Z_mult. apply Qdiv_mult_l. discriminate. }
        rewrite (nearest_float_value _ _ (Qnat_nonneg _) Hb). unfold Qnat.
        rewrite (nearest_float_count (Z.of_nat (list_max counts))) by lia.
        apply Qle_refl.
Qed.

End SummaryFacts.

Lemma metrics_summarise_nodes_witness :
  exists r,
    analyze_dependencies Demo.catalog Demo.root Demo.disk
                         ["pkg/a.js"; "pkg/b.js"] = Ret r
    /\ entry_points (metrics r)
       = List.length (filter gn_is_entry_point (gd_nodes (graph r)))
    /\ (average_dependencies (metrics r)
        <= Qnat (max_dependencies (metrics r)))%Q.
Proof.
  run_analysis r Hrun. exists r. split; [reflexivity|].
  destruct (metrics_summarise_nodes Demo.catalog Demo.root Demo.disk
              ["pkg/a.js"; "pkg/b.js"] r Hrun)
    as [_ [_ [H1 [_ [_ [_ [_ [_ [_ [_ [H2 _]]]]]]]]]]].
  split; [exact H1 | apply H2].
  vm_compute in Hrun. injection Hrun as <-. reflexivity.
Defined.

Section SummaryFacts2.

Context {os : OS}.

(** X10: the most-depended-on file of the summary is the first node, in
    the order of the node dictionary, whose dependents list is longest: the
    nodes before it have strictly shorter lists and the nodes after it none
    longer; the summary gives its id, path and the length of that list.
    There is none when the result has no node (or when that node's id is
    the empty string). *)
Theorem most_dependent_file_is_first_maximum
  (all_files : dict FileInfo) (root_dir : list string) (fs : FileSystem)
  (selected : list string) (r : AnalysisResult) :
  analyze_dependencies all_files root_dir fs selected = Ret r ->
  (nodes r = [] -> most_dependent_file (metrics r) = None)
  /\ (nodes r <> [] ->
      exists l1 k n l2,
        nodes r = l1 ++ (k, n) :: l2
        /\ (forall k' n', In (k', n') l1 ->
              List.length (dependents n') < List.length (dependents n))
        /\ (forall k' n', In (k', n') l2 ->
              List.length (dependents n') <= List.length (dependents n))
        /\ most_dependent_file (metrics r)
           = if String.eqb k "" then None
             else Some (mkMostDependent k (file_path n)
                                        (List.length (dependents n)))).
Proof.
  intros Hrun.
  destruct (analyze_dependencies_closed_form _ _ _ _ _ Hrun)
    as [_ [_ [_ [Hm _]]]].
  rewrite Hm. unfold _calculate_metrics.
  destruct (nodes r) as [|kv0 rest]; [split; [reflexivity|congruence]|].
  split; [discriminate|]. intros _.
  change (Nat.eqb (List.length (kv0 :: rest)) 0) with false.
  cbn [most_dependent_file].
  destruct (max_by_first_maximum
              (fun kv : string * DependencyNode =>
                 List.length (dependents (snd kv))) rest kv0)
    as [l1 [l2 [Heq [Hlt Hle]]]].
  destruct (max_by (fun kv : string * DependencyNode =>
                      List.length (dependents (snd kv))) kv0 rest)
    as [k n] eqn:Hmax.
  simpl in Hlt, Hle.
  exists l1, k, n, l2. split; [exact Heq|].
  split; [intros k' n' Hin; apply (Hlt (k', n') Hin)|].
  split; [intros k' n' Hin; apply (Hle (k', n') Hin)|].
  unfold truthy. now destruct (String.eqb k "").
Qed.

End SummaryFacts2.

Lemma most_dependent_file_is_first_maximum_witness :
  exists r,
    analyze_dependencies Demo.ring_catalog Demo.root Demo.ring_disk
                         ["a.js"; "b.js"; "c.js"] = Ret r
    /\ exists l1 k n l2,
        nodes r = l1 ++ (k, n) :: l2
        /\ (forall k' n', In (k', n') l1 ->
              List.length (dependents n') < List.length (dependents n))
        /\ (forall k' n', In (k', n') l2 ->
              List.length (dependents n') <= List.length (dependents n))
        /\ most_dependent_file (metrics r)
           = if String.eqb k "" then None
             else Some (mkMostDependent k (file_path n)
                                        (List.length (dependents n))).
Proof.
  run_analysis r Hrun. exists r. split; [reflexivity|].
  apply (most_dependent_file_is_first_maximum Demo.ring_catalog Demo.root
           Demo.ring_disk ["a.js"; "b.js"; "c.js"] r Hrun).
  vm_compute in Hrun. injection Hrun as <-. discriminate.
Defined.

(** ** Results without cycles *)

Lemma NoDup_or_repeat (l : list string) : NoDup l \/ ~ NoDup l.
Proof.
  induction l as [|a l [IH|IH]].
  - left. constructor.
  - destruct (in_dec string_dec a l) as [Hin|Hout].
    + right. intros H. now inversion H.
    + left. now constructor.
  - right. intros H. now inversion H.
Qed.

Lemma is_path_prefix (E : string -> string -> Prop) (x y : list string) :
  is_path E (x ++ y) -> is_path E x.
Proof.
  induction x as [|a x IH]; [intros _; exact I|].
  change ((a :: x) ++ y) with (a :: (x ++ y)).
  rewrite !is_path_cons. intros [H1 H2]. split; [|auto].
  destruct x as [|b x]; [now left|]. right.
  destruct H1 as [H1|H1]; [discriminate | exact H1].
Qed.

(** A path that visits a node twice goes round an elementary cycle. *)
Lemma repeat_gives_cycle (E : string -> string -> Prop) (p : list string) :
  is_path E p -> ~ NoDup p -> exists c, elementary_cycle E c /\ incl c p.
Proof.
  induction p as [|a t IH]; intros Hp Hrep.
  - exfalso. apply Hrep. constructor.
  - destruct (NoDup_or_repeat t) as [Hnd|Hnd].
    + destruct (in_dec string_dec a t) as [Hin|Hout];
        [|exfalso; apply Hrep; now constructor].
      apply in_split in Hin. destruct Hin as [l1 [l2 ->]].
      exists (a :: l1). split; [split; [discriminate|split]|].
      * constructor.
        -- intros Hin. apply NoDup_remove_2 in Hnd. apply Hnd.
           apply in_or_app. now left.
        -- apply NoDup_remove_1 in Hnd. now apply NoDup_app_remove_r in Hnd.
      * simpl hd. apply (is_path_prefix E _ l2).
        rewrite <- app_assoc. exact Hp.
      * intros x [<-|Hx]; [now left|]. right. apply in_or_app. now left.
    + apply is_path_cons in Hp. destruct (IH (proj2 Hp) Hnd) as [c [Hc Hincl]].
      exists c. split; [exact Hc|]. intros x Hx. right. auto.
Qed.

Lemma walk_exists (E : string -> string -> Prop) (V : list string) :
  (forall v, In v V -> exists w, In w V /\ E v w) ->
  forall n v, In v V ->
    exists p, List.length p = n /\ is_path E (v :: p) /\ incl p V.
Proof.
  intros Hout. induction n as [|n IH]; intros v Hv.
  - exists []. repeat split. intros x [].
  - destruct (Hout v Hv) as [w [Hw Hvw]].
    destruct (IH w Hw) as [p [Hlen [Hp Hincl]]].
    exists (w :: p). split; [simpl; now rewrite Hlen|]. split.
    + split; assumption.
    + intros x [<-|Hx]; auto.
Qed.

(** In a finite graph where every node has a successor there is an
    elementary cycle. *)
Lemma total_relation_has_cycle (E : string -> string -> Prop) (V : list string) :
  V <> [] -> (forall v, In v V -> exists w, In w V /\ E v w) ->
  exists c, elementary_cycle E c.
Proof.
  intros Hne Hout. destruct V as [|v V']; [congruence|].
  destruct (walk_exists E (v :: V') Hout (List.length (v :: V')) v
              (or_introl eq_refl)) as [p [Hlen [Hp Hincl]]].
  destruct (repeat_gives_cycle E (v :: p) Hp) as [c [Hc _]]; [|eauto].
  intros Hnd. apply NoDup_incl_length with (l' := v :: V') in Hnd.
  - simpl in Hnd, Hlen. lia.
  - intros x [<-|Hx]; [now left | auto].
Qed.

Lemma is_path_rev (E : string -> string -> Prop) (p : list string) :
  is_path (fun u v => E v u) p -> is_path E (rev p).
Proof.
  induction p as [|a t IH]; [auto|]. intros Hp.
  apply is_path_cons in Hp. destruct Hp as [H1 H2]. specialize (IH H2).
  destruct t as [|b t']; [exact I|].
  destruct H1 as [H1|H1]; [discriminate|]. simpl hd in H1.
  change (rev (a :: b :: t')) with ((rev t' ++ [b]) ++ [a]).
  rewrite <- app_assoc. change ([b] ++ [a]) with (b :: [a]).
  apply is_path_app. split; [exact IH|]. simpl. auto.
Qed.

(** A cycle of the reversed relation is a cycle of the relation, read
    backwards. *)
Lemma reversed_cycle (E : string -> string -> Prop) (c : list string) :
  elementary_cycle (fun u v => E v u) c -> exists c', elementary_cycle E c'.
Proof.
  intros [Hne [Hnd Hp]]. destruct c as [|a t]; [congruence|].
  exists (a :: rev t). split; [discriminate|]. split.
  - inversion Hnd as [|? ? Hnotin Hnd']; subst. constructor.
    + now rewrite <- in_rev.
    + now apply NoDup_rev.
  - simpl hd in *. apply is_path_rev in Hp.
    change ((a :: t) ++ [a]) with (a :: (t ++ [a])) in Hp.
    simpl rev in Hp. rewrite rev_app_distr in Hp. exact Hp.
Qed.

Lemma filter_witness {A} (p : A -> bool) (l : list A) (x : A) :
  In x l -> p x = true -> 1 <= List.length (filter p l).
Proof.
  intros Hin Hp. assert (H : In x (filter p l)) by (apply filter_In; auto).
  destruct (filter p l); [destruct H | simpl; lia].
Qed.

Section AcyclicFacts2.

Context {os : OS}.

Section Acyclic.

Variable all_files : dict FileInfo.
Variable root_dir : list string.
Variable fs : FileSystem.
Variable selected : list string.
Variable r : AnalysisResult.
Hypothesis Hrun : analyze_dependencies all_files root_dir fs selected = Ret r.

(** Every elementary cycle of the dependencies is in the cycle list, from
    one of its nodes. *)
Lemma cycle_is_listed (c : list string) :
  elementary_cycle (depends_on r) c ->
  exists c', rotation c c' /\ In c' (circular_dependencies r).
Proof.
  intros Hcyc.
  destruct (analyze_dependencies_closed_form _ _ _ _ _ Hrun)
    as [_ [_ [Hc _]]].
  destruct (dependency_graph_wf _ _ _ _ _ Hrun)
    as [Hnodes [Hedges [Hrel [Hsel Hsrc]]]].
  rewrite Hc. unfold simple_cycles.
  assert (Hg : elementary_cycle
                 (graph_edge (dependency_graph all_files root_dir fs selected)) c).
  { apply (elementary_cycle_ext (depends_on r)); [|exact Hcyc].
    intros u v. apply Hrel. }
  apply (cycles_from_complete _ _ _ Hnodes Hg).
  intros x Hx. destruct (cycle_node_has_edge _ _ _ Hg Hx) as [y Hxy].
  now apply (Hsrc x y).
Qed.

Lemma acyclic_has_leaf :
  nodes r <> [] -> circular_dependencies r = [] ->
  exists k n, In (k, n) (nodes r) /\ dependencies n = [].
Proof.
  intros Hne Hacyc.
  destruct (filter (fun kv : string * DependencyNode =>
                      match dependencies (snd kv) with
                      | [] => true | _ => false end) (nodes r))
    as [|[k n] l] eqn:F.
  - exfalso.
    destruct (total_relation_has_cycle (depends_on r) (keys (nodes r)))
      as [c Hc].
    + destruct (nodes r); [congruence | discriminate].
    + intros v Hv. apply in_map_iff in Hv. destruct Hv as [[v' n] [Hv Hin]].
      simpl in Hv. subst v'.
      destruct (dependencies n) as [|w ws] eqn:D.
      * assert (H : In (v, n) []).
        { rewrite <- F. apply filter_In. split; [exact Hin|].
          simpl. now rewrite D. }
        destruct H.
      * pose proof (result_node_In _ _ _ _ _ Hrun _ _ Hin) as Hget.
        assert (Hw : In w (dependencies n)) by (rewrite D; now left).
        exists w. split; [|exists n; auto].
        apply (result_node_edges _ _ _ _ _ Hrun v n Hget) in Hw.
        now destruct (result_edge _ _ _ _ _ Hrun _ _ Hw) as [_ [H _]].
    + destruct (cycle_is_listed c Hc) as [c' [_ Hin]].
      rewrite Hacyc in Hin. destruct Hin.
  - assert (Hin : In (k, n) (filter (fun kv : string * DependencyNode =>
                      match dependencies (snd kv) with
                      | [] => true | _ => false end) (nodes r)))
      by (rewrite F; now left).
    apply filter_In in Hin. destruct Hin as [Hin Hd]. simpl in Hd.
    exists k, n. split; [exact Hin|]. now destruct (dependencies n).
Qed.

Lemma acyclic_has_entry_point :
  nodes r <> [] -> circular_dependencies r = [] ->
  exists k n, In (k, n) (nodes r) /\ dependents n = [].
Proof.
  intros Hne Hacyc.
  destruct (filter (fun kv : string * DependencyNode =>
                      match dependents (snd kv) with
                      | [] => true | _ => false end) (nodes r))
    as [|[k n] l] eqn:F.
  - exfalso.
    destruct (total_relation_has_cycle (fun u v => depends_on r v u)
                                       (keys (nodes r)))
      as [c Hc].
    + destruct (nodes r); [congruence | discriminate].
    + intros v Hv. apply in_map_iff in Hv. destruct Hv as [[v' n] [Hv Hin]].
      simpl in Hv. subst v'.
      destruct (dependents n) as [|w ws] eqn:D.
      * assert (H : In (v, n) []).
        { rewrite <- F. apply filter_In. split; [exact Hin|].
          simpl. now rewrite D. }
        destruct H.
      * pose proof (result_node_In _ _ _ _ _ Hrun _ _ Hin) as Hget.
        assert (Hw : In w (dependents n)) by (rewrite D; now left).
        apply (result_node_edges _ _ _ _ _ Hrun v n Hget) in Hw.
        exists w. split.
        -- now destruct (result_edge _ _ _ _ _ Hrun _ _ Hw) as [H _].
        -- destruct (result_edge _ _ _ _ _ Hrun _ _ Hw) as [Hk _].
           apply in_map_iff in Hk. destruct Hk as [[w' m] [Hw' Hm]].
           simpl in Hw'. subst w'.
           pose proof (result_node_In _ _ _ _ _ Hrun _ _ Hm) as Hgm.
           exists m. split; [exact Hgm|].
           now apply (result_node_edges _ _ _ _ _ Hrun w m Hgm).
    + destruct (reversed_cycle _ _ Hc) as [c' Hc'].
      destruct (cycle_is_listed c' Hc') as [c'' [_ Hin]].
      rewrite Hacyc in Hin. destruct Hin.
  - assert (Hin : In (k, n) (filter (fun kv : string * DependencyNode =>
                      match dependents (snd kv) with
                      | [] => true | _ => false end) (nodes r)))
      by (rewrite F; now left).
    apply filter_In in Hin. destruct Hin as [Hin Hd]. simpl in Hd.
    exists k, n. split; [exact Hin|]. now destruct (dependents n).
Qed.

End Acyclic.

(** X11: a result with at least one node and an empty cycle list has a
    node that nothing depends on, flagged as entry point, and a node
    without dependencies, flagged as leaf; so its summary counts at least
    one entry point and at least one leaf. *)
Theorem acyclic_result_has_entry_point_and_leaf
  (all_files : dict FileInfo) (root_dir : list string) (fs : FileSystem)
  (selected : list string) (r : AnalysisResult) :
  analyze_dependencies all_files root_dir fs selected = Ret r ->
  nodes r <> [] -> circular_dependencies r = [] ->
  (exists k n, In (k, n) (nodes r) /\ dependents n = []
               /\ is_entry_point n = true)
  /\ (exists k n, In (k, n) (nodes r) /\ dependencies n = []
                  /\ is_leaf n = true)
  /\ 1 <= entry_points (metrics r)
  /\ 1 <= leaf_nodes (metrics r).
Proof.
  intros Hrun Hne Hacyc.
  destruct (acyclic_has_entry_point _ _ _ _ _ Hrun Hne Hacyc)
    as [k1 [n1 [Hin1 Hd1]]].
  destruct (acyclic_has_leaf _ _ _ _ _ Hrun Hne Hacyc)
    as [k2 [n2 [Hin2 Hd2]]].
  assert (F1 : is_entry_point n1 = true).
  { pose proof (result_node_In _ _ _ _ _ Hrun _ _ Hin1) as Hget.
    destruct (result_node _ _ _ _ _ Hrun k1 n1 Hget)
      as [_ [_ [_ [_ [_ [_ [_ [_ [_ [F _]]]]]]]]]].
    now rewrite F, Hd1. }
  assert (F2 : is_leaf n2 = true).
  { pose proof (result_node_In _ _ _ _ _ Hrun _ _ Hin2) as Hget.
    destruct (result_node _ _ _ _ _ Hrun k2 n2 Hget)
      as [_ [_ [_ [_ [_ [_ [_ [_ [_ [_ F]]]]]]]]]].
    now rewrite F, Hd2. }
  split; [exists k1, n1; auto|]. split; [exists k2, n2; auto|].
  destruct (analyze_dependencies_closed_form _ _ _ _ _ Hrun)
    as [_ [_ [_ [Hm _]]]].
  rewrite Hm. unfold _calculate_metrics.
  destruct (Nat.eqb (List.length (nodes r)) 0) eqn:E.
  { apply Nat.eqb_eq in E. destruct (nodes r); [congruence | discriminate]. }
  cbn [entry_points leaf_nodes]. split.
  - apply (filter_witness _ _ n1); [|exact F1].
    unfold values. apply in_map_iff. exists (k1, n1). auto.
  - apply (filter_witness _ _ n2); [|exact F2].
    unfold values. apply in_map_iff. exists (k2, n2). auto.
Qed.

End AcyclicFacts2.

Lemma acyclic_result_has_entry_point_and_leaf_witness :
  exists r,
    analyze_dependencies Demo.catalog Demo.root Demo.disk
                         ["pkg/a.js"; "pkg/b.js"] = Ret r
    /\ 1 <= entry_points (metrics r) /\ 1 <= leaf_nodes (metrics r).
Proof.
  run_analysis r Hrun. exists r. split; [reflexivity|].
  apply (acyclic_result_has_entry_point_and_leaf Demo.catalog Demo.root
           Demo.disk ["pkg/a.js"; "pkg/b.js"] r Hrun).
  - vm_compute in Hrun. injection Hrun as <-. discriminate.
  - vm_compute in Hrun. injection Hrun as <-. reflexivity.
Defined.

(** ** Selecting a suggested file *)

Lemma list_set_snoc_fresh (l : list string) (x : string) :
  ~ In x l -> list_set (l ++ [x]) = list_set l ++ [x].
Proof.
  induction l as [|a l IH]; intros Hout; [reflexivity|].
  simpl. rewrite IH by (intros H; apply Hout; now right).
  rewrite filter_app. simpl.
  destruct (String.eqb a x) eqn:E; [|reflexivity].
  apply String.eqb_eq in E. subst. exfalso. apply Hout. now left.
Qed.

Section SuggestedFacts.

Context {os : OS}.

Lemma result_key_order
  (all_files : dict FileInfo) (root_dir : list string) (fs : FileSystem)
  (selected : list string) (r : AnalysisResult) :
  analyze_dependencies all_files root_dir fs selected = Ret r ->
  keys (nodes r) = list_set (known_ids all_files selected).
Proof.
  intros Hrun.
  destruct (analyze_dependencies_closed_form _ _ _ _ _ Hrun) as [Hn _].
  rewrite Hn.
  rewrite (keys_map_values (fun k n => classify (after_edges _ k n))).
  apply initial_nodes_key_order.
Qed.

(** X12: when a result reports a missing import and the file it suggests
    is added to the selection, the next analysis (if it returns) has the
    same nodes followed by the added file; the importing file now lists
    the added file among its dependencies, the added file lists the
    importing file among its dependents, and the import has no entry in
    the new missing list. *)
Theorem adding_suggested_file_settles_entry
  (all_files : dict FileInfo) (root_dir : list string) (fs : FileSystem)
  (selected : list string) (r r' : AnalysisResult)
  (m : MissingDependency) (g : string) :
  NoDup (keys all_files) ->
  analyze_dependencies all_files root_dir fs selected = Ret r ->
  In m (missing_dependencies r) -> suggested_file m = Some g ->
  analyze_dependencies all_files root_dir fs (selected ++ [g]) = Ret r' ->
  ~ In g selected
  /\ keys (nodes r') = keys (nodes r) ++ [g]
  /\ (exists nA', get (required_by m) (nodes r') = Some nA'
                  /\ In g (dependencies nA'))
  /\ (exists ng, get g (nodes r') = Some ng
                 /\ In (required_by m) (dependents ng))
  /\ entries_for (required_by m) (missing_import m) (missing_dependencies r')
     = [].
Proof.
  intros Hdict Hrun Hm Hg Hrun'.
  destruct (missing_entry_resolution _ _ _ _ _ _ Hrun Hm)
    as [_ [_ [nA [g0 [info [HA [_ [Himp [_ [Hg0 [Hcat [Hres Hout]]]]]]]]]]]].
  rewrite Hg in Hg0. injection Hg0 as <-.
  set (A := required_by m) in *. set (imp := missing_import m) in *.
  pose proof (In_get _ _ _ Hdict Hcat) as Hget.
  assert (Hfresh : ~ In g selected).
  { intros Hin. apply Hout. apply selected_paths_In. exists g, info. auto. }
  destruct (result_node _ _ _ _ _ Hrun A nA HA)
    as [infoA [HinfoA [HselA [P1 [T1 [I1 _]]]]]].
  assert (HgA : g <> A) by (intros ->; contradiction).
  assert (Hkey : In A (keys (nodes r'))).
  { apply (result_keys _ _ _ _ _ Hrun'). split.
    - apply in_or_app. now left.
    - unfold mem. now rewrite HinfoA. }
  destruct (get A (nodes r')) as [nA'|] eqn:HA';
    [|apply get_None_keys in HA'; contradiction].
  destruct (result_node _ _ _ _ _ Hrun' A nA' HA')
    as [infoA' [HinfoA' [_ [P2 [T2 [I2 [D2 _]]]]]]].
  rewrite HinfoA in HinfoA'. injection HinfoA' as <-.
  assert (Hres' : _resolve_import_path all_files root_dir imp
                    (parent (Path (file_path nA'))) (file_type nA')
                  = Ret (Some (relative_path info))).
  { rewrite P2, T2, <- P1, <- T1. exact Hres. }
  assert (Himp' : In imp (imports nA')) by (rewrite I2, <- I1; exact Himp).
  destruct (resolve_import_path_sound _ _ _ _ _ _ Hres) as [_ Hp].
  assert (Ht : truthy (relative_path info) = true)
    by (unfold truthy; apply String.eqb_neq in Hp; now rewrite Hp).
  assert (G : get (relative_path info)
                  (file_path_to_id all_files (selected ++ [g])) = Some g).
  { rewrite file_path_to_id_snoc, Hget, get_set. now rewrite String.eqb_refl. }
  assert (Hdep : In g (dependencies nA')).
  { rewrite D2. unfold targets. apply in_flat_map. exists imp.
    split; [exact Himp'|]. unfold import_edge. simpl.
    rewrite Hres', Ht, G.
    apply String.eqb_neq in HgA. rewrite HgA. now left. }
  split; [exact Hfresh|]. split; [|split; [|split]].
  - rewrite (result_key_order _ _ _ _ _ Hrun'),
            (result_key_order _ _ _ _ _ Hrun).
    unfold known_ids. rewrite filter_app. simpl. unfold mem at 2.
    rewrite Hget. apply list_set_snoc_fresh.
    intros Hin. apply filter_In in Hin. tauto.
  - exists nA'. auto.
  - apply (result_node_edges _ _ _ _ _ Hrun' A nA' HA') in Hdep.
    destruct (result_edge _ _ _ _ _ Hrun' _ _ Hdep) as [_ [Hk _]].
    destruct (get g (nodes r')) as [ng|] eqn:Hng;
      [|apply get_None_keys in Hng; contradiction].
    exists ng. split; [reflexivity|].
    now apply (result_node_edges _ _ _ _ _ Hrun' g ng Hng).
  - rewrite (entries_for_import _ _ _ _ _ Hrun' A nA' imp HA' Himp').
    unfold missing_entry. simpl. rewrite Hres', Ht.
    assert (Hin : In (relative_path info)
                     (selected_paths all_files (selected ++ [g]))).
    { apply selected_paths_In. exists g, info. split; [|auto].
      apply in_or_app. right. now left. }
    apply elem_In in Hin. now rewrite Hin.
Qed.

End SuggestedFacts.

Lemma adding_suggested_file_settles_entry_witness :
  exists r r' m,
    analyze_dependencies Demo.catalog Demo.root Demo.disk
                         ["pkg/a.js"; "pkg/b.js"] = Ret r
    /\ missing_dependencies r = [m]
    /\ suggested_file m = Some "pkg/c.js"
    /\ analyze_dependencies Demo.catalog Demo.root Demo.disk
                            ["pkg/a.js"; "pkg/b.js"; "pkg/c.js"] = Ret r'
    /\ keys (nodes r') = keys (nodes r) ++ ["pkg/c.js"]
    /\ entries_for (required_by m) (missing_import m)
                   (missing_dependencies r') = [].
Proof.
  destruct (analyze_dependencies Demo.catalog Demo.root Demo.disk
              ["pkg/a.js"; "pkg/b.js"]) as [r|] eqn:Hrun;
    [|vm_compute in Hrun; discriminate].
  destruct (analyze_dependencies Demo.catalog Demo.root Demo.disk
              ["pkg/a.js"; "pkg/b.js"; "pkg/c.js"]) as [r'|] eqn:Hrun';
    [|vm_compute in Hrun'; discriminate].
  destruct (missing_dependencies r) as [|m l] eqn:Hm;
    [vm_compute in Hrun; injection Hrun as <-; discriminate|].
  assert (Hl : l = []).
  { vm_compute in Hrun. injection Hrun as <-. now injection Hm. }
  assert (Hs : suggested_file m = Some "pkg/c.js").
  { vm_compute in Hrun. injection Hrun as <-. now injection Hm as <-. }
  subst l. exists r, r', m.
  split; [reflexivity|]. split; [exact Hm|]. split; [exact Hs|].
  split; [reflexivity|].
  destruct (adding_suggested_file_settles_entry Demo.catalog Demo.root
              Demo.disk ["pkg/a.js"; "pkg/b.js"] r r' m "pkg/c.js")
    as [_ [H1 [_ [_ H2]]]].
  - vm_compute. repeat constructor; simpl; intuition discriminate.
  - exact Hrun.
  - rewrite Hm. now left.
  - exact Hs.
  - exact Hrun'.
  - split; assumption.
Defined.

(** ** Language families *)

Lemma string_app_assoc (a b c : string) :
  ((a ++ b) ++ c = a ++ (b ++ c))%string.
Proof. induction a as [|x a IH]; simpl; [reflexivity | now rewrite IH]. Qed.

Lemma join_ends_with_last (ps : list string) :
  ps <> [] -> exists pre, join "/" ps = (pre ++ last ps "")%string.
Proof.
  induction ps as [|x ps IH]; [congruence|]. intros _.
  destruct ps as [|y ps]; [exists ""; reflexivity|].
  destruct IH as [pre Hpre]; [discriminate|].
  exists (x ++ "/" ++ pre)%string.
  change (join "/" (x :: y :: ps)) with (x ++ "/" ++ join "/" (y :: ps))%string.
  change (last (x :: y :: ps) "") with (last (y :: ps) "").
  rewrite Hpre, !string_app_assoc. reflexivity.
Qed.

Lemma replace_suffix_ends (nm ext : string) :
  exists stem, replace_suffix nm ext = (stem ++ ext)%string.
Proof.
  unfold replace_suffix. destruct (String.eqb (suffix_of nm) ""); eauto.
Qed.

Section FamilyFacts.

Context {os : OS}.

Section Family.

Variable all_files : dict FileInfo.
Variable root_dir : list string.

(** The text of a candidate relative to the root ends with the
    candidate's last component, unless the candidate is the root. *)
Lemma str_relative_ends (p rel : PurePath) :
  relative_to p (root_path root_dir) = Some rel ->
  str rel = "." \/ exists pre, str rel = (pre ++ last (parts p) "")%string.
Proof.
  unfold relative_to. destruct (Bool.eqb _ _); [|discriminate].
  destruct (strip_prefix _ _) as [rest|] eqn:E; [|discriminate].
  intros H. injection H as <-. unfold str. cbn [anchor parts].
  destruct rest as [|r0 rest'] eqn:Er; [now left|]. right.
  rewrite <- (strip_prefix_last _ _ _ E) by discriminate.
  apply join_ends_with_last. discriminate.
Qed.

Lemma try_direct_family resolved exts p :
  try_direct all_files root_dir resolved exts = Ret (Some p) ->
  p = "." \/ exists stem ext, In ext exts /\ p = (stem ++ ext)%string.
Proof.
  induction exts as [|e exts IH]; simpl; intros H; [discriminate|].
  assert (Hrest : try_direct all_files root_dir resolved exts = Ret (Some p) ->
                  p = "." \/ exists stem ext,
                      (e = ext \/ In ext exts) /\ p = (stem ++ ext)%string).
  { intros H'. destruct (IH H') as [->|[stem [ext [Hin ->]]]]; [now left|].
    right. exists stem, ext. auto. }
  unfold with_suffix in H.
  destruct (String.eqb (name resolved) ""); simpl in H; [discriminate|].
  destruct (relative_to _ (root_path root_dir)) as [rel|] eqn:Hrel; [|auto].
  destruct (in_catalog all_files (str rel)); [|auto].
  injection H as <-.
  destruct (str_relative_ends _ _ Hrel) as [->|[pre Hpre]]; [now left|].
  right. simpl in Hpre. rewrite last_last in Hpre.
  destruct (replace_suffix_ends (name resolved) e) as [stem Hstem].
  exists (pre ++ stem)%string, e. split; [now left|].
  now rewrite Hpre, Hstem, string_app_assoc.
Qed.

Lemma try_index_family resolved exts p :
  (forall e, In e exts -> In e [".py"; ".js"; ".jsx"; ".ts"; ".tsx"]) ->
  try_index all_files root_dir resolved exts = Some p ->
  p = "." \/ exists stem ext, In ext exts /\ p = (stem ++ ext)%string.
Proof.
  induction exts as [|e exts IH]; cbn [try_index]; intros Hexts H;
    [discriminate|].
  assert (Hrest : try_index all_files root_dir resolved exts = Some p ->
                  p = "." \/ exists stem ext,
                      (e = ext \/ In ext exts) /\ p = (stem ++ ext)%string).
  { intros H'. destruct (IH (fun e' He' => Hexts e' (or_intror He')) H')
      as [->|[stem [ext [Hin ->]]]]; [now left|].
    right. exists stem, ext. auto. }
  destruct (relative_to _ (root_path root_dir)) as [rel|] eqn:Hrel; [|auto].
  destruct (in_catalog all_files (str rel)); [|auto].
  injection H as <-.
  destruct (str_relative_ends _ _ Hrel) as [->|[pre Hpre]]; [now left|].
  right. exists (pre ++ "index")%string, e. split; [now left|].
  assert (Hpath : Path ("index" ++ e) = mkPath false [("index" ++ e)%string]).
  { specialize (Hexts e (or_introl eq_refl)). simpl in Hexts.
    destruct Hexts as [<-|[<-|[<-|[<-|[<-|[]]]]]]; reflexivity. }
  rewrite Hpath in Hpre. unfold joinpath in Hpre. cbn [anchor parts] in Hpre.
  rewrite last_last in Hpre. now rewrite Hpre, string_app_assoc.
Qed.

Lemma resolve_import_path_family imp dir ftype p :
  _resolve_import_path all_files root_dir imp dir ftype = Ret (Some p) ->
  in_family ftype p.
Proof.
  unfold _resolve_import_path.
  destruct (negb (startswith "." imp)); [discriminate|].
  destruct (os_resolve _) as [resolved|]; [|discriminate].
  intros H. apply bind_Ret_inv in H. destruct H as [d [Hd H]].
  destruct d as [q|].
  - injection H as <-. apply (try_direct_family _ _ _ Hd).
  - injection H as H. apply (try_index_family _ _ _) in H; [exact H|].
    destruct (extensions_for_cases ftype) as [-> | ->]; simpl; intuition.
Qed.

End Family.

(** X13: dependencies stay within a language family.  The path of every
    dependency of an analysed file, and of every file suggested for one of
    its missing imports, ends with an extension of the importing file's
    family: [.py] for a [.py] file, [.js], [.jsx], [.ts] or [.tsx] for any
    other.  (The one exception is a catalog entry whose path is the project
    root itself, [.].) *)
Theorem dependencies_stay_in_language_family
  (all_files : dict FileInfo) (root_dir : list string) (fs : FileSystem)
  (selected : list string) (r : AnalysisResult) :
  analyze_dependencies all_files root_dir fs selected = Ret r ->
  (forall A nA B nB,
     get A (nodes r) = Some nA -> In B (dependencies nA) ->
     get B (nodes r) = Some nB ->
     in_family (file_type nA) (file_path nB))
  /\ (forall m, In m (missing_dependencies r) ->
        exists nA g info,
          get (required_by m) (nodes r) = Some nA
          /\ suggested_file m = Some g /\ In (g, info) all_files
          /\ in_family (file_type nA) (relative_path info)).
Proof.
  intros Hrun. split.
  - intros A nA B nB HA HB HnB.
    destruct (result_node _ _ _ _ _ Hrun A nA HA)
      as [_ [_ [_ [_ [_ [_ [D _]]]]]]].
    rewrite D in HB. unfold targets in HB. apply in_flat_map in HB.
    destruct HB as [imp [_ HB]]. simpl in HB.
    apply import_edge_In in HB. destruct HB as [_ [_ [p [Hres Hget]]]].
    apply file_path_to_id_sound in Hget.
    destruct Hget as [_ [info [Hinfo Hp]]].
    destruct (result_node _ _ _ _ _ Hrun B nB HnB)
      as [info' [Hinfo' [_ [P _]]]].
    rewrite Hinfo in Hinfo'. injection Hinfo' as <-.
    rewrite P, Hp. apply (resolve_import_path_family _ _ _ _ _ _ Hres).
  - intros m Hm.
    destruct (missing_entry_resolution _ _ _ _ _ _ Hrun Hm)
      as [_ [_ [nA [g [info [HA [_ [_ [_ [Hg [Hcat [Hres _]]]]]]]]]]]].
    exists nA, g, info. repeat split; auto.
    apply (resolve_import_path_family _ _ _ _ _ _ Hres).
Qed.

End FamilyFacts.

Lemma dependencies_stay_in_language_family_witness :
  exists r nA nB,
    analyze_dependencies Demo.catalog Demo.root Demo.disk
                         ["pkg/a.js"; "pkg/b.js"] = Ret r
    /\ get "pkg/a.js" (nodes r) = Some nA
    /\ get "pkg/b.js" (nodes r) = Some nB
    /\ in_family (file_type nA) (file_path nB).
Proof.
  run_analysis r Hrun. node_of "pkg/a.js" r nA HA Hrun.
  node_of "pkg/b.js" r nB HB Hrun.
  exists r, nA, nB. split; [reflexivity|]. split; [exact HA|].
  split; [exact HB|].
  destruct (dependencies_stay_in_language_family Demo.catalog Demo.root
              Demo.disk ["pkg/a.js"; "pkg/b.js"] r Hrun) as [H _].
  apply (H "pkg/a.js" nA "pkg/b.js" nB HA); [|exact HB].
  vm_compute in Hrun. injection Hrun as <-.
  vm_compute in HA. injection HA as <-. now left.
Defined.

(** ** Selecting a file twice, or a file the catalog does not know *)

Lemma set_same {V} (k : string) (v : V) (d : dict V) :
  get k d = Some v -> set k v d = d.
Proof.
  induction d as [|[k' v'] d IH]; simpl; [discriminate|].
  destruct (String.eqb k' k) eqn:E.
  - apply String.eqb_eq in E. intros H. injection H as <-. now subst.
  - intros H. now rewrite IH.
Qed.

Lemma for_each_ext {A S} (xs : list A) (f g : S -> A -> result S) (s : S) :
  (forall s0 x, In x xs -> f s0 x = g s0 x) ->
  for_each xs f s = for_each xs g s.
Proof.
  revert s. induction xs as [|x xs IH]; simpl; intros s H; [reflexivity|].
  rewrite (H s x (or_introl eq_refl)).
  destruct (g s x) as [s1|e]; simpl; [|reflexivity].
  apply IH. intros s0 y Hy. apply H. now right.
Qed.

Section ReselectFacts.

Context {os : OS}.

Section Reselect.

Variable all_files : dict FileInfo.
Variable root_dir : list string.
Variable fs : FileSystem.
Variable selected : list string.
Variable x : string.
Hypothesis Hpaths : unique_paths all_files.
Hypothesis Hx : In x selected \/ mem x all_files = false.

Lemma make_node_again :
  fold_left (make_node all_files fs) (selected ++ [x]) ([], NX.empty)
  = fold_left (make_node all_files fs) selected ([], NX.empty).
Proof.
  rewrite fold_left_app. simpl. unfold make_node at 1.
  destruct (get x all_files) as [info|] eqn:E; [|reflexivity].
  destruct Hx as [Hin|Hun]; [|unfold mem in Hun; rewrite E in Hun; discriminate].
  set (st := fold_left (make_node all_files fs) selected ([], NX.empty)).
  destruct (initial_nodes_spec all_files fs selected) as [_ [H2 H3]].
  destruct (make_nodes_graph all_files fs selected ([], NX.empty))
    as [_ [Hg _]].
  fold st in Hg. unfold initial_nodes in H2, H3. fold st in H2, H3.
  assert (Hkey : In x (keys (fst st))).
  { apply H2. split; [exact Hin|]. unfold mem. now rewrite E. }
  destruct (get x (fst st)) as [n|] eqn:G;
    [|apply get_None_keys in G; contradiction].
  destruct (H3 x n (get_In _ _ _ G)) as [info' [Hinfo ->]].
  rewrite E in Hinfo. injection Hinfo as <-.
  change (mkNode x (relative_path info) (extension info)
            (_extract_imports fs (Path (path info)) (extension info))
            (_extract_exports fs (Path (path info)) (extension info))
            [] [] false false) with (fresh_node fs x info).
  rewrite (set_same _ _ _ G). unfold add_node.
  assert (Hel : elem x (g_nodes (snd st)) = true).
  { apply elem_In, Hg. left. split; [exact Hin|]. unfold mem. now rewrite E. }
  rewrite Hel. now destruct st.
Qed.

Lemma file_path_to_id_again :
  file_path_to_id all_files (selected ++ [x])
  = file_path_to_id all_files selected.
Proof.
  rewrite file_path_to_id_snoc.
  destruct (get x all_files) as [info|] eqn:E; [|reflexivity].
  destruct Hx as [Hin|Hun]; [|unfold mem in Hun; rewrite E in Hun; discriminate].
  apply set_same. now apply file_path_to_id_complete.
Qed.

Lemma selected_paths_again p :
  elem p (selected_paths all_files (selected ++ [x]))
  = elem p (selected_paths all_files selected).
Proof.
  unfold selected_paths. rewrite flat_map_app, elem_app. simpl.
  destruct (get x all_files) as [info|] eqn:E; simpl;
    [|now rewrite orb_false_r].
  destruct Hx as [Hin|Hun]; [|unfold mem in Hun; rewrite E in Hun; discriminate].
  rewrite orb_false_r.
  destruct (String.eqb p (relative_path info)) eqn:Ep;
    [|now rewrite orb_false_r].
  apply String.eqb_eq in Ep. subst p. rewrite orb_true_r. symmetry.
  apply elem_In. apply (selected_paths_In all_files selected).
  exists x, info. auto.
Qed.

Lemma find_missing_again nodes1 :
  _find_missing_dependencies all_files root_dir nodes1 (selected ++ [x])
  = _find_missing_dependencies all_files root_dir nodes1 selected.
Proof.
  unfold _find_missing_dependencies. apply for_each_ext.
  intros miss item _. apply for_each_ext. intros miss' imp _.
  unfold check_import.
  destruct (_resolve_import_path all_files root_dir imp _ _) as [[p|]|e];
    simpl; try reflexivity.
  now rewrite selected_paths_again.
Qed.

End Reselect.

(** X14: selecting a file a second time, or selecting an id that the
    catalog does not know, changes nothing in the result but the
    completeness score, which is computed from the longer selection: nodes,
    missing list, cycles, summary and node view are the same.  (For a
    catalog whose relative paths are pairwise distinct.) *)
Theorem reselecting_changes_only_the_score
  (all_files : dict FileInfo) (root_dir : list string) (fs : FileSystem)
  (selected : list string) (x : string) (r : AnalysisResult) :
  unique_paths all_files ->
  In x selected \/ mem x all_files = false ->
  analyze_dependencies all_files root_dir fs selected = Ret r ->
  analyze_dependencies all_files root_dir fs (selected ++ [x])
  = Ret (mkResult (nodes r) (missing_dependencies r)
           (circular_dependencies r) (metrics r) (graph r)
           (_calculate_completeness_score
              (S (List.length selected))
              (List.length (missing_dependencies r)))).
Proof.
  intros Hpaths Hx. unfold analyze_dependencies.
  rewrite (make_node_again all_files fs selected x Hx).
  unfold _resolve_dependencies.
  rewrite (file_path_to_id_again all_files selected x Hpaths Hx).
  destruct (for_each _ _ _) as [st|e]; simpl; [|discriminate].
  rewrite (find_missing_again all_files root_dir selected x Hx).
  destruct (_find_missing_dependencies _ _ _ _) as [miss|e]; simpl;
    [|discriminate].
  intros H. injection H as <-. simpl.
  rewrite length_app. simpl. now rewrite Nat.add_1_r.
Qed.

End ReselectFacts.

Lemma reselecting_changes_only_the_score_witness :
  exists r r',
    analyze_dependencies Demo.catalog Demo.root Demo.disk
                         ["pkg/a.js"; "pkg/b.js"] = Ret r
    /\ analyze_dependencies Demo.catalog Demo.root Demo.disk
                            ["pkg/a.js"; "pkg/b.js"; "pkg/a.js"] = Ret r'
    /\ nodes r' = nodes r
    /\ missing_dependencies r' = missing_dependencies r.
Proof.
  run_analysis r Hrun.
  pose proof (reselecting_changes_only_the_score Demo.catalog Demo.root
                Demo.disk ["pkg/a.js"; "pkg/b.js"] "pkg/a.js" r) as H.
  exists r. eexists. split; [reflexivity|]. split.
  - apply H; [| left; now left | exact Hrun].
    unfold unique_paths. vm_compute.
    repeat constructor; simpl; intuition discriminate.
  - split; reflexivity.
Defined.

(** ** What the JavaScript extraction keeps *)

Section DropWhile.

Variable w1 : ascii -> bool.
Variable w2 : ascii -> ascii -> bool.
Variable w3 : ascii -> ascii -> ascii -> bool.

Lemma drop_while_tight (s : string) :
  starts_with w1 w2 w3 s = false -> drop_while w1 w2 w3 s = s.
Proof.
  destruct s as [|c [|d [|e r]]]; simpl; try reflexivity.
  - rewrite orb_false_r. now intros ->.
  - intros H. apply orb_false_iff in H. destruct H as [-> H].
    rewrite orb_false_r in H. now rewrite H.
  - intros H. apply orb_false_iff in H. destruct H as [-> H].
    apply orb_false_iff in H. destruct H as [-> ->]. reflexivity.
Qed.

(** What [drop_while] returns is a suffix of the text, and starts with no
    accepted character. *)
Lemma drop_while_spec (n : nat) (s : string) :
  String.length s <= n ->
  starts_with w1 w2 w3 (drop_while w1 w2 w3 s) = false
  /\ exists front, s = (front ++ drop_while w1 w2 w3 s)%string.
Proof.
  revert s. induction n as [|n IH]; intros s Hlen.
  - destruct s; [|simpl in Hlen; lia]. split; [reflexivity|now exists ""].
  - destruct s as [|c rest]; [split; [reflexivity|now exists ""]|].
    simpl in Hlen.
    assert (Hself : forall t, drop_while w1 w2 w3 t = t ->
              starts_with w1 w2 w3 t = false ->
              starts_with w1 w2 w3 (drop_while w1 w2 w3 t) = false
              /\ exists front, t = (front ++ drop_while w1 w2 w3 t)%string).
    { intros t -> Ht. split; [exact Ht|now exists ""]. }
    destruct (w1 c) eqn:E1.
    { simpl. rewrite E1. destruct (IH rest ltac:(lia)) as [H1 [f H2]].
      split; [exact H1|]. exists (String c f). simpl. now rewrite <- H2. }
    destruct rest as [|d rest2].
    { apply Hself; simpl; now rewrite E1. }
    destruct (w2 c d) eqn:E2.
    { simpl. rewrite E1, E2. simpl in Hlen.
      destruct (IH rest2 ltac:(lia)) as [H1 [f H2]].
      split; [exact H1|]. exists (String c (String d f)). simpl.
      now rewrite <- H2. }
    destruct rest2 as [|e rest3].
    { apply Hself; simpl; now rewrite E1, E2. }
    destruct (w3 c d e) eqn:E3.
    { simpl. rewrite E1, E2, E3. simpl in Hlen.
      destruct (IH rest3 ltac:(lia)) as [H1 [f H2]].
      split; [exact H1|]. exists (String c (String d (String e f))). simpl.
      now rewrite <- H2. }
    apply Hself; simpl; now rewrite E1, E2, E3.
Qed.

Lemma drop_while_idempotent (s : string) :
  drop_while w1 w2 w3 (drop_while w1 w2 w3 s) = drop_while w1 w2 w3 s.
Proof.
  apply drop_while_tight.
  apply (drop_while_spec (String.length s) s (Nat.le_refl _)).
Qed.

(** A text whose beginning is accepted keeps it when text is appended. *)
Lemma starts_with_app (p w : string) :
  starts_with w1 w2 w3 p = true -> starts_with w1 w2 w3 (p ++ w) = true.
Proof.
  destruct p as [|c [|d [|e r]]]; simpl; try discriminate.
  - rewrite orb_false_r. now intros ->.
  - rewrite orb_false_r. intros H. apply orb_true_iff in H.
    destruct H as [-> | ->]; [reflexivity|]. simpl. apply orb_true_r.
  - intros H. exact H.
Qed.

End DropWhile.

Lemma rev_onto_app (s acc : string) :
  rev_onto s acc = (rev_onto s "" ++ acc)%string.
Proof.
  revert acc. induction s as [|c s IH]; intros acc; [reflexivity|].
  simpl. rewrite (IH (String c acc)), (IH (String c "")).
  now rewrite string_app_assoc.
Qed.

Lemma reversed_app (a b : string) :
  reversed (a ++ b) = (reversed b ++ reversed a)%string.
Proof.
  unfold reversed. induction a as [|c a IH]; simpl.
  - induction (rev_onto b "") as [|x t IHt]; simpl; congruence.
  - rewrite (rev_onto_app (a ++ b)), (rev_onto_app a), IH.
    now rewrite string_app_assoc.
Qed.

Lemma reversed_involutive (s : string) : reversed (reversed s) = s.
Proof.
  induction s as [|c s IH]; [reflexivity|].
  change (String c s) with ("" ++ String c s)%string at 1.
  unfold reversed at 2. simpl. rewrite rev_onto_app. fold (reversed s).
  rewrite reversed_app, IH. reflexivity.
Qed.

(** [rstrip] cuts at the end only. *)
Lemma rstrip_prefix (s : string) :
  exists back, s = (rstrip s ++ back)%string.
Proof.
  unfold rstrip.
  destruct (drop_while_spec isspace (fun d c => isspace2 c d)
              (fun e d c => isspace3 c d e)
              (String.length (reversed s)) (reversed s) (Nat.le_refl _))
    as [_ [front H]].
  exists (reversed front).
  rewrite <- reversed_app, <- H. symmetry. apply reversed_involutive.
Qed.

Lemma strip_idempotent (s : string) : strip (strip s) = strip s.
Proof.
  unfold strip.
  assert (Hl : lstrip (rstrip (lstrip s)) = rstrip (lstrip s)).
  { apply drop_while_tight.
    destruct (starts_with isspace isspace2 isspace3 (rstrip (lstrip s)))
      eqn:E; [|reflexivity].
    destruct (rstrip_prefix (lstrip s)) as [back Hb].
    apply (starts_with_app _ _ _ _ back) in E. rewrite <- Hb in E.
    unfold lstrip in E.
    destruct (drop_while_spec isspace isspace2 isspace3
                (String.length s) s (Nat.le_refl _)) as [Ht _].
    congruence. }
  rewrite Hl. unfold rstrip. rewrite reversed_involutive.
  now rewrite drop_while_idempotent.
Qed.

Section JavaScriptFacts.

Context {os : OS}.

(** X15: the import list of an analysed [.js], [.jsx], [.ts] or [.tsx]
    file holds only specifiers that start with a dot, start with [@] or
    contain a slash, without surrounding white space: a bare package name
    such as [react] is never listed.  Each listed specifier is a match of
    one of the three JavaScript import patterns in the file's text,
    stripped. *)
Theorem javascript_imports_are_paths
  (all_files : dict FileInfo) (root_dir : list string) (fs : FileSystem)
  (selected : list string) (r : AnalysisResult)
  (A : string) (nA : DependencyNode) (imp : string) :
  analyze_dependencies all_files root_dir fs selected = Ret r ->
  get A (nodes r) = Some nA ->
  In (file_type nA) [".js"; ".jsx"; ".ts"; ".tsx"] ->
  In imp (imports nA) ->
  (startswith "." imp || startswith "@" imp || contains "/" imp) = true
  /\ strip imp = imp
  /\ exists info content raw,
       get A all_files = Some info
       /\ fs (str (Path (path info))) = Some content
       /\ In raw (findall content JsImportFrom ++ findall content JsRequire
                  ++ findall content JsDynamicImport)
       /\ imp = strip raw.
Proof.
  intros Hrun HA Hjs Himp.
  destruct (result_node _ _ _ _ _ Hrun A nA HA)
    as [info [Hinfo [_ [_ [T [I _]]]]]].
  rewrite I in Himp. rewrite T in Hjs. unfold _extract_imports in Himp.
  destruct (fs (str (Path (path info)))) as [content|] eqn:Hfs;
    [|destruct Himp].
  assert (Hpy : String.eqb (extension info) ".py" = false).
  { simpl in Hjs. destruct Hjs as [<-|[<-|[<-|[<-|[]]]]]; reflexivity. }
  assert (Hext : is_js_extension (extension info) = true).
  { unfold is_js_extension. now apply elem_In. }
  rewrite Hpy, Hext in Himp. unfold _extract_javascript_imports in Himp.
  apply (proj1 (In_list_set _ _)) in Himp. apply filter_In in Himp.
  destruct Himp as [Hraw Hkeep]. apply in_map_iff in Hraw.
  destruct Hraw as [raw [<- Hraw]].
  split; [|split].
  - unfold keep_js_import in Hkeep.
    destruct (startswith "." (strip raw)); [reflexivity|].
    destruct (startswith "@" (strip raw)); [reflexivity|].
    destruct (contains "/" (strip raw)); [reflexivity|]. discriminate.
  - apply strip_idempotent.
  - exists info, content, raw. repeat split; auto.
    simpl in Hraw. now rewrite app_nil_r in Hraw.
Qed.

End JavaScriptFacts.

Lemma javascript_imports_are_paths_witness :
  exists r nA,
    analyze_dependencies [Demo.file "app.js"] Demo.root
      (fun _ => Some (Demo.js [" ./util "; "react"; "@scope/pkg"]))
      ["app.js"] = Ret r
    /\ get "app.js" (nodes r) = Some nA
    /\ imports nA = ["./util"; "@scope/pkg"]
    /\ strip "./util" = "./util".
Proof.
  run_analysis r Hrun. node_of "app.js" r nA HA Hrun.
  exists r, nA. split; [reflexivity|]. split; [exact HA|].
  assert (Hi : imports nA = ["./util"; "@scope/pkg"]).
  { vm_compute in Hrun. injection Hrun as <-.
    vm_compute in HA. injection HA as <-. reflexivity. }
  split; [exact Hi|].
  apply (javascript_imports_are_paths [Demo.file "app.js"] Demo.root
           (fun _ => Some (Demo.js [" ./util "; "react"; "@scope/pkg"]))
           ["app.js"] r "app.js" nA "./util" Hrun HA).
  - vm_compute in Hrun. injection Hrun as <-.
    vm_compute in HA. injection HA as <-. now left.
  - rewrite Hi. now left.
Defined.

(** ** Calling an analyzer again *)

Lemma for_each_alike {A S} (R : S -> S -> Prop) (xs : list A)
  (f g : S -> A -> result S) :
  (forall s s' x, In x xs -> R s s' -> alike R (f s x) (g s' x)) ->
  forall s s', R s s' -> alike R (for_each xs f s) (for_each xs g s').
Proof.
  induction xs as [|x xs IH]; simpl; intros H s s' Hs; [exact Hs|].
  pose proof (H s s' x (or_introl eq_refl) Hs) as Hx.
  destruct (f s x) as [a|e], (g s' x) as [b|e']; simpl in *;
    try contradiction; [|exact I].
  apply IH; [|exact Hx]. intros s0 s0' y Hy. apply H. now right.
Qed.

Section ReuseFacts.

Context {os : OS}.

Section Reuse.

Variable all_files : dict FileInfo.
Variable root_dir : list string.
Variable fs : FileSystem.

Lemma make_nodes_same_nodes selected st st' :
  same_nodes st st' ->
  same_nodes (fold_left (make_node all_files fs) selected st)
             (fold_left (make_node all_files fs) selected st').
Proof.
  revert st st'. induction selected as [|x l IH]; intros st st' H; [exact H|].
  simpl. apply IH. unfold make_node, same_nodes in *.
  destruct (get x all_files); simpl; [now rewrite H | exact H].
Qed.

Lemma link_all_same_nodes path_to_id items st st' :
  same_nodes st st' ->
  alike same_nodes
    (for_each items (link_node all_files root_dir path_to_id) st)
    (for_each items (link_node all_files root_dir path_to_id) st').
Proof.
  apply for_each_alike. intros s s' item _ Hs. unfold link_node.
  apply for_each_alike; [|exact Hs]. intros s0 s0' imp _ Hs0.
  unfold link_import.
  destruct (_resolve_import_path all_files root_dir imp _ _) as [[p|]|e];
    simpl; [|exact Hs0|exact I].
  destruct (if truthy p then get p path_to_id else None) as [dep|];
    [|exact Hs0].
  destruct (String.eqb dep (fst item)); [exact Hs0|].
  unfold alike, same_nodes in *. simpl. now rewrite Hs0.
Qed.

(** A call on an analyzer with any graph returns what a fresh analyzer
    returns, except for the cycle list, which is that of the graph it
    leaves behind: the old graph with the nodes and edges of this call. *)
Lemma analyze_on_any_graph g0 selected r g :
  analyze_dependencies_on all_files root_dir fs g0 selected = Ret (r, g) ->
  exists r0,
    analyze_dependencies all_files root_dir fs selected = Ret r0
    /\ nodes r = nodes r0
    /\ missing_dependencies r = missing_dependencies r0
    /\ metrics r = metrics r0 /\ graph r = graph r0
    /\ completeness_score r = completeness_score r0
    /\ circular_dependencies r = simple_cycles g
    /\ g = fold_left (fun g e => add_edge (fst e) (snd e) g)
             (edges_of all_files root_dir (file_path_to_id all_files selected)
                       (initial_nodes all_files fs selected))
             (snd (fold_left (make_node all_files fs) selected ([], g0))).
Proof.
  unfold analyze_dependencies_on, analyze_dependencies, _resolve_dependencies.
  pose proof (make_nodes_same_nodes selected ([], g0) ([], NX.empty) eq_refl)
    as Hn. unfold same_nodes in Hn.
  fold (initial_nodes all_files fs selected) in Hn |- *.
  set (st0 := fold_left (make_node all_files fs) selected ([], g0)) in *.
  rewrite Hn.
  pose proof (link_all_same_nodes (file_path_to_id all_files selected)
                (initial_nodes all_files fs selected)
                (initial_nodes all_files fs selected, snd st0)
                (initial_nodes all_files fs selected,
                 snd (fold_left (make_node all_files fs) selected
                                ([], NX.empty))) eq_refl) as Hlink.
  destruct (for_each _ _ (initial_nodes all_files fs selected, snd st0))
    as [st|e] eqn:H1; [|discriminate].
  destruct (for_each (initial_nodes all_files fs selected)
              (link_node all_files root_dir (file_path_to_id all_files selected))
              (initial_nodes all_files fs selected,
               snd (fold_left (make_node all_files fs) selected
                              ([], NX.empty))))
    as [st'|e'] eqn:H1'; [|unfold alike in Hlink; contradiction].
  unfold alike, same_nodes in Hlink. simpl. rewrite <- Hlink.
  destruct (_find_missing_dependencies _ _ _ _) as [miss|e]; simpl;
    [|discriminate].
  intros H. injection H as <- <-. eexists. split; [reflexivity|]. simpl.
  repeat split.
  apply link_all_pure in H1. rewrite H1, fold_connect_graph. reflexivity.
Qed.

End Reuse.

(** X16: the analyzer's graph is never cleared.  When one analyzer is
    called a second time, possibly after the files have changed and with
    any selection, the call returns the nodes, missing list, summary, node
    view and score that a fresh analyzer returns for that selection, but
    its cycle list holds, besides the cycles a fresh analyzer reports, every
    cycle that the first call reported (each from one of its nodes). *)
Theorem reused_analyzer_keeps_old_cycles
  (all_files : dict FileInfo) (root_dir : list string)
  (fs1 fs2 : FileSystem) (selected1 selected2 : list string)
  (r1 r2 : AnalysisResult) (g1 g2 : DiGraph) :
  analyze_dependencies_on all_files root_dir fs1 NX.empty selected1
  = Ret (r1, g1) ->
  analyze_dependencies_on all_files root_dir fs2 g1 selected2
  = Ret (r2, g2) ->
  analyze_dependencies all_files root_dir fs1 selected1 = Ret r1
  /\ (exists r0,
        analyze_dependencies all_files root_dir fs2 selected2 = Ret r0
        /\ nodes r2 = nodes r0
        /\ missing_dependencies r2 = missing_dependencies r0
        /\ metrics r2 = metrics r0 /\ graph r2 = graph r0
        /\ completeness_score r2 = completeness_score r0
        /\ forall c, In c (circular_dependencies r0) ->
             exists c', rotation c c' /\ In c' (circular_dependencies r2))
  /\ (forall c, In c (circular_dependencies r1) ->
        exists c', rotation c c' /\ In c' (circular_dependencies r2)).
Proof.
  intros H1 H2.
  destruct (analyze_on_any_graph _ _ _ _ _ _ _ H1)
    as [r1' [Hrun1 [N1 [M1 [E1 [G1 [S1 [C1 Hg1]]]]]]]].
  destruct (analyze_on_any_graph _ _ _ _ _ _ _ H2)
    as [r0 [Hrun2 [N2 [M2 [E2 [G2 [S2 [C2 Hg2]]]]]]]].
  assert (Hr1 : r1' = r1).
  { destruct (analyze_dependencies_closed_form _ _ _ _ _ Hrun1)
      as [_ [_ [Hc _]]].
    destruct r1, r1'. simpl in *. subst. reflexivity. }
  subst r1'.
  destruct (dependency_graph_wf _ _ _ _ _ Hrun1) as [Hnd1 [Hed1 [_ [_ Hsrc1]]]].
  change (fold_left (fun g e => add_edge (fst e) (snd e) g)
            (edges_of all_files root_dir (file_path_to_id all_files selected1)
                      (initial_nodes all_files fs1 selected1))
            (snd (fold_left (make_node all_files fs1) selected1
                            ([], NX.empty))))
    with (dependency_graph all_files root_dir fs1 selected1) in Hg1.
  rewrite <- Hg1 in Hnd1, Hed1, Hsrc1.
  destruct (make_nodes_graph all_files fs2 selected2 ([], g1))
    as [Hme [Hmn Hmd]]. simpl in Hme, Hmn, Hmd.
  destruct (fold_add_edge
              (edges_of all_files root_dir (file_path_to_id all_files selected2)
                        (initial_nodes all_files fs2 selected2))
              (snd (fold_left (make_node all_files fs2) selected2 ([], g1))))
    as [He [Hn [Hndn _]]].
  simpl in He, Hn, Hndn. rewrite <- Hg2 in He, Hn, Hndn.
  assert (Hnd2 : NoDup (g_nodes g2)) by auto.
  assert (Hkeep : forall c, elementary_cycle (graph_edge g1) c ->
            exists c', rotation c c' /\ In c' (circular_dependencies r2)).
  { intros c Hc. rewrite C2. unfold simple_cycles.
    apply (cycles_from_complete g2 _ _ Hnd2).
    - apply (elementary_cycle_ext (graph_edge g1)); [|exact Hc].
      intros u v Huv. unfold graph_edge in *. apply He. right.
      now rewrite Hme.
    - intros x Hx. destruct (cycle_node_has_edge _ _ _ Hc Hx) as [y Hxy].
      apply Hn. right. apply Hmn. right. now apply (Hsrc1 x y). }
  split; [exact Hrun1|]. split.
  - exists r0. repeat split; auto.
    intros c Hc.
    destruct (analyze_dependencies_closed_form _ _ _ _ _ Hrun2)
      as [_ [_ [Hc0 _]]].
    destruct (dependency_graph_wf _ _ _ _ _ Hrun2)
      as [Hnd0 [_ [_ [_ Hsrc0]]]].
    rewrite Hc0 in Hc. unfold simple_cycles in Hc.
    destruct (cycles_from_sound _ _ _ Hnd0 Hc) as [Hcyc _].
    rewrite C2. unfold simple_cycles.
    apply (cycles_from_complete g2 _ _ Hnd2).
    + apply (elementary_cycle_ext
               (graph_edge (dependency_graph all_files root_dir fs2 selected2)));
        [|exact Hcyc].
      intros u v Huv. unfold graph_edge in *. apply He.
      unfold dependency_graph in Huv.
      destruct (fold_add_edge
                  (edges_of all_files root_dir
                     (file_path_to_id all_files selected2)
                     (initial_nodes all_files fs2 selected2))
                  (snd (fold_left (make_node all_files fs2) selected2
                                  ([], NX.empty)))) as [He0 _].
      simpl in He0. apply He0 in Huv. destruct Huv as [Huv|Huv]; [now left|].
      destruct (make_nodes_graph all_files fs2 selected2 ([], NX.empty))
        as [Hme0 _]. simpl in Hme0. rewrite Hme0 in Huv. destruct Huv.
    + intros x Hx. destruct (cycle_node_has_edge _ _ _ Hcyc Hx) as [y Hxy].
      apply Hsrc0 in Hxy. unfold dependency_graph in Hxy.
      destruct (fold_add_edge
                  (edges_of all_files root_dir
                     (file_path_to_id all_files selected2)
                     (initial_nodes all_files fs2 selected2))
                  (snd (fold_left (make_node all_files fs2) selected2
                                  ([], NX.empty)))) as [_ [Hn0 _]].
      simpl in Hn0. apply Hn0 in Hxy. apply Hn.
      destruct Hxy as [Hxy|Hxy]; [now left|]. right.
      destruct (make_nodes_graph all_files fs2 selected2 ([], NX.empty))
        as [_ [Hmn0 _]]. simpl in Hmn0. apply Hmn0 in Hxy.
      apply Hmn. destruct Hxy as [Hxy|[]]. now left.
  - intros c Hc. apply Hkeep. rewrite C1 in Hc. unfold simple_cycles in Hc.
    now destruct (cycles_from_sound _ _ _ Hnd1 Hc).
Qed.

End ReuseFacts.

Lemma reused_analyzer_keeps_old_cycles_witness :
  exists r1 g1 r2 g2,
    analyze_dependencies_on Demo.ring_catalog Demo.root Demo.ring_disk
      NX.empty ["a.js"; "b.js"; "c.js"] = Ret (r1, g1)
    /\ analyze_dependencies_on Demo.ring_catalog Demo.root Demo.ring_disk
         g1 [] = Ret (r2, g2)
    /\ nodes r2 = []
    /\ exists c', rotation ["a.js"; "b.js"; "c.js"] c'
                  /\ In c' (circular_dependencies r2).
Proof.
  destruct (analyze_dependencies_on Demo.ring_catalog Demo.root Demo.ring_disk
              NX.empty ["a.js"; "b.js"; "c.js"]) as [[r1 g1]|] eqn:H1;
    [|vm_compute in H1; discriminate].
  destruct (analyze_dependencies_on Demo.ring_catalog Demo.root Demo.ring_disk
              g1 []) as [[r2 g2]|] eqn:H2; [|discriminate].
  exists r1, g1, r2, g2. split; [reflexivity|]. split; [exact H2|].
  destruct (reused_analyzer_keeps_old_cycles Demo.ring_catalog Demo.root
              Demo.ring_disk Demo.ring_disk ["a.js"; "b.js"; "c.js"] []
              r1 r2 g1 g2 H1 H2) as [_ [_ Hold]].
  split; [injection H2 as <- _; reflexivity|].
  apply Hold. vm_compute in H1. injection H1 as <- _. now left.
Defined.
